(** * A verified model of the single-site crawler [main.py]

    The development embeds the crawler of [src/main.py] in Rocq and proves
    the properties its specification states about it.

    Layout:
    - [Py]         exceptions and results of Python calls;
    - [Str]        the [str] methods the program uses;
    - [Ipaddress]  the address test behind bracketed hosts;
    - [Urllib]     [urllib.parse] (CPython 3.11): [urlsplit], [urlparse],
                   [urlunsplit], [urlunparse], [urljoin];
    - [Posixpath]  [os.path.join];
    - [World]      the collaborators: [requests], the file system,
                   [BeautifulSoup], [re], the [rich] console;
    - the functions of [main.py], in the order of the source;
    - [Fixture]    a small site to run the crawler on;
    - the predicates of the statements, then the theorems.

    Strings.  A Python [str] is modelled as a Rocq [string] whose characters
    are the code points below 256.  On such strings the NFKC test of
    [urllib.parse._checknetloc] never fires (no Latin-1 character normalises
    to one of [/?#@:]), and the white space of [str.split()] and
    [str.strip()] is the set 9-13, 28-32, 133, 160. *)

From Stdlib Require Import Ascii ZArith Lia.
From stdpp Require Import base option list strings gmap.

(** ** Exceptions and results *)

Module Py.

Inductive exn : Type :=
| ValueError
| IndexError
| TypeError
| OSError
| RequestException
| HTTPError            (* [response.raise_for_status()] *)
| MarkupError          (* [rich.errors.MarkupError], from [console.print] *)
| TyperExit.           (* [typer.Exit], a [RuntimeError] *)

Inductive result (A : Type) : Type :=
| Ok (a : A)
| Raise (e : exn).
Global Arguments Ok {A} a.
Global Arguments Raise {A} e.

Definition bind {A B} (m : result A) (k : A -> result B) : result B :=
  match m with
  | Ok a => k a
  | Raise e => Raise e
  end.

(** [try: m  except Exception: d] *)
Definition try_except {A} (m : result A) (d : A) : A :=
  match m with
  | Ok a => a
  | Raise _ => d
  end.

End Py.
Export Py.

Global Instance result_ret : MRet result := fun A a => Ok a.
Global Instance result_bind : MBind result := fun A B k m => Py.bind m k.

(** ** Python [str] methods *)

Module Str.

Definition len (s : string) : nat := String.length s.

(** [c in s] *)
Fixpoint mem (c : ascii) (s : string) : bool :=
  match s with
  | EmptyString => false
  | String d s' => if Ascii.eqb c d then true else mem c s'
  end.

(** [s.find(c)]; [None] stands for -1 *)
Fixpoint find (c : ascii) (s : string) : option nat :=
  match s with
  | EmptyString => None
  | String d s' => if Ascii.eqb c d then Some O else S <$> find c s'
  end.

(** [s[:n]] *)
Fixpoint take (n : nat) (s : string) : string :=
  match n, s with
  | S n', String c s' => String c (take n' s')
  | _, _ => EmptyString
  end.

(** [s[n:]] *)
Fixpoint drop (n : nat) (s : string) : string :=
  match n, s with
  | S n', String _ s' => drop n' s'
  | _, _ => s
  end.

(** [s[i:j]] for [0 <= i], [0 <= j] *)
Definition slice (i j : nat) (s : string) : string := drop i (take j s).

(** [s.find(c, start)] *)
Definition find_from (c : ascii) (s : string) (start : nat) : option nat :=
  if (len s <? start)%nat then None
  else (fun k => (start + k)%nat) <$> find c (drop start s).

(** [s.rfind(c)] *)
Fixpoint rfind (c : ascii) (s : string) : option nat :=
  match s with
  | EmptyString => None
  | String d s' =>
      match rfind c s' with
      | Some k => Some (S k)
      | None => if Ascii.eqb c d then Some O else None
      end
  end.

(** [s.startswith(p)] *)
Fixpoint startswith (p s : string) : bool :=
  match p, s with
  | EmptyString, _ => true
  | String a p', String b s' => Ascii.eqb a b && startswith p' s'
  | String _ _, EmptyString => false
  end.

(** the last character of [s], if any *)
Fixpoint last (s : string) : option ascii :=
  match s with
  | EmptyString => None
  | String c EmptyString => Some c
  | String _ s' => last s'
  end.

(** [s.endswith(c)] for a one-character [c] *)
Definition endswith (c : ascii) (s : string) : bool :=
  match last s with
  | Some d => Ascii.eqb c d
  | None => false
  end.

(** [s.lstrip(chars)], the set [chars] given by its membership test *)
Fixpoint lstrip (P : ascii -> bool) (s : string) : string :=
  match s with
  | EmptyString => EmptyString
  | String c s' => if P c then lstrip P s' else s
  end.

(** [s.rstrip(chars)] *)
Fixpoint rstrip (P : ascii -> bool) (s : string) : string :=
  match s with
  | EmptyString => EmptyString
  | String c s' =>
      match rstrip P s' with
      | EmptyString => if P c then EmptyString else String c EmptyString
      | r => String c r
      end
  end.

(** [s.strip(chars)] *)
Definition strip (P : ascii -> bool) (s : string) : string :=
  rstrip P (lstrip P s).

(** [s.replace(c, "")] *)
Fixpoint remove (c : ascii) (s : string) : string :=
  match s with
  | EmptyString => EmptyString
  | String d s' => if Ascii.eqb c d then remove c s' else String d (remove c s')
  end.

(** [s.split(c)]: never the empty list *)
Fixpoint split (c : ascii) (s : string) : list string :=
  match s with
  | EmptyString => [EmptyString]
  | String d s' =>
      if Ascii.eqb c d then EmptyString :: split c s'
      else match split c s' with
           | w :: ws => String d w :: ws
           | [] => [String d EmptyString]
           end
  end.

(** [s.partition(c)]: [(before, found, after)] *)
Fixpoint partition (c : ascii) (s : string) : string * bool * string :=
  match s with
  | EmptyString => (EmptyString, false, EmptyString)
  | String d s' =>
      if Ascii.eqb c d then (EmptyString, true, s')
      else let '(a, f, b) := partition c s' in (String d a, f, b)
  end.

(** [s.rpartition(c)[2]]: what follows the last [c], all of [s] without *)
Fixpoint rpartition_tail (c : ascii) (s : string) : string :=
  match s with
  | EmptyString => EmptyString
  | String d s' =>
      if mem c s' then rpartition_tail c s'
      else if Ascii.eqb c d then s' else s
  end.

(** [s.split(c, 1)] when [c in s]: exactly two pieces *)
Definition split1 (c : ascii) (s : string) : string * string :=
  let '(a, _, b) := partition c s in (a, b).

(** [sep.join(l)] *)
Fixpoint join (sep : string) (l : list string) : string :=
  match l with
  | [] => EmptyString
  | [w] => w
  | w :: ws => w +:+ sep +:+ join sep ws
  end.

(** [all(P(c) for c in s)] *)
Fixpoint all (P : ascii -> bool) (s : string) : bool :=
  match s with
  | EmptyString => true
  | String c s' => P c && all P s'
  end.

Definition code (c : ascii) : nat := nat_of_ascii c.

(** [c.isspace()] on the code points below 256 *)
Definition isspace (c : ascii) : bool :=
  let n := code c in
  ((9 <=? n) && (n <=? 13) || (28 <=? n) && (n <=? 32)
   || (n =? 133) || (n =? 160))%nat.

(** [c.isascii() and c.isalpha()] *)
Definition isascii_alpha (c : ascii) : bool :=
  let n := code c in
  ((65 <=? n) && (n <=? 90) || (97 <=? n) && (n <=? 122))%nat.

Definition isdigit (c : ascii) : bool :=
  let n := code c in ((48 <=? n) && (n <=? 57))%nat.

(** [c.lower()] on ASCII; the program lowers scheme names only *)
Definition lower_char (c : ascii) : ascii :=
  let n := code c in
  if ((65 <=? n) && (n <=? 90))%nat then ascii_of_nat (n + 32) else c.

Fixpoint lower (s : string) : string :=
  match s with
  | EmptyString => EmptyString
  | String c s' => String (lower_char c) (lower s')
  end.

(** [s.split(maxsplit=1)]: split once on a run of white space, leading
    white space skipped; the remainder keeps its trailing white space *)
Fixpoint token (s : string) : string * string :=
  match s with
  | EmptyString => (EmptyString, EmptyString)
  | String c s' =>
      if isspace c then (EmptyString, s)
      else let '(t, r) := token s' in (String c t, r)
  end.

Definition split_ws1 (s : string) : list string :=
  match lstrip isspace s with
  | EmptyString => []
  | s1 =>
      let '(t, r) := token s1 in
      match lstrip isspace r with
      | EmptyString => [t]
      | r' => [t; r']
      end
  end.

(** [s.strip()] *)
Definition strip_ws (s : string) : string := strip isspace s.

End Str.

(** ** [ipaddress]: which bracketed hosts [urlsplit] accepts *)

Module Ipaddress.

Definition is_hex_digit (c : ascii) : bool :=
  let n := Str.code c in
  ((48 <=? n) && (n <=? 57) || (65 <=? n) && (n <=? 70)
   || (97 <=? n) && (n <=? 102))%nat.

(** [int(s, 10)] on a string of ASCII digits *)
Definition decimal (s : string) : N :=
  let fix go (acc : N) (s : string) : N :=
    match s with
    | EmptyString => acc
    | String c s' => go (10 * acc + (N_of_ascii c - 48))%N s'
    end in
  go 0%N s.

(** [IPv4Address._parse_octet] returns *)
Definition parse_octet_ok (octet_str : string) : bool :=
  if decide (octet_str = "") then false
  else if negb (Str.all Str.isdigit octet_str) then false
  else if (3 <? Str.len octet_str)%nat then false
  else if negb (bool_decide (octet_str = "0")) && Str.startswith "0" octet_str
  then false
  else if (255 <? decimal octet_str)%N then false
  else true.

(** [IPv4Address(addr_str)] returns *)
Definition is_ipv4 (addr_str : string) : bool :=
  negb (Str.mem "/" addr_str)
  && negb (bool_decide (addr_str = ""))
  && (let octets := Str.split "." addr_str in
      bool_decide (length octets = 4%nat) && forallb parse_octet_ok octets).

(** [IPv6Address._parse_hextet] returns; [int("", 16)] raises *)
Definition parse_hextet_ok (hextet_str : string) : bool :=
  Str.all is_hex_digit hextet_str
  && (Str.len hextet_str <=? 4)%nat
  && negb (bool_decide (hextet_str = "")).

(** the indices [1 .. len(parts) - 2] whose part is empty, in order *)
Definition empty_inner_indices (parts : list string) : list nat :=
  filter (fun i => parts !! i = Some "")
         (seq 1 (length parts - 2)).

(** [IPv6Address._ip_int_from_string] returns *)
Definition ip_int_from_string_ok (ip_str : string) : bool :=
  if decide (ip_str = "") then false else
  let parts := Str.split ":" ip_str in
  if (length parts <? 3)%nat then false else
  let last_part := default "" (List.last (Some <$> parts) None) in
  let parts_opt :=
    if Str.mem "." last_part then
      if is_ipv4 last_part
      then Some (removelast parts ++ ["0"; "0"])   (* two hextets, [%x] *)
      else None
    else Some parts in
  match parts_opt with
  | None => false
  | Some parts =>
      if (9 <? length parts)%nat then false else
      let first_empty := bool_decide (parts !! O = Some "") in
      let last_empty :=
        bool_decide (parts !! (length parts - 1)%nat = Some "") in
      match empty_inner_indices parts with
      | _ :: _ :: _ => false
      | [skip_index] =>
          let parts_hi := skip_index in
          let parts_lo := (length parts - skip_index - 1)%nat in
          if first_empty && negb (parts_hi - 1 =? 0)%nat then false else
          let parts_hi := if first_empty then (parts_hi - 1)%nat else parts_hi in
          if last_empty && negb (parts_lo - 1 =? 0)%nat then false else
          let parts_lo := if last_empty then (parts_lo - 1)%nat else parts_lo in
          if (8 - (parts_hi + parts_lo) <? 1)%nat then false else
          forallb parse_hextet_ok (List.firstn parts_hi parts)
          && forallb parse_hextet_ok
               (List.skipn (length parts - parts_lo) parts)
      | [] =>
          if negb (length parts =? 8)%nat then false else
          if first_empty then false else
          if last_empty then false else
          forallb parse_hextet_ok parts
      end
  end.

(** [IPv6Address(addr_str)] returns *)
Definition is_ipv6 (addr_str : string) : bool :=
  if Str.mem "/" addr_str then false else
  let '(addr, sep, scope_id) := Str.partition "%" addr_str in
  if sep && (bool_decide (scope_id = "") || Str.mem "%" scope_id) then false
  else ip_int_from_string_ok addr.

Inductive version := IPv4 | IPv6.

(** [ipaddress.ip_address(address)] *)
Definition ip_address (address : string) : result version :=
  if is_ipv4 address then Ok IPv4
  else if is_ipv6 address then Ok IPv6
  else Raise ValueError.

End Ipaddress.

(** ** [urllib.parse] *)

Module Urllib.

Definition uses_relative : list string :=
  [""; "ftp"; "http"; "gopher"; "nntp"; "imap";
   "wais"; "file"; "https"; "shttp"; "mms";
   "prospero"; "rtsp"; "rtspu"; "sftp";
   "svn"; "svn+ssh"; "ws"; "wss"].

Definition uses_netloc : list string :=
  [""; "ftp"; "http"; "gopher"; "nntp"; "telnet";
   "imap"; "wais"; "file"; "mms"; "https"; "shttp";
   "snews"; "prospero"; "rtsp"; "rtspu"; "rsync";
   "svn"; "svn+ssh"; "sftp"; "nfs"; "git"; "git+ssh";
   "ws"; "wss"].

Definition uses_params : list string :=
  [""; "ftp"; "hdl"; "prospero"; "http"; "imap";
   "https"; "shttp"; "rtsp"; "rtspu"; "sip"; "sips";
   "mms"; "sftp"; "tel"].

(** [c in scheme_chars] *)
Definition scheme_char (c : ascii) : bool :=
  Str.isascii_alpha c || Str.isdigit c
  || Ascii.eqb c "+" || Ascii.eqb c "-" || Ascii.eqb c ".".

(** [c in _WHATWG_C0_CONTROL_OR_SPACE] *)
Definition c0_control_or_space (c : ascii) : bool :=
  (Str.code c <=? 32)%nat.

(** the loop over [_UNSAFE_URL_BYTES_TO_REMOVE = ['\t', '\r', '\n']] *)
Definition remove_unsafe (s : string) : string :=
  Str.remove "010" (Str.remove "013" (Str.remove "009" s)).

Record SplitResult := mkSplit {
  s_scheme : string;
  s_netloc : string;
  s_path : string;
  s_query : string;
  s_fragment : string
}.

Record ParseResult := mkParse {
  scheme : string;
  netloc : string;
  path : string;
  params : string;
  query : string;
  fragment : string
}.

(** [_splitnetloc(url, start)] *)
Definition _splitnetloc (url : string) (start : nat) : string * string :=
  let delim :=
    fold_left
      (fun delim c =>
         match Str.find_from c url start with
         | Some wdelim => Nat.min delim wdelim
         | None => delim
         end)
      ["/"; "?"; "#"]%char (Str.len url) in
  (Str.slice start delim url, Str.drop delim url).

(** the regular expression [\Av[a-fA-F0-9]+\..+\Z] of
    [_check_bracketed_host]; [.] matches any character but a newline *)
Definition ipvfuture_re (hostname : string) : bool :=
  match hostname with
  | String "v" rest =>
      let hex := Str.take
                   (default (Str.len rest) (Str.find "." rest)) rest in
      let tail := Str.drop (S (Str.len hex)) rest in
      negb (bool_decide (hex = "")) && Str.all Ipaddress.is_hex_digit hex
      && Str.mem "." rest
      && negb (bool_decide (tail = "")) && negb (Str.mem "010" tail)
  | _ => false
  end.

Definition _check_bracketed_host (hostname : string) : result unit :=
  if Str.startswith "v" hostname then
    if ipvfuture_re hostname then Ok tt else Raise ValueError
  else
    ip ← Ipaddress.ip_address hostname;
    match ip with
    | Ipaddress.IPv4 => Raise ValueError
    | Ipaddress.IPv6 => Ok tt
    end.

Definition _check_bracketed_netloc (netloc : string) : result unit :=
  let hostname_and_port := Str.rpartition_tail "@" netloc in
  let '(before_bracket, have_open_br, bracketed) :=
    Str.partition "[" hostname_and_port in
  if have_open_br then
    if negb (bool_decide (before_bracket = "")) then Raise ValueError else
    let '(hostname, _, port) := Str.partition "]" bracketed in
    if negb (bool_decide (port = "")) && negb (Str.startswith ":" port)
    then Raise ValueError
    else _check_bracketed_host hostname
  else
    let '(hostname, _, port) := Str.partition ":" hostname_and_port in
    _check_bracketed_host hostname.

(** the scheme test of [urlsplit]: [(scheme, rest)] when [url] opens with
    a scheme name and a colon *)
Definition split_scheme (url : string) : option (string * string) :=
  match Str.find ":" url, url with
  | Some i, String c0 _ =>
      if (0 <? i)%nat && Str.isascii_alpha c0
         && Str.all scheme_char (Str.take i url)
      then Some (Str.lower (Str.take i url), Str.drop (S i) url)
      else None
  | _, _ => None
  end.

(** the netloc test of [urlsplit]: what [urlsplit] raises on *)
Definition check_netloc_brackets (netloc : string) : result unit :=
  if (Str.mem "[" netloc && negb (Str.mem "]" netloc))
     || (Str.mem "]" netloc && negb (Str.mem "[" netloc))
  then Raise ValueError
  else if Str.mem "[" netloc && Str.mem "]" netloc
  then _check_bracketed_netloc netloc
  else Ok tt.

(** [urlsplit(url, scheme)], [allow_fragments] left at [True].
    [_checknetloc] returns on every netloc of code points below 256. *)
Definition urlsplit (url scheme : string) : result SplitResult :=
  let url := Str.lstrip c0_control_or_space url in
  let scheme := Str.strip c0_control_or_space scheme in
  let url := remove_unsafe url in
  let scheme := remove_unsafe scheme in
  let '(scheme, url) :=
    match split_scheme url with
    | Some (sch, rest) => (sch, rest)
    | None => (scheme, url)
    end in
  '(netloc, url) ←
    (if decide (Str.take 2 url = "//") then
       let '(netloc, url) := _splitnetloc url 2 in
       _ ← check_netloc_brackets netloc;
       Ok (netloc, url)
     else Ok ("", url));
  let '(url, fragment) :=
    if Str.mem "#" url then Str.split1 "#" url else (url, "") in
  let '(url, query) :=
    if Str.mem "?" url then Str.split1 "?" url else (url, "") in
  Ok (mkSplit scheme netloc url query fragment).

(** [_splitparams(url)] *)
Definition _splitparams (url : string) : string * string :=
  if Str.mem "/" url then
    match Str.find_from ";" url (default O (Str.rfind "/" url)) with
    | None => (url, "")
    | Some i => (Str.take i url, Str.drop (S i) url)
    end
  else
    match Str.find ";" url with
    | Some i => (Str.take i url, Str.drop (S i) url)
    | None => (Str.take (Str.len url - 1) url, url)   (* [i = -1] *)
    end.

(** [urlparse(url, scheme)] *)
Definition urlparse_with (url scheme : string) : result ParseResult :=
  r ← urlsplit url scheme;
  let '(url, params) :=
    if bool_decide (s_scheme r ∈ uses_params) && Str.mem ";" (s_path r)
    then _splitparams (s_path r)
    else (s_path r, "") in
  Ok (mkParse (s_scheme r) (s_netloc r) url params (s_query r) (s_fragment r)).

(** [urlparse(url)] *)
Definition urlparse (url : string) : result ParseResult :=
  urlparse_with url "".

(** [urlunsplit((scheme, netloc, url, query, fragment))] *)
Definition urlunsplit (scheme netloc url query fragment : string) : string :=
  let url :=
    if negb (bool_decide (netloc = ""))
       || (negb (bool_decide (scheme = ""))
           && bool_decide (scheme ∈ uses_netloc)
           && negb (bool_decide (Str.take 2 url = "//")))
    then
      let url :=
        if negb (bool_decide (url = ""))
           && negb (bool_decide (Str.take 1 url = "/"))
        then "/" +:+ url else url in
      "//" +:+ netloc +:+ url
    else url in
  let url := if negb (bool_decide (scheme = ""))
             then scheme +:+ ":" +:+ url else url in
  let url := if negb (bool_decide (query = ""))
             then url +:+ "?" +:+ query else url in
  let url := if negb (bool_decide (fragment = ""))
             then url +:+ "#" +:+ fragment else url in
  url.

(** [urlunparse(components)] *)
Definition urlunparse (p : ParseResult) : string :=
  let url := if negb (bool_decide (params p = ""))
             then path p +:+ ";" +:+ params p else path p in
  urlunsplit (scheme p) (netloc p) url (query p) (fragment p).

(** the loop of [urljoin] over [segments] *)
Fixpoint resolve_segments (segments resolved_path : list string)
  : list string :=
  match segments with
  | [] => resolved_path
  | seg :: segments' =>
      if decide (seg = "..") then
        resolve_segments segments' (removelast resolved_path)
      else if decide (seg = ".") then
        resolve_segments segments' resolved_path
      else resolve_segments segments' (resolved_path ++ [seg])
  end.

(** [segments[1:-1] = filter(None, segments[1:-1])] *)
Definition filter_inner (segments : list string) : list string :=
  match segments with
  | [] => []
  | [x] => [x]
  | x :: rest =>
      x :: filter (fun s => s ≠ "") (removelast rest)
        ++ [List.last rest ""]
  end.

(** [urljoin(base, url)] *)
Definition urljoin (base url : string) : result string :=
  if decide (base = "") then Ok url else
  if decide (url = "") then Ok base else
  b ← urlparse_with base "";
  u ← urlparse_with url (scheme b);
  if negb (bool_decide (scheme u = scheme b))
     || negb (bool_decide (scheme u ∈ uses_relative))
  then Ok url
  else if bool_decide (scheme u ∈ uses_netloc)
          && negb (bool_decide (netloc u = ""))
  then Ok (urlunparse u)
  else
    let netloc' :=
      if bool_decide (scheme u ∈ uses_netloc) then netloc b else netloc u in
    if bool_decide (path u = "") && bool_decide (params u = "") then
      let query' :=
        if bool_decide (query u = "") then query b else query u in
      Ok (urlunparse
            (mkParse (scheme u) netloc' (path b) (params b) query'
               (fragment u)))
    else
      let base_parts := Str.split "/" (path b) in
      let base_parts :=
        if negb (bool_decide (List.last base_parts "" = ""))
        then removelast base_parts else base_parts in
      let segments :=
        if decide (Str.take 1 (path u) = "/") then Str.split "/" (path u)
        else filter_inner (base_parts ++ Str.split "/" (path u)) in
      let resolved_path := resolve_segments segments [] in
      let resolved_path :=
        if bool_decide (List.last segments "" ∈ ["."; ".."])
        then resolved_path ++ [""] else resolved_path in
      let joined := Str.join "/" resolved_path in
      Ok (urlunparse
            (mkParse (scheme u) netloc'
               (if decide (joined = "") then "/" else joined)
               (params u) (query u) (fragment u))).

End Urllib.

(** ** [os.path.join] (posixpath) *)

Module Posixpath.

(** [os.path.join(a, *p)] *)
Definition join (a : string) (p : list string) : string :=
  fold_left
    (fun path b =>
       if Str.startswith "/" b then b
       else if bool_decide (path = "") || Str.endswith "/" path
       then path +:+ b
       else path +:+ "/" +:+ b)
    p a.

End Posixpath.

(** ** The collaborators of the crawler

    [requests], the file system, [BeautifulSoup], the regular-expression
    engine and the [rich] console are outside the repository.  The crawler
    is verified against every behaviour they may have: network, file system
    and console act on an abstract environment [env]; parsing is a function
    of the content. *)

Record Response := mkResponse {
  r_url : string;                    (* [response.url], after redirects *)
  status_code : Z;
  content_type_header : option string;  (* [headers.get("Content-Type")] *)
  content : string;                  (* [response.content] *)
  text : string                      (* [response.text] *)
}.

(** A parsed document.  [html.parser] gives a list value to the attributes
    [class], [rel], [rev], [headers], [accept-charset], [accesskey],
    [dropzone] only; those the crawler reads ([href], [src], [srcset]) are
    always [str], so that [isinstance(value, str)] holds wherever it is
    tested. *)
#[warning="-register-all"]
Inductive node : Type :=
| Tag (name : string) (attrs : gmap string string) (children : list node)
| NavigableString (s : string).

(** What [crawl] prints, one constructor for each [console.print] of the
    source, with the values its f-string interpolates.  The text is console
    markup: [console.print] raises [MarkupError] on a closing tag that
    matches no open tag, and the URLs, paths and exception texts are
    interpolated as they are. *)
Inductive message : Type :=
| StartingCrawl (url : string)
    (* l.108  f"Starting crawl of {url}" *)
| SavingFilesTo (output_dir : string)
    (* l.109  f"Saving files to: {output_dir.resolve()}" *)
| InitialUrlReturned (status_code : Z)
    (* l.116  f"[red bold]Error: Initial URL returned {status_code}[/]" *)
| SkippingMaxDepth (url : string)
    (* l.130  f"Skipping {url} (max depth reached)" *)
| Downloading (url : string)
    (* l.138  f"Downloading: {url}" *)
| ErrorDownloading (url : string) (e : exn)
    (* l.146  f"[red]Error downloading {url}: {e}[/]" *)
| SkippingUnsupported
    (* l.152  "[red]Skipping {url} (not a supported resource type)...[/]",
       not an f-string *)
| Saved (saved_path : string)
    (* l.159  f"[green]Saved: {saved_path}[/]" *)
| HtmlParsingError (e : exn)
    (* l.170  f"[red]HTML parsing error: {e}[/]" *)
| CssParsingError (e : exn)
    (* l.175  f"[red]CSS parsing error: {e}[/]" *)
| CriticalError (e : exn).
    (* l.187  f"[red bold]Critical error: {e}[/]" *)

Class World := {
  env : Type;
  (** [console.print(text)] *)
  console_print : message -> env -> result unit * env;
  (** [requests.get(url, headers={"User-Agent": "Mozilla/5.0"},
      allow_redirects=True)] *)
  requests_get : string -> env -> result Response * env;
  (** [os.makedirs(path, exist_ok=True)], [Path.mkdir(parents=True,
      exist_ok=True)] *)
  os_makedirs : string -> env -> result unit * env;
  (** [with open(path, "wb") as f: f.write(data)] *)
  open_write : string -> string -> env -> result unit * env;
  (** [BeautifulSoup(content, "html.parser")]: the top-level nodes *)
  BeautifulSoup : string -> result (list node);
  (** [re.findall(r'url\(\s*[\'"]?(.*?)[\'"]?\s*\)', content,
      re.IGNORECASE)] *)
  re_findall_url : string -> list string
}.

(** ** [main.py] *)

Import Urllib.

(** [[f(x) for x in l]] where [f] may raise *)
Fixpoint map_result {A B} (f : A -> result B) (l : list A) : result (list B) :=
  match l with
  | [] => Ok []
  | x :: l' => y ← f x; ys ← map_result f l'; Ok (y :: ys)
  end.

(** [for x in l: acc = f(acc, x)] where [f] may raise *)
Fixpoint fold_result {A B} (f : B -> A -> result B) (l : list A) (acc : B)
  : result B :=
  match l with
  | [] => Ok acc
  | x :: l' => acc' ← f acc x; fold_result f l' acc'
  end.

Definition is_valid (url : string) : result bool :=
  parsed ← urlparse url;
  Ok (bool_decide (scheme parsed ∈ ["http"; "https"])).

Definition should_download (url base_domain : string) : result bool :=
  parsed ← urlparse url;
  Ok (bool_decide (netloc parsed = base_domain)).

(** the path computation of [save_resource]:
    [(dir_structure, file_path)] *)
Definition save_paths (output_dir domain url : string)
  : result (string * string) :=
  parsed ← urlparse url;
  let path := path parsed in
  let path :=
    if bool_decide (path = "") || Str.endswith "/" path
    then path +:+ "index.html" else path in
  let path_parts := Str.split "/" (Str.strip (Ascii.eqb "/") path) in
  let dir_structure :=
    Posixpath.join output_dir (domain :: removelast path_parts) in
  let filename :=
    match path_parts with
    | [] => "index.html"
    | _ :: _ => List.last path_parts ""
    end in
  Ok (dir_structure, Posixpath.join dir_structure [filename]).

Definition save_resource `{W : World} (response : Response)
    (output_dir domain url : string) (w : env) : result string * env :=
  match save_paths output_dir domain url with
  | Raise e => (Raise e, w)
  | Ok (dir_structure, file_path) =>
      match os_makedirs dir_structure w with
      | (Raise e, w) => (Raise e, w)
      | (Ok _, w) =>
          match open_write file_path (content response) w with
          | (Raise e, w) => (Raise e, w)
          | (Ok _, w) => (Ok file_path, w)
          end
      end
  end.

(** the dictionary [tags] of [extract_html_links], in insertion order *)
Inductive attr_spec := One (attr : string) | Many (attrs : list string).

Definition tags : list (string * attr_spec) :=
  [("a", One "href");
   ("link", One "href");
   ("img", Many ["src"; "srcset"]);
   ("script", One "src");
   ("source", Many ["src"; "srcset"])].

(** the elements of a document, in document order *)
Fixpoint descendants (n : node) : list node :=
  match n with
  | Tag _ _ children => n :: flat_map descendants children
  | NavigableString _ => [n]
  end.

Definition has_name (tag : string) (n : node) : bool :=
  match n with
  | Tag name _ _ => bool_decide (name = tag)
  | NavigableString _ => false
  end.

(** [soup.find_all(tag)] *)
Definition find_all (soup : list node) (tag : string) : list node :=
  List.filter (has_name tag) (flat_map descendants soup).

(** [element.get(attr)] *)
Definition get (element : node) (attr : string) : option string :=
  match element with
  | Tag _ attrs _ => attrs !! attr
  | NavigableString _ => None
  end.

(** [v.split(maxsplit=1)[0]] *)
Definition first_token (v : string) : result string :=
  match Str.split_ws1 v with
  | t :: _ => Ok t
  | [] => Raise IndexError
  end.

(** [[v.split(maxsplit=1)[0] for v in value.split(",")]] *)
Definition candidates (value : string) : result (list string) :=
  map_result first_token (Str.split "," value).

(** the body of [for element in soup.find_all(tag)] *)
Definition element_links (attrs : attr_spec) (links : list string)
    (element : node) : result (list string) :=
  match attrs with
  | Many attrs =>
      fold_result
        (fun links attr =>
           match get element attr with
           | Some value =>
               if bool_decide (value = "") then Ok links
               else found ← candidates value; Ok (links ++ found)
           | None => Ok links
           end)
        attrs links
  | One attr =>
      match get element attr with
      | Some value =>
          if bool_decide (value = "") then Ok links else Ok (links ++ [value])
      | None => Ok links
      end
  end.

(** the raw links of a parsed document, before [urljoin] *)
Definition raw_links (soup : list node) : result (list string) :=
  fold_result
    (fun links '(tag, attrs) =>
       fold_result (element_links attrs) (find_all soup tag) links)
    tags [].

Definition extract_html_links `{W : World} (content base_url : string)
  : result (list string) :=
  soup ← BeautifulSoup content;
  links ← raw_links soup;
  map_result (urljoin base_url) links.

Definition extract_css_links `{W : World} (content base_url : string)
  : result (list string) :=
  map_result (urljoin base_url) (re_findall_url content).

(** *** [crawl]

    The state of the loop is the frontier [queue], the set [visited] and
    the environment; [log] is a ghost record of the requests the loop
    issued, each with the depth of the frontier entry it was issued for. *)

Record state `{W : World} := mkState {
  visited : gset string;
  queue : list (string * Z);
  log : list (string * Z);
  world : env
}.
Arguments mkState {_} _ _ _ _.

Definition with_world `{W : World} (st : state) (w : env) : state :=
  mkState (visited st) (queue st) (log st) w.

(** what one pass of the [while] loop leaves: the next state, or an
    exception that reaches the outer [except Exception] *)
Inductive pass `{W : World} :=
| Next (st : state)
| Critical (e : exn) (st : state).
Arguments Next {_} _.
Arguments Critical {_} _ _.

(** how [crawl] ends: the frontier drained (exit code 0), an exit with a
    code, or the fuel of the model used up with work left *)
Inductive outcome `{W : World} :=
| Drained (st : state)
| Exit (code : Z) (st : state)
| Unfinished (st : state).
Arguments Drained {_} _.
Arguments Exit {_} _ _.
Arguments Unfinished {_} _.

(** [if verbose: console.print(text)] *)
Definition print_if_verbose `{W : World} (verbose : bool) (msg : message)
    (w : env) : result unit * env :=
  if verbose then console_print msg w else (Ok tt, w).

(** [console.print(text); continue], the pass ends after the print: with
    the next state, or with the exception of the print *)
Definition after_print `{W : World} (printed : result unit * env)
    (st : state) : pass :=
  match printed with
  | (Ok _, w) => Next (with_world st w)
  | (Raise e, w) => Critical e (with_world st w)
  end.

(** lines 186-188, the handler of [crawl]:
    [console.print(f"[red bold]Critical error: {e}[/]")] and
    [raise typer.Exit(code=1)].  When the print itself raises, the
    exception leaves the program, whose exit code is 1 as well. *)
Definition critical `{W : World} (e : exn) (st : state) : outcome :=
  Exit 1 (with_world st (console_print (CriticalError e) (world st)).2).

(** [response.raise_for_status()] raises *)
Definition is_error_status (code : Z) : bool :=
  ((400 <=? code) && (code <? 600))%Z.

(** lines 141-144, the body of the inner [try]: [requests.get], then
    [response.raise_for_status()] *)
Definition fetch `{W : World} (url : string) (w : env)
  : result Response * env :=
  match requests_get url w with
  | (Raise e, w) => (Raise e, w)
  | (Ok response, w) =>
      if is_error_status (status_code response) then (Raise HTTPError, w)
      else (Ok response, w)
  end.

(** [response.headers.get("Content-Type", "").split(";")[0].strip()] *)
Definition content_type_of (response : Response) : string :=
  Str.strip_ws
    (List.hd "" (Str.split ";" (default "" (content_type_header response)))).

(** [parsed._replace(query="", fragment="")] then [urlunparse] *)
Definition clean_link (parsed : ParseResult) : string :=
  urlunparse
    (mkParse (scheme parsed) (netloc parsed) (path parsed) (params parsed)
       "" "").

(** lines 178-180: the normalization of one extracted link *)
Definition normalize (link : string) : result string :=
  parsed ← urlparse link;
  Ok (clean_link parsed).

(** lines 164-175: the value of [links] when the loop over it starts, by
    content type; an extractor that raises leaves the empty list *)
Definition links_of `{W : World} (response : Response) (final_url : string)
  : list string :=
  let content_type := content_type_of response in
  if decide (content_type = "text/html") then
    try_except (extract_html_links (content response) final_url) []
  else if decide (content_type = "text/css") then
    try_except (extract_css_links (text response) final_url) []
  else [].

(** lines 164-175: what the [except] branches print, when an extractor
    raised *)
Definition parse_failure `{W : World} (response : Response)
    (final_url : string) : option message :=
  let content_type := content_type_of response in
  if decide (content_type = "text/html") then
    match extract_html_links (content response) final_url with
    | Ok _ => None
    | Raise e => Some (HtmlParsingError e)
    end
  else if decide (content_type = "text/css") then
    match extract_css_links (text response) final_url with
    | Ok _ => None
    | Raise e => Some (CssParsingError e)
    end
  else None.

Definition report `{W : World} (failure : option message) (w : env)
  : result unit * env :=
  match failure with
  | Some msg => console_print msg w
  | None => (Ok tt, w)
  end.

Section Crawl.
Context `{W : World}.
Variable output_dir : string.
Variable base_domain : string.
Variable max_depth : option Z.
Variable verbose : bool.

(** the body of [for link in links] *)
Definition enqueue_link (depth : Z) (st : state) (link : string)
  : result state :=
  clean_url ← normalize link;
  valid ← is_valid clean_url;
  if (valid : bool) then
    in_scope ← should_download clean_url base_domain;
    if (in_scope : bool) && negb (bool_decide (clean_url ∈ visited st)) then
      Ok (mkState (visited st) (queue st ++ [(clean_url, (depth + 1)%Z)])
            (log st) (world st))
    else Ok st
  else Ok st.

(** [for link in links: ...]: when the body raises, what was put on the
    queue for the links before stays there *)
Fixpoint enqueue_links (depth : Z) (links : list string) (st : state)
  : pass :=
  match links with
  | [] => Next st
  | link :: links' =>
      match enqueue_link depth st link with
      | Ok st' => enqueue_links depth links' st'
      | Raise e => Critical e st
      end
  end.

(** one pass of [while not queue.empty()], the entry [(url, depth)]
    already taken from the queue *)
Definition crawl_pass (url : string) (depth : Z) (st : state) : pass :=
  if match max_depth with
     | Some d => (d <? depth)%Z
     | None => false
     end
  then
    after_print (print_if_verbose verbose (SkippingMaxDepth url) (world st))
      st
  else if decide (url ∈ visited st) then Next st
  else
    let st := mkState (visited st ∪ {[url]}) (queue st) (log st) (world st) in
    match print_if_verbose verbose (Downloading url) (world st) with
    | (Raise e, w) => Critical e (with_world st w)
    | (Ok _, w) =>
        let st :=
          mkState (visited st) (queue st) (log st ++ [(url, depth)]) w in
        match fetch url (world st) with
        | (Raise e, w) =>
            after_print (console_print (ErrorDownloading url e) w) st
        | (Ok response, w) =>
            let final_url := r_url response in
            match should_download final_url base_domain with
            | Raise e => Critical e (with_world st w)
            | Ok false =>
                after_print (print_if_verbose verbose SkippingUnsupported w)
                  st
            | Ok true =>
                match save_resource response output_dir base_domain
                        final_url w with
                | (Raise e, w) => Critical e (with_world st w)
                | (Ok saved_path, w) =>
                    match print_if_verbose verbose (Saved saved_path) w with
                    | (Raise e, w) => Critical e (with_world st w)
                    | (Ok _, w) =>
                        match report (parse_failure response final_url) w
                        with
                        | (Raise e, w) => Critical e (with_world st w)
                        | (Ok _, w) =>
                            enqueue_links depth
                              (links_of response final_url)
                              (with_world st w)
                        end
                    end
                end
            end
        end
    end.

(** [while not queue.empty(): ...] *)
Fixpoint crawl_loop (fuel : nat) (st : state) : outcome :=
  match queue st with
  | [] => Drained st
  | (url, depth) :: rest =>
      match fuel with
      | O => Unfinished st
      | S fuel' =>
          match crawl_pass url depth
                  (mkState (visited st) rest (log st) (world st)) with
          | Next st' => crawl_loop fuel' st'
          | Critical e st' => critical e st'
          end
      end
  end.

End Crawl.

(** lines 107-109: [if verbose:] the two prints that open the run *)
Definition announce `{W : World} (verbose : bool) (url output_dir : string)
    (w : env) : result unit * env :=
  match print_if_verbose verbose (StartingCrawl url) w with
  | (Raise e, w) => (Raise e, w)
  | (Ok _, w) => print_if_verbose verbose (SavingFilesTo output_dir) w
  end.

(** lines 115-117: a first response that is not a 200 is printed, then
    [raise typer.Exit(code=1)], which the handler of [crawl] catches as it
    catches the exception of the print *)
Definition initial_error `{W : World} (status_code : Z) (w : env)
  : exn * env :=
  match console_print (InitialUrlReturned status_code) w with
  | (Ok _, w) => (TyperExit, w)
  | (Raise e, w) => (e, w)
  end.

(** [crawl(url, output_dir, max_depth, verbose)]: the outcome, and the URL
    of the request that resolves the initial redirects, when it was made *)
Definition crawl `{W : World} (url output_dir : string) (max_depth : option Z)
    (verbose : bool) (fuel : nat) (w : env) : option string * outcome :=
  let st0 := mkState ∅ [] [] in
  match os_makedirs output_dir w with
  | (Raise e, w) => (None, critical e (st0 w))
  | (Ok _, w) =>
      let max_depth :=
        match max_depth with
        | Some d => if (d <? 0)%Z then None else Some d
        | None => None
        end in
      match announce verbose url output_dir w with
      | (Raise e, w) => (None, critical e (st0 w))
      | (Ok _, w) =>
          match requests_get url w with
          | (Raise e, w) => (Some url, critical e (st0 w))
          | (Ok response, w) =>
              if negb (status_code response =? 200)%Z
              then
                let '(e, w) := initial_error (status_code response) w in
                (Some url, critical e (st0 w))
              else
                let base_url := r_url response in
                match urlparse base_url with
                | Raise e => (Some url, critical e (st0 w))
                | Ok parsed =>
                    let base_domain := netloc parsed in
                    (Some url,
                     crawl_loop output_dir base_domain max_depth verbose
                       fuel (mkState ∅ [(base_url, 0%Z)] [] w))
                end
          end
      end
  end.

(** every request of a run, in order: the initial one, then the loop's *)
Definition requests_of `{W : World} (run : option string * outcome)
  : list string :=
  let st := match run.2 with
            | Drained st | Exit _ st | Unfinished st => st
            end in
  match run.1 with
  | Some url => url :: (log st).*1
  | None => (log st).*1
  end.

(** ** Links in document order

    The order the specification asks of the HTML extractor: one pass over
    the elements of the document, each element contributing the links of
    its own tag kind. *)





(** the URL token of a [srcset] candidate: the text before the first
    white space, leading white space skipped *)
Definition url_token (v : string) : string :=
  (Str.token (Str.lstrip Str.isspace v)).1.

(** the URL tokens of the comma-separated candidates of a value *)
Definition url_tokens (value : string) : list string :=
  url_token <$> Str.split "," value.

(** no [img] or [source] element has an empty or blank candidate in a
    [src] or [srcset] value that is not empty *)
Definition no_blank_candidate (soup : list node) : Prop :=
  forall tag attr element value v,
    tag ∈ ["img"; "source"] -> attr ∈ ["src"; "srcset"] ->
    element ∈ find_all soup tag ->
    get element attr = Some value -> value ≠ "" ->
    v ∈ Str.split "," value -> Str.all Str.isspace v = false.

(** the links an element stands for: under one attribute name its value,
    whole; under a list of names the URL tokens of each value, in the
    order of the names; an absent or empty value stands for none *)
Definition links_of_element (attrs : attr_spec) (element : node)
  : list string :=
  match attrs with
  | One attr =>
      match get element attr with
      | Some value => if bool_decide (value = "") then [] else [value]
      | None => []
      end
  | Many attrs =>
      flat_map
        (fun attr =>
           match get element attr with
           | Some value =>
               if bool_decide (value = "") then [] else url_tokens value
           | None => []
           end)
        attrs
  end.

(** the links a document stands for: kind by kind in the order of [tags],
    and for each kind element by element in the order of the document *)
Definition document_links (soup : list node) : list string :=
  flat_map
    (fun '(tag, attrs) =>
       flat_map (links_of_element attrs) (find_all soup tag))
    tags.

(** ** A small site to run the crawler on

    Pages are served by exact URL, documents and style sheets are parsed by
    table lookup, and the file system refuses the paths in [denied]; the
    environment is the list of files written, latest first.  The console
    of [world_of] prints every text, that of [console_world] raises on
    the texts listed. *)

Module Fixture.

Record site := mkSite {
  pages : list (string * Response);
  documents : list (string * list node);
  stylesheets : list (string * list string);
  denied : list string
}.

Definition assoc {A} (k : string) (l : list (string * A)) : option A :=
  snd <$> List.find (fun kv => bool_decide (kv.1 = k)) l.

(** the URL or the path that a text interpolates *)
Definition interpolated (msg : message) : option string :=
  match msg with
  | StartingCrawl u | SavingFilesTo u | SkippingMaxDepth u | Downloading u
  | ErrorDownloading u _ | Saved u => Some u
  | InitialUrlReturned _ | SkippingUnsupported | HtmlParsingError _
  | CssParsingError _ | CriticalError _ => None
  end.

(** a site behind a console that raises [MarkupError] on the texts that
    interpolate one of [rejected]: URLs with a closing tag that matches no
    open tag, such as [https://example.com/a[/b]] *)
Definition console_world (s : site) (rejected : list string) : World := {|
  env := list (string * string);
  console_print msg w :=
    (match interpolated msg with
     | Some u => if bool_decide (u ∈ rejected) then Raise MarkupError
                 else Ok tt
     | None => Ok tt
     end, w);
  requests_get url w :=
    (match assoc url (pages s) with
     | Some r => Ok r
     | None => Raise RequestException
     end, w);
  os_makedirs path w :=
    (if bool_decide (path ∈ denied s) then Raise OSError else Ok tt, w);
  open_write path data w :=
    if bool_decide (path ∈ denied s) then (Raise OSError, w)
    else (Ok tt, (path, data) :: w);
  BeautifulSoup content := Ok (default [] (assoc content (documents s)));
  re_findall_url content := default [] (assoc content (stylesheets s))
|}.

Definition world_of (s : site) : World := console_world s [].

(** a run of the crawler on a site, from an empty disk, not verbose *)
Definition crawl_site (s : site) (url output_dir : string)
    (max_depth : option Z) (fuel : nat) : option string * outcome :=
  crawl (W := world_of s) url output_dir max_depth false fuel
    ([] : list (string * string)).

Definition html (url body : string) : Response :=
  mkResponse url 200 (Some "text/html; charset=utf-8") body body.

(** [<img srcset="a.png 1x, b.png 2x">] *)
Definition img_srcset : list node :=
  [Tag "img" {[ "srcset" := "a.png 1x, b.png 2x" ]} []].


(** [<a href="/a">a</a><a href="/b?x=1#top">b</a>] *)
Definition two_links : list node :=
  [Tag "a" {[ "href" := "/a" ]} [NavigableString "a"];
   Tag "a" {[ "href" := "/b?x=1#top" ]} [NavigableString "b"]].

Definition three_pages : list (string * Response) :=
  [("https://example.com/", html "https://example.com/" "home");
   ("https://example.com/a", html "https://example.com/a" "a");
   ("https://example.com/b", html "https://example.com/b" "b")].

(** a home page with two links, no redirect *)
Definition small_site : site :=
  mkSite three_pages [("home", two_links)] [] [].

(** the same site on a file system that refuses the file of [/a] *)
Definition read_only : site :=
  mkSite three_pages [("home", two_links)] [] ["/out/example.com/a"].

(** [<a href="/a[/b]">a</a><a href="/b">b</a>]: the first URL reads as
    console markup with a closing tag *)
Definition markup_links : list node :=
  [Tag "a" {[ "href" := "/a[/b]" ]} [NavigableString "a"];
   Tag "a" {[ "href" := "/b" ]} [NavigableString "b"]].

Definition markup_site : site :=
  mkSite three_pages [("home", markup_links)] [] [].

(** the console raises on the texts that interpolate that URL *)
Definition markup_world : World :=
  console_world markup_site ["https://example.com/a[/b]"].

(** a start URL with a query string *)
Definition search_page : site :=
  mkSite
    [("https://example.com/?q=1", html "https://example.com/?q=1" "home")]
    [("home", two_links)] [] [].

(** [<a href="p.html">p</a><img srcset="a.png 1x,">] *)
Definition trailing_comma : list node :=
  [Tag "a" {[ "href" := "p.html" ]} [NavigableString "p"];
   Tag "img" {[ "srcset" := "a.png 1x," ]} []].

Definition trailing_comma_page : site :=
  mkSite [] [("page", trailing_comma)] [] [].

Definition srcset_page : site :=
  mkSite [] [("page", img_srcset)] [] [].

(** [<a title="more" href="a b,c.html">more</a>
     <picture><source srcset="a.png 1x, b.png 2x">
     <img alt="" src="c.png" srcset="d.png 1x, e.png 2x, f.png 3x">
     </picture>] *)
Definition picture : list node :=
  [Tag "a" {[ "title" := "more"; "href" := "a b,c.html" ]}
     [NavigableString "more"];
   Tag "picture" ∅
     [Tag "source" {[ "srcset" := "a.png 1x, b.png 2x" ]} [];
      Tag "img"
        {[ "alt" := ""; "src" := "c.png";
           "srcset" := "d.png 1x, e.png 2x, f.png 3x" ]} []]].



End Fixture.

(** ** Predicates of the statements *)

Definition state_of_pass `{W : World} (p : pass) : state :=
  match p with
  | Next st | Critical _ st => st
  end.

Definition final_state `{W : World} (o : outcome) : state :=
  match o with
  | Drained st | Exit _ st | Unfinished st => st
  end.

(** what the engine checked of a URL before it enqueued it *)
Definition enqueued_by `{W : World} (base_domain : string) (st : state)
    (u : string) : Prop :=
  exists link,
    normalize link = Ok u
    /\ is_valid u = Ok true
    /\ should_download u base_domain = Ok true
    /\ u ∉ visited st.

(** the three ways a pass goes: the entry is skipped, and frontier,
    visited set and requests stay as they are; or its URL is marked
    visited and the print before the request raises; or its URL is
    requested, once, and links may be enqueued behind the queue *)
Inductive pass_kind `{W : World} (base_domain : string)
    (max_depth : option Z) (url : string) (depth : Z) (st st' : state)
  : Prop :=
| Skipped :
    visited st' = visited st -> queue st' = queue st -> log st' = log st ->
    (exists d, max_depth = Some d /\ (d < depth)%Z) \/ url ∈ visited st ->
    pass_kind base_domain max_depth url depth st st'
| Announced :
    (forall d, max_depth = Some d -> (depth <= d)%Z) ->
    url ∉ visited st ->
    visited st' = visited st ∪ {[url]} ->
    queue st' = queue st -> log st' = log st ->
    pass_kind base_domain max_depth url depth st st'
| Requested (new : list (string * Z)) :
    (forall d, max_depth = Some d -> (depth <= d)%Z) ->
    url ∉ visited st ->
    visited st' = visited st ∪ {[url]} ->
    log st' = log st ++ [(url, depth)] ->
    queue st' = queue st ++ new ->
    Forall
      (fun e =>
         e.2 = (depth + 1)%Z
         /\ enqueued_by base_domain
              (mkState (visited st ∪ {[url]}) [] [] (world st)) e.1)
      new ->
    pass_kind base_domain max_depth url depth st st'.

Definition log_distinct `{W : World} (st : state) : Prop :=
  NoDup (log st).*1 /\ forall u, u ∈ (log st).*1 -> u ∈ visited st.

Definition log_within `{W : World} (d : Z) (st : state) : Prop :=
  forall u k, (u, k) ∈ log st -> (k <= d)%Z.

(** a segment that a [split("/")] may yield and that is not empty *)
Definition plain_segment (s : string) : Prop :=
  s ≠ "" /\ Str.mem "/" s = false.

(** the path that [save_resource] splits: the path of the URL, with
    [index.html] for a directory *)
Definition indexed_path (parsed : ParseResult) : string :=
  if bool_decide (path parsed = "") || Str.endswith "/" (path parsed)
  then path parsed +:+ "index.html" else path parsed.

Definition path_segments (parsed : ParseResult) : list string :=
  Str.split "/" (Str.strip (Ascii.eqb "/") (indexed_path parsed)).

(** one of the delimiters [/?#] that end a netloc *)
Definition is_delim (c : ascii) : bool :=
  Ascii.eqb "/" c || Ascii.eqb "?" c || Ascii.eqb "#" c.

(** the index of the first delimiter, the length when there is none *)
Fixpoint first_delim (s : string) : nat :=
  match s with
  | EmptyString => O
  | String c s' => if is_delim c then O else S (first_delim s')
  end.

(** where a netloc may stop: at the end, or before a delimiter *)
Definition at_delim (rest : string) : Prop :=
  rest = "" \/ exists c r, rest = String c r /\ is_delim c = true.

Definition opt_min (d : nat) (o : option nat) : nat :=
  match o with
  | Some w => Nat.min d w
  | None => d
  end.

(** a scheme name as [urlsplit] accepts it *)
Definition good_scheme (sch : string) : Prop :=
  exists c rest,
    sch = String c rest /\ Str.isascii_alpha c = true
    /\ Str.all scheme_char sch = true.

(** free of the characters [urlsplit] removes *)
Definition no_unsafe (s : string) : Prop :=
  Str.mem "009" s = false /\ Str.mem "013" s = false
  /\ Str.mem "010" s = false.

(** [a] has no character that [s] lacks: so it is for the pieces cut out
    of [s] *)
Definition within (a s : string) : Prop :=
  forall c, Str.mem c s = false -> Str.mem c a = false.

(** the cut of [urlsplit] after the netloc: path, query, fragment *)
Definition split_tail (url : string) : string * string * string :=
  let '(url, fragment) :=
    if Str.mem "#" url then Str.split1 "#" url else (url, "") in
  let '(url, query) :=
    if Str.mem "?" url then Str.split1 "?" url else (url, "") in
  (url, query, fragment).

Definition no_query_fragment (u : string) : Prop :=
  Str.mem "?" u = false /\ Str.mem "#" u = false
  /\ exists p, urlparse u = Ok p /\ query p = "" /\ fragment p = "".

(** entries have a depth of 0 at least, and those deeper than 0 are clean,
    in the frontier and among the requests issued *)
Definition frontier_clean `{W : World} (st : state) : Prop :=
  forall u k, (u, k) ∈ queue st ++ log st ->
              (0 <= k)%Z /\ ((1 <= k)%Z -> no_query_fragment u).

(** the scheme and its colon, as [urlunsplit] writes them *)
Definition scheme_prefix (sch : string) : string :=
  if negb (bool_decide (sch = "")) then sch +:+ ":" else "".

Definition scheme_or_none (sch : string) : Prop :=
  sch = "" \/ good_scheme sch.

(** ** Predicates of the further properties *)

From stdpp Require Import sorting.

(** [u] is a URL of the site: an http or https URL whose netloc is the
    site domain *)
Definition in_site (base_domain u : string) : Prop :=
  exists p,
    urlparse u = Ok p
    /\ scheme p ∈ ["http"; "https"] /\ netloc p = base_domain.

(** the depths of the requests issued, then those of the entries that
    wait, in the order of the run *)
Definition depths `{W : World} (st : state) : list Z :=
  (log st).*2 ++ (queue st).*2.

(** a breadth-first frontier: depths never decrease along the run, and the
    entries that wait are at most one level apart *)
Definition breadth_first `{W : World} (st : state) : Prop :=
  StronglySorted Z.le (depths st)
  /\ forall k k', k ∈ (queue st).*2 -> k' ∈ (queue st).*2 -> (k' <= k + 1)%Z.

(** the depth limit [crawl] runs with: a negative [--max-depth] is no
    limit *)
Definition effective_depth (max_depth : option Z) : option Z :=
  match max_depth with
  | Some d => if (d <? 0)%Z then None else Some d
  | None => None
  end.

(** the state [crawl] enters its loop with *)
Definition initial_state `{W : World} (base_url : string) (w : env) : state :=
  mkState ∅ [(base_url, 0%Z)] [] w.

(** entries deeper than 0 satisfy [Q], in the frontier and among the
    requests issued *)
Definition frontier_all `{W : World} (Q : string -> Prop) (st : state)
  : Prop :=
  forall u k, (u, k) ∈ queue st ++ log st ->
              (0 <= k)%Z /\ ((1 <= k)%Z -> Q u).

(** more sites to run the crawler on *)
Module Sites.

(** [<a href="ok.html">ok</a><a href="http://[bad">bad</a>]: the second
    link does not parse *)
Definition bad_href : list node :=
  [Tag "a" {[ "href" := "ok.html" ]} [NavigableString "ok"];
   Tag "a" {[ "href" := "http://[bad" ]} [NavigableString "bad"]].

Definition bad_href_page : Fixture.site :=
  Fixture.mkSite [] [("page", bad_href)] [] [].

(** [<a href="/a">a</a><a href="ftp:////[x/y">x</a>]: the second link
    parses, its normal form does not *)
Definition odd_link : list node :=
  [Tag "a" {[ "href" := "/a" ]} [NavigableString "a"];
   Tag "a" {[ "href" := "ftp:////[x/y" ]} [NavigableString "x"]].

Definition odd_link_site : Fixture.site :=
  Fixture.mkSite Fixture.three_pages [("home", odd_link)] [] [].

End Sites.

(** entries at depth 0 are the start entry, and no entry is above it *)
Definition rooted `{W : World} (base_url : string) (st : state) : Prop :=
  forall u k, (u, k) ∈ queue st ++ log st ->
              (0 <= k)%Z /\ (k = 0%Z -> u = base_url).

(** the segments of the saved path that are not empty *)
Definition named_segments (parsed : ParseResult) : list string :=
  filter (fun s => s ≠ "") (path_segments parsed).

(** [s] neither starts nor ends with white space *)
Definition trimmed (s : string) : bool :=
  match s with
  | EmptyString => true
  | String c _ => negb (Str.isspace c)
  end
  && match Str.last s with
     | Some c => negb (Str.isspace c)
     | None => true
     end.

(** the loop has ended: the queue was drained or the run was aborted *)
Definition finished `{W : World} (o : outcome) : bool :=
  match o with
  | Unfinished _ => false
  | Drained _ | Exit _ _ => true
  end.

(** the loop ends from [st]: some number of passes is enough *)
Definition halts `{W : World} (output_dir base_domain : string)
    (max_depth : option Z) (verbose : bool) (st : state) : Prop :=
  exists fuel,
    finished (crawl_loop output_dir base_domain max_depth verbose fuel st)
    = true.

(** * Theorems *)

Example split_ws1_python : Str.split_ws1 " b  c d " = ["b"; "c d "].
Proof. reflexivity. Qed.

Example split_trailing_comma : Str.split "," "a.png 1x," = ["a.png 1x"; ""].
Proof. reflexivity. Qed.

#[local] Arguments Ascii.eqb : simpl never.

(** ** Loops that may raise *)

Section FoldResult.
Context {A B : Type}.


(** a loop whose body raises for one of its elements, whatever the
    accumulator, raises; when the body raises nothing but [E], so does
    the loop *)
Lemma fold_result_raises (f : B -> A -> result B) (E : exn) (l : list A)
    (x : A) :
  (forall acc y e, f acc y = Raise e -> e = E) ->
  x ∈ l ->
  (forall acc, exists e, f acc x = Raise e) ->
  forall acc, fold_result f l acc = Raise E.
Proof.
  intros Honly Hin Hx. induction l as [|y l IH]; intros acc.
  - by apply elem_of_nil in Hin.
  - simpl. destruct (f acc y) as [acc'|e] eqn:Hy; simpl.
    + apply elem_of_cons in Hin as [->|Hin].
      * destruct (Hx acc) as [e He]. congruence.
      * by apply IH.
    + by rewrite (Honly _ _ _ Hy).
Qed.

Lemma fold_result_only (f : B -> A -> result B) (E : exn) (l : list A) :
  (forall acc y e, f acc y = Raise e -> e = E) ->
  forall acc e, fold_result f l acc = Raise e -> e = E.
Proof.
  intros Honly. induction l as [|y l IH]; intros acc e; simpl; [done|].
  destruct (f acc y) as [acc'|e'] eqn:Hy; simpl.
  - apply IH.
  - intros [= <-]. eauto.
Qed.


End FoldResult.

Section MapResult.
Context {A B : Type}.

Lemma map_result_raises (f : A -> result B) (E : exn) (l : list A) (x : A) :
  (forall y e, f y = Raise e -> e = E) ->
  x ∈ l -> (exists e, f x = Raise e) -> map_result f l = Raise E.
Proof.
  intros Honly Hin [e Hx]. induction l as [|y l IH].
  - by apply elem_of_nil in Hin.
  - simpl. destruct (f y) as [b|e'] eqn:Hy; simpl.
    + apply elem_of_cons in Hin as [->|Hin]; [congruence|].
      by rewrite IH.
    + by rewrite (Honly _ _ Hy).
Qed.

Lemma map_result_only (f : A -> result B) (E : exn) (l : list A) :
  (forall y e, f y = Raise e -> e = E) ->
  forall e, map_result f l = Raise e -> e = E.
Proof.
  intros Honly. induction l as [|y l IH]; intros e; simpl; [done|].
  destruct (f y) as [b|e'] eqn:Hy; simpl.
  - destruct (map_result f l); simpl; [done|]. intros [= <-]. by apply IH.
  - intros [= <-]. eauto.
Qed.

Lemma map_result_total (f : A -> result B) (g : A -> B) (l : list A) :
  (forall x, x ∈ l -> f x = Ok (g x)) -> map_result f l = Ok (g <$> l).
Proof.
  induction l as [|x l IH]; intros Hf; simpl; [done|].
  rewrite Hf by left. simpl. rewrite IH; [done|].
  intros. apply Hf. by right.
Qed.

Lemma map_result_Forall2 (f : A -> result B) (l : list A) (l' : list B) :
  map_result f l = Ok l' -> Forall2 (fun x y => f x = Ok y) l l'.
Proof.
  revert l'. induction l as [|x l IH]; intros l'; simpl.
  - intros [= <-]. constructor.
  - destruct (f x) as [y|] eqn:Hx; simpl; [|done].
    destruct (map_result f l) as [ys|]; simpl; [|done].
    intros [= <-]. constructor; auto.
Qed.

End MapResult.

(** ** The HTML extractor *)

Lemma lstrip_empty_iff (P : ascii -> bool) (s : string) :
  Str.lstrip P s = "" <-> Str.all P s = true.
Proof.
  induction s as [|c s IH]; simpl; [done|].
  destruct (P c); simpl; [done|]. split; discriminate.
Qed.

Lemma split_ws1_blank (v : string) :
  Str.split_ws1 v = [] <-> Str.all Str.isspace v = true.
Proof.
  rewrite <- lstrip_empty_iff. unfold Str.split_ws1.
  destruct (Str.lstrip Str.isspace v) as [|c s]; [done|].
  destruct (Str.token (String c s)) as [t r].
  destruct (Str.lstrip Str.isspace r); split; discriminate.
Qed.

Lemma first_token_only (v : string) (e : exn) :
  first_token v = Raise e -> e = IndexError.
Proof. unfold first_token. destruct (Str.split_ws1 v); by intros [= <-]. Qed.

Lemma first_token_blank (v : string) :
  Str.all Str.isspace v = true -> first_token v = Raise IndexError.
Proof.
  intros Hv%split_ws1_blank. unfold first_token. by rewrite Hv.
Qed.

Lemma candidates_only (value : string) (e : exn) :
  candidates value = Raise e -> e = IndexError.
Proof. apply map_result_only. apply first_token_only. Qed.

Lemma candidates_blank (value v : string) :
  v ∈ Str.split "," value -> Str.all Str.isspace v = true ->
  candidates value = Raise IndexError.
Proof.
  intros Hin Hv. eapply map_result_raises; eauto using first_token_only.
  exists IndexError. by apply first_token_blank.
Qed.

Lemma element_links_only (attrs : attr_spec) (links : list string)
    (element : node) (e : exn) :
  element_links attrs links element = Raise e -> e = IndexError.
Proof.
  destruct attrs as [attr|attrs]; simpl.
  - destruct (get element attr) as [value|]; [|done]. by case_bool_decide.
  - apply fold_result_only. clear. intros acc attr e.
    destruct (get element attr) as [value|]; [|done].
    case_bool_decide; [done|].
    destruct (candidates value) eqn:Hc; simpl; [done|].
    intros [= <-]. eauto using candidates_only.
Qed.

Lemma element_links_one_returns (attr : string) (links : list string)
    (element : node) :
  exists links', element_links (One attr) links element = Ok links'.
Proof.
  simpl. destruct (get element attr); [case_bool_decide|]; eauto.
Qed.

Lemma raw_links_only (soup : list node) (e : exn) :
  raw_links soup = Raise e -> e = IndexError.
Proof.
  apply fold_result_only. intros acc [tag attrs] e'.
  apply fold_result_only. intros. eauto using element_links_only.
Qed.

Lemma element_links_blank (attrs : list string) (attr value v : string)
    (element : node) (links : list string) :
  attr ∈ attrs -> get element attr = Some value -> value ≠ "" ->
  v ∈ Str.split "," value -> Str.all Str.isspace v = true ->
  element_links (Many attrs) links element = Raise IndexError.
Proof.
  intros Hattr Hget Hne Hv Hblank. simpl.
  apply fold_result_raises with (x := attr); [|done|].
  - intros acc a e. destruct (get element a) as [value'|]; [|done].
    case_bool_decide; [done|].
    destruct (candidates value') eqn:Hc; simpl; [done|].
    intros [= <-]. eauto using candidates_only.
  - intros acc. exists IndexError. rewrite Hget.
    rewrite bool_decide_eq_false_2 by done.
    by rewrite (candidates_blank _ _ Hv Hblank).
Qed.

Lemma raw_links_blank (soup : list node) (element : node)
    (tag attr value v : string) :
  tag ∈ ["img"; "source"] -> attr ∈ ["src"; "srcset"] ->
  element ∈ find_all soup tag ->
  get element attr = Some value -> value ≠ "" ->
  v ∈ Str.split "," value -> Str.all Str.isspace v = true ->
  raw_links soup = Raise IndexError.
Proof.
  intros Htag Hattr Hel Hget Hne Hv Hblank. unfold raw_links.
  apply fold_result_raises with (x := (tag, Many ["src"; "srcset"])).
  - intros acc [t a] e. apply fold_result_only.
    intros. eauto using element_links_only.
  - apply elem_of_cons in Htag as [->|Htag].
    + repeat constructor.
    + apply list_elem_of_singleton in Htag as ->. repeat constructor.
  - intros acc. exists IndexError.
    apply fold_result_raises with (x := element);
      eauto using element_links_only.
    intros links. exists IndexError. eapply element_links_blank; eauto.
Qed.

(** C9.  A page with an [img] or [source] element whose [src] or [srcset]
    value has an empty (or blank) comma-separated candidate makes
    [extract_html_links] raise [IndexError]; the engine catches it and the
    page contributes no link at all, the links found before included. *)
Theorem empty_candidate_discards_page `{W : World} (response : Response)
    (final_url : string) (soup : list node) (element : node)
    (tag attr value v : string) :
  content_type_of response = "text/html" ->
  BeautifulSoup (content response) = Ok soup ->
  tag ∈ ["img"; "source"] -> attr ∈ ["src"; "srcset"] ->
  element ∈ find_all soup tag ->
  get element attr = Some value -> value ≠ "" ->
  v ∈ Str.split "," value -> Str.all Str.isspace v = true ->
  extract_html_links (content response) final_url = Raise IndexError
  /\ links_of response final_url = [].
Proof.
  intros Hct Hsoup Htag Hattr Hel Hget Hne Hv Hblank.
  assert (extract_html_links (content response) final_url
          = Raise IndexError) as Hraise.
  { unfold extract_html_links. rewrite Hsoup. simpl.
    by rewrite (raw_links_blank soup element tag attr value v). }
  split; [done|].
  unfold links_of. rewrite Hct. simpl. by rewrite Hraise.
Qed.

Lemma empty_candidate_discards_page_witness :
  let W := Fixture.world_of Fixture.trailing_comma_page in
  let response := Fixture.html "https://example.com/" "page" in
  extract_html_links (content response) "https://example.com/"
  = Raise IndexError
  /\ links_of response "https://example.com/" = [].
Proof.
  intros W response.
  apply (empty_candidate_discards_page response "https://example.com/"
           Fixture.trailing_comma
           (Tag "img" {[ "srcset" := "a.png 1x," ]} [])
           "img" "srcset" "a.png 1x," "").
  - reflexivity.
  - reflexivity.
  - repeat constructor.
  - repeat constructor.
  - vm_compute. repeat constructor.
  - reflexivity.
  - discriminate.
  - vm_compute. repeat constructor.
  - reflexivity.
Defined.

(** *** [srcset] candidates *)

Lemma app_cons (c : ascii) (s t : string) :
  String c s +:+ t = String c (s +:+ t).
Proof. reflexivity. Qed.

Lemma app_empty_l (s : string) : "" +:+ s = s.
Proof. reflexivity. Qed.

Lemma app_empty_r (s : string) : s +:+ "" = s.
Proof. induction s as [|c s IH]; [done|]. by rewrite app_cons, IH. Qed.

Lemma app_assoc_str (s t u : string) : (s +:+ t) +:+ u = s +:+ t +:+ u.
Proof. induction s as [|c s IH]; [done|]. by rewrite !app_cons, IH. Qed.




Lemma first_token_url_token (v : string) :
  Str.all Str.isspace v = false -> first_token v = Ok (url_token v).
Proof.
  intros Hv. unfold first_token, url_token, Str.split_ws1.
  destruct (Str.lstrip Str.isspace v) as [|c s] eqn:Hl.
  - apply lstrip_empty_iff in Hl. congruence.
  - destruct (Str.token (String c s)) as [t r]. simpl.
    by destruct (Str.lstrip Str.isspace r).
Qed.

Lemma candidates_url_tokens (value : string) :
  (forall v, v ∈ Str.split "," value -> Str.all Str.isspace v = false) ->
  candidates value = Ok (url_token <$> Str.split "," value).
Proof.
  intros Hall. apply map_result_total. intros v Hv.
  by apply first_token_url_token, Hall.
Qed.

Lemma split_head_in (c : ascii) (s : string) :
  exists w ws, Str.split c s = w :: ws.
Proof.
  induction s as [|d s (w & ws & IH)]; simpl; [eauto|].
  destruct (Ascii.eqb c d); [eauto|]. rewrite IH. eauto.
Qed.


(** *** The links of a document *)

Lemma fold_result_flat_map {A : Type}
    (f : list string -> A -> result (list string)) (g : A -> list string)
    (l : list A) (acc : list string) :
  (forall acc x, x ∈ l -> f acc x = Ok (acc ++ g x)) ->
  fold_result f l acc = Ok (acc ++ flat_map g l).
Proof.
  revert acc. induction l as [|x l IH]; intros acc Hf; cbn [fold_result].
  - cbn. by rewrite app_nil_r.
  - rewrite Hf by left. cbn [mbind result_bind Py.bind flat_map].
    rewrite IH; [by rewrite <- app_assoc|].
    intros. apply Hf. by right.
Qed.

Lemma many_in_tags (tag : string) (attrs : list string) :
  (tag, Many attrs) ∈ tags ->
  tag ∈ ["img"; "source"] /\ attrs = ["src"; "srcset"].
Proof.
  unfold tags. rewrite !elem_of_cons.
  intros [[=]|[[=]|[[= -> ->]|[[=]|[[= -> ->]|Htag]]]]];
    [| |by apply elem_of_nil in Htag]; split; auto.
Qed.

Lemma tags_many (tag : string) :
  tag ∈ ["img"; "source"] -> (tag, Many ["src"; "srcset"]) ∈ tags.
Proof.
  intros [->|Htag]%elem_of_cons; [repeat constructor|].
  apply list_elem_of_singleton in Htag as ->. repeat constructor.
Qed.

Lemma element_links_value (soup : list node) (tag : string)
    (attrs : attr_spec) (element : node) (links : list string) :
  no_blank_candidate soup ->
  (tag, attrs) ∈ tags -> element ∈ find_all soup tag ->
  element_links attrs links element
  = Ok (links ++ links_of_element attrs element).
Proof.
  intros Hsoup Htag Hel. destruct attrs as [attr|attrs].
  { cbn [element_links links_of_element].
    destruct (get element attr) as [value|]; [|by rewrite app_nil_r].
    case_bool_decide; by rewrite ?app_nil_r. }
  apply many_in_tags in Htag as [Htag ->].
  cbn [element_links links_of_element]. apply fold_result_flat_map.
  intros acc attr Hattr.
  destruct (get element attr) as [value|] eqn:Hget; [|by rewrite app_nil_r].
  case_bool_decide as Hvalue; [by rewrite app_nil_r|].
  rewrite candidates_url_tokens; [done|].
  intros v Hv. eapply Hsoup; eauto.
Qed.

(** the raw links of the extractor are those the document stands for,
    when it has no blank candidate; the extractor raises when it has one *)
Lemma raw_links_document (soup : list node) :
  (no_blank_candidate soup -> raw_links soup = Ok (document_links soup))
  /\ (forall links,
        raw_links soup = Ok links ->
        no_blank_candidate soup /\ links = document_links soup).
Proof.
  assert (no_blank_candidate soup ->
          raw_links soup = Ok (document_links soup)) as Hvalue.
  { intros Hsoup. unfold raw_links, document_links.
    rewrite (fold_result_flat_map _
               (fun '(tag, attrs) =>
                  flat_map (links_of_element attrs) (find_all soup tag)));
      [done|].
    intros acc [tag attrs] Htag. apply fold_result_flat_map.
    intros links element Hel. by eapply element_links_value. }
  split; [done|]. intros links Hlinks.
  assert (no_blank_candidate soup) as Hsoup.
  { intros tag attr element value v Htag Hattr Hel Hget Hne Hv.
    destruct (Str.all Str.isspace v) eqn:Hblank; [|done].
    rewrite (raw_links_blank soup element tag attr value v) in Hlinks; done. }
  split; [done|]. rewrite (Hvalue Hsoup) in Hlinks. congruence.
Qed.






(** *** The order of the extracted links *)











(** ** The crawl engine *)

Section Engine.
Context `{W : World}.
Variable output_dir : string.
Variable base_domain : string.
Variable max_depth : option Z.

Lemma enqueue_link_spec (depth : Z) (st st' : state) (link : string) :
  enqueue_link base_domain depth st link = Ok st' ->
  visited st' = visited st /\ log st' = log st /\ world st' = world st
  /\ (queue st' = queue st
      \/ exists u, queue st' = queue st ++ [(u, (depth + 1)%Z)]
                   /\ enqueued_by base_domain st u).
Proof.
  unfold enqueue_link.
  destruct (normalize link) as [u|] eqn:Hn; simpl; [|done].
  destruct (is_valid u) as [[]|] eqn:Hv; simpl; [| |done].
  - destruct (should_download u base_domain) as [[]|] eqn:Hs; simpl;
      [| |done].
    + case_bool_decide as Hvis; simpl; intros [= <-]; simpl.
      * auto.
      * split_and!; [done..|]. right. exists u. split; [done|].
        by exists link.
    + intros [= <-]. auto.
  - intros [= <-]. auto.
Qed.

Lemma enqueue_links_spec (depth : Z) (links : list string) (st : state) :
  let st' := state_of_pass (enqueue_links base_domain depth links st) in
  visited st' = visited st /\ log st' = log st /\ world st' = world st
  /\ exists new,
       queue st' = queue st ++ new
       /\ Forall (fun e => e.2 = (depth + 1)%Z /\ enqueued_by base_domain st e.1) new.
Proof.
  revert st. induction links as [|link links IH]; intros st;
    cbn [enqueue_links].
  - cbn. split_and!; [done..|]. exists []. by rewrite app_nil_r.
  - destruct (enqueue_link base_domain depth st link) as [st1|e] eqn:H1.
    + destruct (IH st1) as (Hv & Hl & Hw & new & Hq & Hnew).
      apply enqueue_link_spec in H1 as (Hv1 & Hl1 & Hw1 & Hq1).
      split_and!; [congruence..|].
      assert (Forall (fun e => e.2 = (depth + 1)%Z
                               /\ enqueued_by base_domain st e.1) new)
        as Hnew'.
      { eapply Forall_impl; [exact Hnew|]. intros [u k] [Hk Hu].
        split; [done|]. unfold enqueued_by in *. by rewrite <- Hv1. }
      destruct Hq1 as [Hq1|(u & Hq1 & Hu)].
      * exists new. by rewrite Hq, Hq1.
      * exists ((u, (depth + 1)%Z) :: new). split.
        -- by rewrite Hq, Hq1, <- app_assoc.
        -- by constructor.
    + cbn. split_and!; [done..|]. exists []. by rewrite app_nil_r.
Qed.

Lemma after_print_state (printed : result unit * env) (st : state) :
  state_of_pass (after_print printed st) = with_world st printed.2.
Proof. by destruct printed as [[[]|e] w]. Qed.

Lemma crawl_pass_kind (verbose : bool) (url : string) (depth : Z)
    (st : state) :
  pass_kind base_domain max_depth url depth st
    (state_of_pass
       (crawl_pass output_dir base_domain max_depth verbose url depth st)).
Proof.
  unfold crawl_pass.
  destruct (match max_depth with Some d => (d <? depth)%Z | None => false end)
    eqn:Hdepth.
  { rewrite after_print_state. apply Skipped; [done..|]. left.
    destruct max_depth as [d|]; [|done].
    exists d. split; [done|]. by apply Z.ltb_lt. }
  assert (forall d, max_depth = Some d -> (depth <= d)%Z) as Hd.
  { intros d ->. apply Z.ltb_ge in Hdepth. lia. }
  destruct (decide (url ∈ visited st)) as [Hin|Hin].
  { apply Skipped; auto. }
  cbn [visited queue log world].
  destruct (print_if_verbose verbose (Downloading url) (world st))
    as [[[]|e] w0].
  2: { by apply Announced. }
  assert (forall w,
    pass_kind base_domain max_depth url depth st
      (mkState (visited st ∪ {[url]}) (queue st) (log st ++ [(url, depth)]) w))
    as Hplain.
  { intros w. apply Requested with (new := []); simpl; auto.
    by rewrite app_nil_r. }
  destruct (fetch url w0) as [[response|e] w1].
  2: { rewrite after_print_state. apply Hplain. }
  destruct (should_download (r_url response) base_domain) as [[]|e];
    [|rewrite after_print_state; apply Hplain|apply Hplain].
  destruct (save_resource _ _ _ _ _) as [[saved_path|e] w2];
    [|apply Hplain].
  destruct (print_if_verbose verbose (Saved saved_path) w2) as [[[]|e] w3];
    [|apply Hplain].
  destruct (report _ w3) as [[[]|e] w4]; [|apply Hplain].
  destruct (enqueue_links_spec depth
              (links_of response (r_url response))
              (with_world
                 (mkState (visited st ∪ {[url]}) (queue st)
                    (log st ++ [(url, depth)]) w0) w4))
    as (Hv & Hl & Hw & new & Hq & Hnew).
  apply Requested with (new := new); auto.
Qed.

(** an invariant of the passes is an invariant of the loop *)
Lemma crawl_loop_invariant (verbose : bool) (P : state -> Prop) :
  (forall st w, P st -> P (with_world st w)) ->
  (forall st url depth rest,
     P st -> queue st = (url, depth) :: rest ->
     P (state_of_pass
          (crawl_pass output_dir base_domain max_depth verbose url depth
             (mkState (visited st) rest (log st) (world st))))) ->
  forall fuel st,
    P st ->
    P (final_state
         (crawl_loop output_dir base_domain max_depth verbose fuel st)).
Proof.
  intros Hworld Hpass. induction fuel as [|fuel IH]; intros st HP; simpl.
  - by destruct (queue st) as [|[url depth] rest].
  - destruct (queue st) as [|[url depth] rest] eqn:Hq; [done|].
    specialize (Hpass st url depth rest HP Hq).
    destruct (crawl_pass _ _ _ _ _ _ _) as [st'|e st']; simpl in *; auto.
Qed.

End Engine.

(** *** Each URL is requested once by the loop *)

Section Requests.
Context `{W : World}.

Lemma log_distinct_pass (output_dir base_domain : string)
    (max_depth : option Z) (verbose : bool) (url : string) (depth : Z)
    (st : state) :
  log_distinct st ->
  log_distinct
    (state_of_pass
       (crawl_pass output_dir base_domain max_depth verbose url depth st)).
Proof.
  intros [Hnodup Hvis]. unfold log_distinct.
  destruct (crawl_pass_kind output_dir base_domain max_depth verbose url
              depth st)
    as [Hv _ Hl _|_ _ Hv _ Hl|new _ Hnew Hv Hl _ _]; rewrite Hv, Hl.
  - done.
  - split; [done|]. intros u Hu. apply elem_of_union_l. auto.
  - rewrite fmap_app. simpl. split.
    + apply NoDup_app. split_and!; [done| |apply NoDup_singleton].
      intros u Hu ->%list_elem_of_singleton. auto.
    + intros u [Hu| ->%list_elem_of_singleton]%elem_of_app.
      * apply elem_of_union_l. auto.
      * apply elem_of_union_r. by apply elem_of_singleton.
Qed.

Lemma log_distinct_loop (output_dir base_domain : string)
    (max_depth : option Z) (verbose : bool) (fuel : nat) (st : state) :
  log_distinct st ->
  log_distinct
    (final_state
       (crawl_loop output_dir base_domain max_depth verbose fuel st)).
Proof.
  apply crawl_loop_invariant; [done|].
  intros st' url depth rest Hinv _. by apply log_distinct_pass.
Qed.

(** C2, as the code has it.  The requests issued from the frontier loop go
    to pairwise distinct URLs; a run's requests are the initial request,
    which resolves the redirects, followed by those of the loop. *)
Theorem loop_requests_distinct (url output_dir : string)
    (max_depth : option Z) (verbose : bool) (fuel : nat) (w : env) :
  let run := crawl url output_dir max_depth verbose fuel w in
  NoDup (log (final_state run.2)).*1
  /\ (forall u, u ∈ (log (final_state run.2)).*1 ->
                u ∈ visited (final_state run.2))
  /\ (requests_of run = (log (final_state run.2)).*1
      \/ requests_of run = url :: (log (final_state run.2)).*1).
Proof.
  intros run.
  assert (log_distinct (final_state run.2)) as [Hnodup Hvis].
  { subst run. unfold crawl.
    destruct (os_makedirs output_dir w) as [[[]|e] w1];
      [|split; [constructor|by intros u ?%elem_of_nil]].
    destruct (announce verbose url output_dir w1) as [[[]|e] w1'];
      [|split; [constructor|by intros u ?%elem_of_nil]].
    destruct (requests_get url w1') as [[response|e] w2];
      [|split; [constructor|by intros u ?%elem_of_nil]].
    destruct (negb (status_code response =? 200)%Z).
    { destruct (initial_error _ w2) as [e w3].
      split; [constructor|by intros u ?%elem_of_nil]. }
    destruct (urlparse (r_url response)) as [parsed|e];
      [|split; [constructor|by intros u ?%elem_of_nil]].
    apply log_distinct_loop.
    split; [constructor|by intros u ?%elem_of_nil]. }
  split_and!; [done..|].
  unfold requests_of. destruct run as [[u|] o] eqn:Hrun; simpl; [|auto].
  right. f_equal. subst run. unfold crawl in Hrun.
  destruct (os_makedirs output_dir w) as [[[]|e] w1]; [|done].
  destruct (announce verbose url output_dir w1) as [[[]|e] w1']; [|done].
  destruct (requests_get url w1') as [[response|e] w2]; [|congruence].
  destruct (negb (status_code response =? 200)%Z).
  { destruct (initial_error _ w2) as [e w3]. congruence. }
  destruct (urlparse (r_url response)); congruence.
Qed.

End Requests.

(** C2, as the specification has it, fails: with no redirect the start
    URL is requested by the initial request and again by the loop. *)
Lemma start_url_requested_twice :
  let run :=
    Fixture.crawl_site Fixture.small_site "https://example.com/" "/out"
      None 10 in
  requests_of run
  = ["https://example.com/"; "https://example.com/";
     "https://example.com/a"; "https://example.com/b"]
  /\ ~ NoDup (requests_of run).
Proof.
  intros run.
  assert (requests_of run
          = ["https://example.com/"; "https://example.com/";
             "https://example.com/a"; "https://example.com/b"]) as Hreq
    by (vm_compute; reflexivity).
  split; [done|]. rewrite Hreq. intros Hnodup.
  apply NoDup_cons in Hnodup as [Hnotin _]. apply Hnotin. left.
Qed.

(** *** The depth bound *)

Section Depth.
Context `{W : World}.

Lemma log_within_loop (output_dir base_domain : string) (d : Z)
    (verbose : bool) (fuel : nat) (st : state) :
  log_within d st ->
  log_within d
    (final_state
       (crawl_loop output_dir base_domain (Some d) verbose fuel st)).
Proof.
  apply crawl_loop_invariant; [done|].
  intros st' url depth rest Hinv _. unfold log_within.
  destruct (crawl_pass_kind output_dir base_domain (Some d) verbose url depth
              (mkState (visited st') rest (log st') (world st')))
    as [_ _ Hl _|_ _ _ _ Hl|new Hd _ _ Hl _ _]; rewrite Hl; [done..|].
  intros u k. simpl.
  intros [Hu|[= -> ->]%list_elem_of_singleton]%elem_of_app; eauto.
Qed.

(** C5, as the code has it.  With [max_depth = d], [d] not negative, a
    frontier entry taken with a depth above [d] is dropped before any
    request: the pass only prints, under [--verbose], that it skips the
    URL.  When nothing is printed or the print returns, the loop goes on
    with the next entry; when the print raises, the run ends with exit
    code 1.  No request of a run was issued for an entry deeper than
    [d]. *)
Theorem depth_bound (url output_dir : string) (d : Z) (verbose : bool)
    (fuel : nat) (w : env) :
  (0 <= d)%Z ->
  (forall (base_domain u : string) (k : Z) (st : state),
     (d < k)%Z ->
     crawl_pass output_dir base_domain (Some d) verbose u k st
     = after_print
         (print_if_verbose verbose (SkippingMaxDepth u) (world st)) st)
  /\ (forall (base_domain u : string) (k : Z) (st : state) (w' : env),
        (d < k)%Z ->
        print_if_verbose verbose (SkippingMaxDepth u) (world st)
        = (Ok tt, w') ->
        crawl_loop output_dir base_domain (Some d) verbose (S fuel)
          (mkState (visited st) ((u, k) :: queue st) (log st) (world st))
        = crawl_loop output_dir base_domain (Some d) verbose fuel
            (with_world st w'))
  /\ (forall (base_domain u : string) (k : Z) (st : state) (e : exn)
             (w' : env),
        (d < k)%Z ->
        print_if_verbose verbose (SkippingMaxDepth u) (world st)
        = (Raise e, w') ->
        crawl_loop output_dir base_domain (Some d) verbose (S fuel)
          (mkState (visited st) ((u, k) :: queue st) (log st) (world st))
        = critical e (with_world st w'))
  /\ (forall u k,
        (u, k) ∈ log (final_state
                        (crawl url output_dir (Some d) verbose fuel w).2) ->
        (k <= d)%Z).
Proof.
  intros Hd.
  assert (forall (base_domain u : string) (k : Z) (st : state),
            (d < k)%Z ->
            crawl_pass output_dir base_domain (Some d) verbose u k st
            = after_print
                (print_if_verbose verbose (SkippingMaxDepth u) (world st)) st)
    as Hskip.
  { intros base_domain u k st Hk. unfold crawl_pass.
    by rewrite (proj2 (Z.ltb_lt d k) Hk). }
  split_and!; [done| | |].
  - intros base_domain u k st w' Hk Hprint.
    cbn [crawl_loop queue visited log world].
    replace (mkState (visited st) (queue st) (log st) (world st)) with st
      by by destruct st.
    by rewrite Hskip, Hprint by done.
  - intros base_domain u k st e w' Hk Hprint.
    cbn [crawl_loop queue visited log world].
    replace (mkState (visited st) (queue st) (log st) (world st)) with st
      by by destruct st.
    by rewrite Hskip, Hprint by done.
  - unfold crawl.
    destruct (os_makedirs output_dir w) as [[[]|e] w1];
      [|by intros u k ?%elem_of_nil].
    rewrite (proj2 (Z.ltb_ge d 0) Hd).
    destruct (announce verbose url output_dir w1) as [[[]|e] w1'];
      [|by intros u k ?%elem_of_nil].
    destruct (requests_get url w1') as [[response|e] w2];
      [|by intros u k ?%elem_of_nil].
    destruct (negb (status_code response =? 200)%Z).
    { destruct (initial_error _ w2) as [e w3].
      by intros u k ?%elem_of_nil. }
    destruct (urlparse (r_url response)) as [parsed|e];
      [|by intros u k ?%elem_of_nil].
    apply log_within_loop. by intros u k ?%elem_of_nil.
Qed.

End Depth.

(** At the input where the last part of C5 fails: under [--verbose] and
    [--max-depth 0] the entry for [https://example.com/a[/b]] is dropped
    without a request, but the print that says so raises, and the run ends
    with exit code 1 although [https://example.com/b] waits in the
    queue. *)
Lemma depth_bound_witness :
  let W := Fixture.markup_world in
  let st :=
    mkState {[ "https://example.com/" ]} [("https://example.com/b", 1%Z)]
      [("https://example.com/", 0%Z)]
      ([("/out/example.com/index.html", "home")] : list (string * string)) in
  (0 <= 0)%Z
  /\ crawl_loop "/out" "example.com" (Some 0%Z) true 1
       (mkState (visited st) (("https://example.com/a[/b]", 1%Z) :: queue st)
          (log st) (world st))
     = Exit 1 st.
Proof.
  intros W st. split; [lia|].
  apply (proj1 (proj2 (proj2 (depth_bound (W := W)
                  "https://example.com/" "/out" 0%Z true 0
                  ([] : list (string * string)) ltac:(lia))))
           "example.com" "https://example.com/a[/b]" 1%Z st MarkupError
           (world st)).
  - lia.
  - reflexivity.
Defined.

(** the whole run at that input: the start page is saved, its two links
    are enqueued, and the run ends at the first of them *)
Lemma verbose_skip_ends_crawl :
  let run :=
    crawl (W := Fixture.markup_world) "https://example.com/" "/out"
      (Some 0%Z) true 10 ([] : list (string * string)) in
  run.2
  = Exit 1
      (mkState (W := Fixture.markup_world)
         {[ "https://example.com/" ]} [("https://example.com/b", 1%Z)]
         [("https://example.com/", 0%Z)]
         ([("/out/example.com/index.html", "home")]
          : list (string * string)))
  /\ crawl (W := Fixture.markup_world) "https://example.com/" "/out"
       (Some 0%Z) false 10 ([] : list (string * string))
     = (Some "https://example.com/",
        Drained
          (mkState (W := Fixture.markup_world)
             {[ "https://example.com/" ]} []
             [("https://example.com/", 0%Z)]
             ([("/out/example.com/index.html", "home")]
              : list (string * string)))).
Proof. split; vm_compute; reflexivity. Qed.

(** *** A failed save *)

Section SaveFailure.
Context `{W : World}.

(** C1, as the code has it.  The failures of the request and of the
    extractors are caught by the inner [try] blocks; [save_resource] is
    called outside them: when it raises, the exception reaches the handler
    of [crawl], which ends the run with exit code 1; no link of the
    resource is enqueued and the entries left in the frontier are not
    processed. *)
Theorem save_failure_ends_crawl (output_dir base_domain : string)
    (max_depth : option Z) (verbose : bool) (url : string) (depth : Z)
    (st : state) (response : Response) (w0 w1 w2 : env) (e : exn)
    (fuel : nat) :
  (forall d, max_depth = Some d -> (depth <= d)%Z) ->
  url ∉ visited st ->
  print_if_verbose verbose (Downloading url) (world st) = (Ok tt, w0) ->
  requests_get url w0 = (Ok response, w1) ->
  is_error_status (status_code response) = false ->
  should_download (r_url response) base_domain = Ok true ->
  save_resource response output_dir base_domain (r_url response) w1
  = (Raise e, w2) ->
  let st' :=
    mkState (visited st ∪ {[url]}) (queue st) (log st ++ [(url, depth)]) w2 in
  crawl_pass output_dir base_domain max_depth verbose url depth st
  = Critical e st'
  /\ crawl_loop output_dir base_domain max_depth verbose (S fuel)
       (mkState (visited st) ((url, depth) :: queue st) (log st) (world st))
     = Exit 1 (with_world st' (console_print (CriticalError e) w2).2).
Proof.
  intros Hd Hvis Hprint Hget Hstatus Hscope Hsave st'.
  assert (crawl_pass output_dir base_domain max_depth verbose url depth st
          = Critical e st') as Hpass.
  { unfold crawl_pass.
    assert (match max_depth with
            | Some d => (d <? depth)%Z
            | None => false
            end = false) as ->.
    { destruct max_depth as [d|]; [|done]. apply Z.ltb_ge. auto. }
    rewrite decide_False by done. cbn [visited queue log world].
    rewrite Hprint. cbn [visited queue log world]. unfold fetch.
    rewrite Hget, Hstatus, Hscope. by rewrite Hsave. }
  split; [done|]. cbn [crawl_loop queue visited log world].
  replace (mkState (visited st) (queue st) (log st) (world st)) with st
    by by destruct st.
  by rewrite Hpass.
Qed.

End SaveFailure.

Lemma save_failure_ends_crawl_witness :
  let W := Fixture.world_of Fixture.read_only in
  let st :=
    mkState {[ "https://example.com/" ]} [("https://example.com/b", 1%Z)]
      [("https://example.com/", 0%Z)]
      ([("/out/example.com/index.html", "home")] : list (string * string)) in
  let st' :=
    mkState ({[ "https://example.com/" ]} ∪ {[ "https://example.com/a" ]})
      [("https://example.com/b", 1%Z)]
      [("https://example.com/", 0%Z); ("https://example.com/a", 1%Z)]
      ([("/out/example.com/index.html", "home")] : list (string * string)) in
  crawl_pass "/out" "example.com" None false "https://example.com/a" 1%Z st
  = Critical OSError st'
  /\ crawl_loop "/out" "example.com" None false 1
       (mkState (visited st) (("https://example.com/a", 1%Z) :: queue st)
          (log st) (world st))
     = Exit 1 st'.
Proof.
  intros W st st'.
  apply (save_failure_ends_crawl "/out" "example.com" None false
           "https://example.com/a" 1%Z st
           (Fixture.html "https://example.com/a" "a")
           ([("/out/example.com/index.html", "home")] : list (string * string))
           ([("/out/example.com/index.html", "home")] : list (string * string))
           ([("/out/example.com/index.html", "home")] : list (string * string))
           OSError 0).
  - discriminate.
  - vm_compute. discriminate.
  - reflexivity.
  - reflexivity.
  - reflexivity.
  - reflexivity.
  - reflexivity.
Defined.

(** The run at the input where C1 fails: the file of [/a] cannot be
    written, and the run ends with exit code 1 while [/b] waits in the
    frontier, never requested. *)
Lemma save_failure_counterexample :
  let run :=
    Fixture.crawl_site Fixture.read_only "https://example.com/" "/out"
      None 10 in
  (exists st, run.2 = Exit 1 st
              /\ queue st = [("https://example.com/b", 1%Z)]
              /\ world st = [("/out/example.com/index.html", "home")])
  /\ requests_of run
     = ["https://example.com/"; "https://example.com/";
        "https://example.com/a"].
Proof.
  intros run. split; [|by vm_compute].
  eexists. split_and!; [by vm_compute|done..].
Qed.

(** ** The resource writer *)

Lemma last_app (a b : string) : b ≠ "" -> Str.last (a +:+ b) = Str.last b.
Proof.
  intros Hb. induction a as [|c a IH]; [done|].
  rewrite app_cons. simpl. rewrite IH.
  destruct (a +:+ b) eqn:Hab; [|done].
  destruct a; [|done]. by rewrite app_empty_l in Hab.
Qed.

Lemma app_nonempty_r (a b : string) : b ≠ "" -> a +:+ b ≠ "".
Proof. intros Hb. destruct a; [done|]. by rewrite app_cons. Qed.

Lemma last_mem (c : ascii) (s : string) :
  Str.mem c s = false -> Str.endswith c s = false.
Proof.
  unfold Str.endswith. induction s as [|d s IH]; [done|]. simpl.
  destruct (Ascii.eqb c d) eqn:Hcd; [done|]. intros Hs.
  destruct s; [done|]. by apply IH.
Qed.

Lemma startswith_mem (c : ascii) (s : string) :
  Str.mem c s = false -> Str.startswith (String c "") s = false.
Proof.
  destruct s as [|d s]; [done|]. simpl.
  by destruct (Ascii.eqb c d).
Qed.

Lemma join_closed_form (parts : list string) (a : string) :
  a ≠ "" -> Str.endswith "/" a = false ->
  Forall plain_segment parts ->
  Posixpath.join a parts
  = a +:+ String.concat "" ((fun s => "/" +:+ s) <$> parts).
Proof.
  unfold Posixpath.join. revert a.
  induction parts as [|b parts IH]; intros a Ha Hend Hparts;
    cbn [fold_left fmap list_fmap].
  - simpl. by rewrite app_empty_r.
  - apply Forall_cons in Hparts as [[Hb Hslash] Hparts].
    rewrite (startswith_mem "/" b Hslash).
    rewrite bool_decide_eq_false_2 by done. rewrite Hend. simpl.
    rewrite IH; [| |  |done].
    + destruct parts; simpl; by rewrite ?app_empty_r, ?app_assoc_str.
    + by apply app_nonempty_r, app_nonempty_r.
    + unfold Str.endswith.
      rewrite last_app by (by apply app_nonempty_r).
      rewrite (last_app "/" b) by done. by apply last_mem.
Qed.

Lemma join_snoc (a : string) (parts : list string) (b : string) :
  Posixpath.join (Posixpath.join a parts) [b] = Posixpath.join a (parts ++ [b]).
Proof. unfold Posixpath.join. by rewrite fold_left_app. Qed.

Lemma split_nonempty (c : ascii) (s : string) : Str.split c s ≠ [].
Proof. destruct (split_head_in c s) as (w & ws & ->). done. Qed.

Lemma split_segments (c : ascii) (s : string) :
  Forall (fun w => Str.mem c w = false) (Str.split c s).
Proof.
  induction s as [|d s IH]; simpl; [by repeat constructor|].
  destruct (Ascii.eqb c d) eqn:Hcd; [by constructor|].
  destruct (split_head_in c s) as (w & ws & Hs). rewrite Hs in *.
  apply Forall_cons in IH as [Hw Hws]. constructor; [|done].
  simpl. by rewrite Hcd.
Qed.

Lemma join_split (c : ascii) (s : string) :
  Str.join (String c "") (Str.split c s) = s.
Proof.
  induction s as [|d s IH]; [done|]. simpl.
  destruct (Ascii.eqb_spec c d) as [->|Hcd].
  - destruct (split_head_in d s) as (w & ws & Hs). rewrite Hs in *.
    simpl. rewrite app_empty_l. cbn [Str.join] in IH. by rewrite IH.
  - destruct (split_head_in c s) as (w & ws & Hs). rewrite Hs in *.
    destruct ws; simpl in *; [by rewrite IH|].
    by rewrite app_cons, IH.
Qed.

Lemma concat_empty_cons (x : string) (l : list string) :
  String.concat "" (x :: l) = x +:+ String.concat "" l.
Proof. destruct l; simpl; by rewrite ?app_empty_r. Qed.

Lemma concat_slash_join (w : string) (ws : list string) :
  String.concat "" ((fun s => "/" +:+ s) <$> (w :: ws))
  = "/" +:+ Str.join "/" (w :: ws).
Proof.
  revert w. induction ws as [|w' ws IH]; intros w.
  - simpl. by rewrite ?app_empty_r.
  - rewrite fmap_cons, concat_empty_cons, IH. cbn [Str.join].
    by rewrite !app_assoc_str.
Qed.

Lemma save_paths_segments (output_dir domain url : string)
    (parsed : ParseResult) :
  urlparse url = Ok parsed ->
  save_paths output_dir domain url
  = Ok (Posixpath.join output_dir (domain :: removelast (path_segments parsed)),
        Posixpath.join output_dir (domain :: path_segments parsed)).
Proof.
  intros Hp. unfold save_paths. rewrite Hp. cbn [mbind result_bind Py.bind].
  fold (indexed_path parsed). fold (path_segments parsed).
  pose proof (split_nonempty "/"
                (Str.strip (Ascii.eqb "/") (indexed_path parsed))) as Hne.
  fold (path_segments parsed) in Hne.
  destruct (path_segments parsed) as [|w ws] eqn:Hparts; [done|].
  rewrite join_snoc. do 3 f_equal.
  change ((domain :: removelast (w :: ws)) ++ [List.last (w :: ws) ""])
    with (domain :: (removelast (w :: ws) ++ [List.last (w :: ws) ""])).
  by rewrite <- (app_removelast_last "" (l := w :: ws)).
Qed.

Lemma save_paths_closed_form (output_dir domain url : string)
    (parsed : ParseResult) :
  urlparse url = Ok parsed ->
  output_dir ≠ "" -> Str.endswith "/" output_dir = false ->
  domain ≠ "" -> Str.mem "/" domain = false ->
  "" ∉ path_segments parsed ->
  exists dir_structure,
    save_paths output_dir domain url
    = Ok (dir_structure,
          output_dir +:+ "/" +:+ domain +:+ "/"
          +:+ Str.strip (Ascii.eqb "/") (indexed_path parsed)).
Proof.
  intros Hp Hout Hend Hdom Hslash Hsegs.
  rewrite (save_paths_segments _ _ _ _ Hp). eexists. do 2 f_equal.
  rewrite join_closed_form; [|done..|].
  - pose proof (split_nonempty "/"
                  (Str.strip (Ascii.eqb "/") (indexed_path parsed))) as Hne.
    fold (path_segments parsed) in Hne.
    rewrite fmap_cons, concat_empty_cons.
    destruct (path_segments parsed) as [|w ws] eqn:Hparts; [done|].
    rewrite concat_slash_join, <- Hparts. unfold path_segments.
    by rewrite join_split, !app_assoc_str.
  - constructor; [done|].
    pose proof (split_segments "/"
                  (Str.strip (Ascii.eqb "/") (indexed_path parsed))) as Hall.
    fold (path_segments parsed) in Hall.
    apply Forall_forall. intros s Hs. split.
    + intros ->. done.
    + by apply (proj1 (Forall_forall _ _) Hall).
Qed.

Lemma save_resource_unfold `{W : World} (response : Response)
    (output_dir domain url : string) (parsed : ParseResult) (w : env) :
  urlparse url = Ok parsed ->
  save_resource response output_dir domain url w
  = match os_makedirs
            (Posixpath.join output_dir
               (domain :: removelast (path_segments parsed))) w with
    | (Raise e, w1) => (Raise e, w1)
    | (Ok _, w1) =>
        match open_write
                (Posixpath.join output_dir (domain :: path_segments parsed))
                (content response) w1 with
        | (Raise e, w2) => (Raise e, w2)
        | (Ok _, w2) =>
            (Ok (Posixpath.join output_dir (domain :: path_segments parsed)),
             w2)
        end
    end.
Proof.
  intros Hp. unfold save_resource.
  by rewrite (save_paths_segments output_dir domain url parsed Hp).
Qed.

(** C4.  [save_resource] works out the place of a resource from the output
    root, the site domain and the URL alone, not from the body or from the
    state of the disk: [index.html] is appended to an empty path and to a
    path that ends in [/]; the segments but the last are the directories
    under [output_dir/domain], which it creates, and the last is the name
    of the file it writes the body to and whose path it returns.  So
    [https://example.com/blog/] is saved at
    [output_dir/example.com/blog/index.html] and [https://example.com/]
    at [output_dir/example.com/index.html].  A URL that does not parse
    leaves the disk as it is. *)
Theorem save_path_determined `{W : World} :
  (forall (response : Response) (output_dir domain url : string)
          (parsed : ParseResult) (w : env),
     urlparse url = Ok parsed ->
     let dir_structure :=
       Posixpath.join output_dir
         (domain :: removelast (path_segments parsed)) in
     let file_path :=
       Posixpath.join output_dir (domain :: path_segments parsed) in
     save_resource response output_dir domain url w
     = match os_makedirs dir_structure w with
       | (Raise e, w1) => (Raise e, w1)
       | (Ok _, w1) =>
           match open_write file_path (content response) w1 with
           | (Raise e, w2) => (Raise e, w2)
           | (Ok _, w2) => (Ok file_path, w2)
           end
       end)
  /\ (forall (output_dir domain url : string) (r1 r2 : Response)
             (w1 w2 : env) (p1 p2 : string),
        (save_resource r1 output_dir domain url w1).1 = Ok p1 ->
        (save_resource r2 output_dir domain url w2).1 = Ok p2 ->
        p1 = p2)
  /\ (forall (response : Response) (output_dir domain url : string)
             (parsed : ParseResult) (w : env) (saved_path : string),
        urlparse url = Ok parsed ->
        output_dir ≠ "" -> Str.endswith "/" output_dir = false ->
        domain ≠ "" -> Str.mem "/" domain = false ->
        "" ∉ path_segments parsed ->
        (save_resource response output_dir domain url w).1 = Ok saved_path ->
        saved_path
        = output_dir +:+ "/" +:+ domain +:+ "/"
          +:+ Str.strip (Ascii.eqb "/") (indexed_path parsed))
  /\ (forall (response : Response) (output_dir : string) (w : env),
        output_dir ≠ "" -> Str.endswith "/" output_dir = false ->
        save_resource response output_dir "example.com"
          "https://example.com/blog/" w
        = match os_makedirs (output_dir +:+ "/example.com/blog") w with
          | (Raise e, w1) => (Raise e, w1)
          | (Ok _, w1) =>
              match open_write (output_dir +:+ "/example.com/blog/index.html")
                      (content response) w1 with
              | (Raise e, w2) => (Raise e, w2)
              | (Ok _, w2) =>
                  (Ok (output_dir +:+ "/example.com/blog/index.html"), w2)
              end
          end
        /\ save_resource response output_dir "example.com"
             "https://example.com/" w
           = match os_makedirs (output_dir +:+ "/example.com") w with
             | (Raise e, w1) => (Raise e, w1)
             | (Ok _, w1) =>
                 match open_write (output_dir +:+ "/example.com/index.html")
                         (content response) w1 with
                 | (Raise e, w2) => (Raise e, w2)
                 | (Ok _, w2) =>
                     (Ok (output_dir +:+ "/example.com/index.html"), w2)
                 end
             end)
  /\ (forall (response : Response) (output_dir domain url : string)
             (e : exn) (w : env),
        urlparse url = Raise e ->
        save_resource response output_dir domain url w = (Raise e, w)).
Proof.
  split_and!.
  5: { intros response output_dir domain url e w Hp.
       unfold save_resource, save_paths. by rewrite Hp. }
  - intros response output_dir domain url parsed w Hp. cbv zeta.
    by apply save_resource_unfold.
  - intros output_dir domain url r1 r2 w1 w2 p1 p2. unfold save_resource.
    destruct (save_paths output_dir domain url) as [[d f]|]; [|done].
    destruct (os_makedirs d w1) as [[[]|] w1']; [|done].
    destruct (open_write f (content r1) w1') as [[[]|] w1'']; [|done].
    destruct (os_makedirs d w2) as [[[]|] w2']; [|done].
    destruct (open_write f (content r2) w2') as [[[]|] w2'']; [|done].
    simpl. congruence.
  - intros response output_dir domain url parsed w saved_path Hp Hout Hend
      Hdom Hslash Hsegs.
    destruct (save_paths_closed_form output_dir domain url parsed Hp Hout
                Hend Hdom Hslash Hsegs) as [d Hpaths].
    unfold save_resource. rewrite Hpaths.
    destruct (os_makedirs d w) as [[[]|] w1]; [|done].
    destruct (open_write _ (content response) w1) as [[[]|] w2]; [|done].
    simpl. congruence.
  - intros response output_dir w Hout Hend. split.
    + rewrite (save_resource_unfold response output_dir "example.com"
                 "https://example.com/blog/"
                 (mkParse "https" "example.com" "/blog/" "" "" "") w eq_refl).
      change (path_segments (mkParse "https" "example.com" "/blog/" "" "" ""))
        with ["blog"; "index.html"].
      cbn [removelast].
      rewrite !join_closed_form
        by first [done | repeat constructor; discriminate].
      simpl. by rewrite ?app_empty_r.
    + rewrite (save_resource_unfold response output_dir "example.com"
                 "https://example.com/"
                 (mkParse "https" "example.com" "/" "" "" "") w eq_refl).
      change (path_segments (mkParse "https" "example.com" "/" "" "" ""))
        with ["index.html"].
      cbn [removelast].
      rewrite !join_closed_form
        by first [done | repeat constructor; discriminate].
      simpl. by rewrite ?app_empty_r.
Qed.

(** on an empty disk that refuses nothing, the two examples: the body is
    written to the file, whose path is returned *)
Lemma save_path_determined_witness :
  let W := Fixture.world_of Fixture.small_site in
  save_resource (Fixture.html "https://example.com/blog/" "post") "/out"
    "example.com" "https://example.com/blog/" ([] : list (string * string))
  = (Ok "/out/example.com/blog/index.html",
     [("/out/example.com/blog/index.html", "post")])
  /\ save_resource (Fixture.html "https://example.com/" "home") "/out"
       "example.com" "https://example.com/" ([] : list (string * string))
     = (Ok "/out/example.com/index.html",
        [("/out/example.com/index.html", "home")]).
Proof.
  intros W.
  destruct (proj1 (proj2 (proj2 (proj2 (save_path_determined (W := W)))))
              (Fixture.html "https://example.com/blog/" "post") "/out"
              ([] : list (string * string))
              ltac:(discriminate) eq_refl) as [Hblog _].
  destruct (proj1 (proj2 (proj2 (proj2 (save_path_determined (W := W)))))
              (Fixture.html "https://example.com/" "home") "/out"
              ([] : list (string * string))
              ltac:(discriminate) eq_refl) as [_ Hhome].
  split; [rewrite Hblog|rewrite Hhome]; reflexivity.
Defined.

(** ** Strings: membership, slices, searches *)

Lemma mem_app (c : ascii) (a b : string) :
  Str.mem c (a +:+ b) = Str.mem c a || Str.mem c b.
Proof.
  induction a as [|d a IH]; [done|]. rewrite app_cons. simpl.
  by destruct (Ascii.eqb c d).
Qed.

Lemma mem_take (c : ascii) (n : nat) (s : string) :
  Str.mem c s = false -> Str.mem c (Str.take n s) = false.
Proof.
  revert n. induction s as [|d s IH]; intros [|n]; simpl; try done.
  destruct (Ascii.eqb c d); [done|]. apply IH.
Qed.

Lemma mem_drop (c : ascii) (n : nat) (s : string) :
  Str.mem c s = false -> Str.mem c (Str.drop n s) = false.
Proof.
  revert n. induction s as [|d s IH]; intros [|n]; simpl; try done.
  destruct (Ascii.eqb c d); [done|]. apply IH.
Qed.

Lemma mem_lstrip (c : ascii) (P : ascii -> bool) (s : string) :
  Str.mem c s = false -> Str.mem c (Str.lstrip P s) = false.
Proof.
  induction s as [|d s IH]; simpl; [done|].
  destruct (P d); simpl; destruct (Ascii.eqb c d); auto; done.
Qed.

Lemma mem_remove (c d : ascii) (s : string) :
  Str.mem c s = false -> Str.mem c (Str.remove d s) = false.
Proof.
  induction s as [|x s IH]; simpl; [done|].
  destruct (Ascii.eqb c x) eqn:Hcx; [done|]. intros Hs.
  destruct (Ascii.eqb d x); simpl; rewrite ?Hcx; auto.
Qed.

Lemma mem_remove_same (c : ascii) (s : string) :
  Str.mem c (Str.remove c s) = false.
Proof.
  induction s as [|x s IH]; simpl; [done|].
  destruct (Ascii.eqb c x) eqn:Hcx; simpl; by rewrite ?Hcx.
Qed.

Lemma remove_id (c : ascii) (s : string) :
  Str.mem c s = false -> Str.remove c s = s.
Proof.
  induction s as [|x s IH]; simpl; [done|].
  destruct (Ascii.eqb c x); [done|]. intros Hs. by rewrite IH.
Qed.

Lemma remove_app (c : ascii) (a b : string) :
  Str.remove c (a +:+ b) = Str.remove c a +:+ Str.remove c b.
Proof.
  induction a as [|x a IH]; [done|]. rewrite app_cons. simpl.
  destruct (Ascii.eqb c x); by rewrite ?app_cons, IH.
Qed.

Lemma all_mem (P : ascii -> bool) (c : ascii) (s : string) :
  Str.all P s = true -> P c = false -> Str.mem c s = false.
Proof.
  intros Hall Hc. induction s as [|d s IH]; [done|]. simpl in *.
  apply andb_true_iff in Hall as [Hd Hs].
  destruct (Ascii.eqb_spec c d) as [->|_]; [congruence|auto].
Qed.

Lemma all_app (P : ascii -> bool) (a b : string) :
  Str.all P (a +:+ b) = Str.all P a && Str.all P b.
Proof.
  induction a as [|x a IH]; [done|]. rewrite app_cons. simpl.
  by rewrite IH, andb_assoc.
Qed.

Lemma len_app (a b : string) : Str.len (a +:+ b) = Str.len a + Str.len b.
Proof.
  unfold Str.len. induction a as [|x a IH]; [done|].
  rewrite app_cons. simpl. by rewrite IH.
Qed.

Lemma take_app (a b : string) : Str.take (Str.len a) (a +:+ b) = a.
Proof.
  induction a as [|x a IH]; [by destruct b|].
  rewrite app_cons. simpl. by rewrite IH.
Qed.

Lemma drop_app (a b : string) : Str.drop (Str.len a) (a +:+ b) = b.
Proof. induction a as [|x a IH]; [done|]. by rewrite app_cons. Qed.

Lemma take_drop (n : nat) (s : string) : Str.take n s +:+ Str.drop n s = s.
Proof.
  revert n. induction s as [|x s IH]; intros [|n]; simpl; try done.
  by rewrite app_cons, IH.
Qed.

Lemma find_none (c : ascii) (s : string) :
  Str.find c s = None <-> Str.mem c s = false.
Proof.
  induction s as [|d s IH]; simpl; [done|].
  destruct (Ascii.eqb c d); [done|].
  rewrite <- IH. by destruct (Str.find c s).
Qed.

Lemma find_app (c : ascii) (a b : string) :
  Str.mem c a = false ->
  Str.find c (a +:+ String c b) = Some (Str.len a).
Proof.
  induction a as [|d a IH]; simpl.
  - intros _. by rewrite Ascii.eqb_refl.
  - destruct (Ascii.eqb c d) eqn:Hcd; [done|]. intros Ha.
    by rewrite IH.
Qed.

Lemma find_some (c : ascii) (s : string) (i : nat) :
  Str.find c s = Some i ->
  s = Str.take i s +:+ String c (Str.drop (S i) s)
  /\ Str.mem c (Str.take i s) = false
  /\ Str.len (Str.take i s) = i.
Proof.
  revert i. induction s as [|d s IH]; intros i; simpl; [done|].
  destruct (Ascii.eqb_spec c d) as [->|Hcd].
  - by intros [= <-].
  - destruct (Str.find c s) as [j|]; [|done]. simpl. intros [= <-].
    destruct (IH j eq_refl) as (Hs & Hmem & Hlen).
    change (Str.take (S j) (String d s)) with (String d (Str.take j s)).
    change (Str.drop (S (S j)) (String d s)) with (Str.drop (S j) s).
    rewrite app_cons, <- Hs. split_and!; [done| |].
    + simpl. by rewrite (proj2 (Ascii.eqb_neq c d) Hcd).
    + unfold Str.len in *. simpl. by rewrite Hlen.
Qed.

Lemma partition_found (c : ascii) (s : string) :
  Str.mem c s = true ->
  exists a b, Str.partition c s = (a, true, b)
              /\ s = a +:+ String c b /\ Str.mem c a = false.
Proof.
  induction s as [|d s IH]; simpl; [done|].
  destruct (Ascii.eqb_spec c d) as [->|Hcd].
  - intros _. by exists "", s.
  - intros (a & b & -> & Hs & Ha)%IH. exists (String d a), b.
    split_and!; [done|by rewrite app_cons, <- Hs|].
    simpl. by rewrite (proj2 (Ascii.eqb_neq c d) Hcd).
Qed.

Lemma split1_found (c : ascii) (s : string) :
  Str.mem c s = true ->
  s = (Str.split1 c s).1 +:+ String c (Str.split1 c s).2
  /\ Str.mem c (Str.split1 c s).1 = false.
Proof.
  intros (a & b & Hp & Hs & Ha)%partition_found.
  unfold Str.split1. by rewrite Hp.
Qed.

(** ** [_splitnetloc] *)

Lemma opt_min_S (d : nat) (o : option nat) :
  opt_min (S d) (S <$> o) = S (opt_min d o).
Proof. by destruct o. Qed.

Lemma opt_min_0 (o : option nat) : opt_min 0 o = 0.
Proof. by destruct o. Qed.

Lemma opt_min_plus (k d : nat) (o : option nat) :
  opt_min (k + d) ((fun j => k + j) <$> o) = k + opt_min d o.
Proof. destruct o; simpl; lia. Qed.

Lemma opt_min_first_delim (t : string) :
  opt_min (opt_min (opt_min (Str.len t) (Str.find "/" t)) (Str.find "?" t))
    (Str.find "#" t)
  = first_delim t.
Proof.
  induction t as [|c t IH]; [done|].
  cbn [Str.find first_delim]. unfold is_delim.
  change (Str.len (String c t)) with (S (Str.len t)).
  destruct (Ascii.eqb "/" c); cbn [orb].
  { cbn [opt_min Nat.min]. by rewrite !opt_min_0. }
  rewrite opt_min_S. destruct (Ascii.eqb "?" c); cbn [orb].
  { cbn [opt_min Nat.min]. by rewrite !opt_min_0. }
  rewrite opt_min_S. destruct (Ascii.eqb "#" c); cbn [orb]; [done|].
  by rewrite opt_min_S, IH.
Qed.

Lemma len_drop (n : nat) (s : string) :
  n <= Str.len s -> Str.len s = n + Str.len (Str.drop n s).
Proof.
  unfold Str.len. revert n. induction s as [|c s IH]; intros [|n]; simpl;
    try done; try lia.
  intros Hn. rewrite (IH n) at 1 by lia. done.
Qed.

Lemma drop_take_plus (a m : nat) (s : string) :
  Str.drop a (Str.take (a + m) s) = Str.take m (Str.drop a s).
Proof.
  revert s. induction a as [|a IH]; intros s; simpl.
  - by destruct (Str.take m s).
  - destruct s as [|c s]; simpl; [by destruct m|]. apply IH.
Qed.

Lemma drop_drop (a m : nat) (s : string) :
  Str.drop (a + m) s = Str.drop m (Str.drop a s).
Proof.
  revert s. induction a as [|a IH]; intros s; simpl; [done|].
  destruct s as [|c s]; simpl; [by destruct m|]. apply IH.
Qed.

Lemma splitnetloc_spec (url : string) (start : nat) :
  start <= Str.len url ->
  Urllib._splitnetloc url start
  = (Str.take (first_delim (Str.drop start url)) (Str.drop start url),
     Str.drop (first_delim (Str.drop start url)) (Str.drop start url)).
Proof.
  intros Hstart. unfold _splitnetloc, Str.find_from, Str.slice.
  rewrite (proj2 (Nat.ltb_ge (Str.len url) start) Hstart).
  cbn [fold_left]. fold (opt_min (Str.len url)
    ((fun k => start + k) <$> Str.find "/" (Str.drop start url))).
  set (t := Str.drop start url).
  rewrite (len_drop start url Hstart). fold t.
  rewrite opt_min_plus.
  fold (opt_min (start + opt_min (Str.len t) (Str.find "/" t))
          ((fun k => start + k) <$> Str.find "?" t)).
  rewrite opt_min_plus.
  fold (opt_min
          (start + opt_min (opt_min (Str.len t) (Str.find "/" t))
                     (Str.find "?" t))
          ((fun k => start + k) <$> Str.find "#" t)).
  rewrite opt_min_plus, opt_min_first_delim.
  by rewrite drop_take_plus, drop_drop.
Qed.

Lemma take_first_delim (t : string) :
  Str.all (fun c => negb (is_delim c)) (Str.take (first_delim t) t) = true.
Proof.
  induction t as [|c t IH]; [done|]. simpl.
  destruct (is_delim c) eqn:Hc; simpl; [done|]. by rewrite Hc, IH.
Qed.

Lemma drop_first_delim (t : string) :
  at_delim (Str.drop (first_delim t) t).
Proof.
  induction t as [|c t IH]; [by left|]. simpl.
  destruct (is_delim c) eqn:Hc; simpl; [|done]. right. eauto.
Qed.

Lemma first_delim_app (n rest : string) :
  Str.all (fun c => negb (is_delim c)) n = true -> at_delim rest ->
  first_delim (n +:+ rest) = Str.len n.
Proof.
  intros Hn Hrest. induction n as [|c n IH].
  - destruct Hrest as [->|(c & r & -> & Hc)]; [done|].
    rewrite app_empty_l. simpl. by rewrite Hc.
  - simpl in Hn. apply andb_true_iff in Hn as [Hc Hn].
    rewrite app_cons. simpl. apply negb_true_iff in Hc. rewrite Hc.
    unfold Str.len in *. simpl. by rewrite IH.
Qed.

Lemma no_delims (n : string) :
  Str.all (fun c => negb (is_delim c)) n = true <->
  Str.mem "/" n = false /\ Str.mem "?" n = false /\ Str.mem "#" n = false.
Proof.
  induction n as [|c n IH]; [done|]. simpl. unfold is_delim at 1.
  rewrite andb_true_iff, IH.
  destruct (Ascii.eqb "/" c), (Ascii.eqb "?" c), (Ascii.eqb "#" c);
    simpl; intuition congruence.
Qed.

(** ** Scheme names *)

Ltac ascii_cases c :=
  destruct c as [[] [] [] [] [] [] [] []]; vm_compute; try done.

Lemma scheme_char_plain (c : ascii) :
  scheme_char c = true ->
  c0_control_or_space c = false /\ is_delim c = false
  /\ Ascii.eqb ":" c = false /\ Ascii.eqb "009" c = false
  /\ Ascii.eqb "013" c = false /\ Ascii.eqb "010" c = false.
Proof. ascii_cases c. Qed.

Lemma delim_plain (c : ascii) :
  is_delim c = true ->
  c0_control_or_space c = false /\ Str.isascii_alpha c = false
  /\ Ascii.eqb "009" c = false /\ Ascii.eqb "013" c = false
  /\ Ascii.eqb "010" c = false.
Proof. ascii_cases c. Qed.

Lemma alpha_scheme_char (c : ascii) :
  Str.isascii_alpha c = true -> scheme_char c = true.
Proof. ascii_cases c. Qed.

Lemma lower_char_scheme (c : ascii) :
  scheme_char (Str.lower_char c) = scheme_char c
  /\ Str.isascii_alpha (Str.lower_char c) = Str.isascii_alpha c.
Proof. ascii_cases c. Qed.

Lemma lower_all_scheme (s : string) :
  Str.all scheme_char (Str.lower s) = Str.all scheme_char s.
Proof.
  induction s as [|c s IH]; [done|]. simpl.
  by rewrite (proj1 (lower_char_scheme c)), IH.
Qed.

Lemma good_scheme_lower (sch : string) :
  good_scheme sch -> good_scheme (Str.lower sch).
Proof.
  intros (c & rest & -> & Hc & Hall). exists (Str.lower_char c), (Str.lower rest).
  split_and!; [done| |].
  - by rewrite (proj2 (lower_char_scheme c)).
  - by rewrite lower_all_scheme.
Qed.

Lemma scheme_mem (sch : string) (c : ascii) :
  Str.all scheme_char sch = true -> scheme_char c = false ->
  Str.mem c sch = false.
Proof. apply all_mem. Qed.

Lemma scheme_no_unsafe (sch : string) :
  Str.all scheme_char sch = true -> no_unsafe sch.
Proof.
  intros Hall.
  split_and!; (apply (all_mem scheme_char); [done|reflexivity]).
Qed.

Lemma remove_unsafe_id (s : string) : no_unsafe s -> remove_unsafe s = s.
Proof.
  intros (H9 & H13 & H10). unfold remove_unsafe.
  by rewrite (remove_id "009"), (remove_id "013"), (remove_id "010").
Qed.

Lemma remove_unsafe_app (a b : string) :
  remove_unsafe (a +:+ b) = remove_unsafe a +:+ remove_unsafe b.
Proof. unfold remove_unsafe. by rewrite !remove_app. Qed.

Lemma remove_unsafe_clean (s : string) : no_unsafe (remove_unsafe s).
Proof.
  unfold remove_unsafe. split_and!.
  - apply mem_remove, mem_remove, mem_remove_same.
  - apply mem_remove, mem_remove_same.
  - apply mem_remove_same.
Qed.

Lemma remove_unsafe_mem (c : ascii) (s : string) :
  Str.mem c s = false -> Str.mem c (remove_unsafe s) = false.
Proof. intros Hs. unfold remove_unsafe. by do 3 apply mem_remove. Qed.

Lemma remove_unsafe_at_delim (rest : string) :
  at_delim rest -> at_delim (remove_unsafe rest).
Proof.
  intros [->|(c & r & -> & Hc)]; [by left|]. right.
  destruct (delim_plain c Hc) as (_ & _ & H9 & H13 & H10).
  exists c, (remove_unsafe r). split; [|done].
  unfold remove_unsafe. cbn [Str.remove]. rewrite H9. cbn [Str.remove].
  rewrite H13. cbn [Str.remove]. by rewrite H10.
Qed.

Lemma no_unsafe_take (n : nat) (s : string) :
  no_unsafe s -> no_unsafe (Str.take n s).
Proof. intros (? & ? & ?). by split_and!; apply mem_take. Qed.

Lemma no_unsafe_drop (n : nat) (s : string) :
  no_unsafe s -> no_unsafe (Str.drop n s).
Proof. intros (? & ? & ?). by split_and!; apply mem_drop. Qed.

(** *** The scheme test of [urlsplit] *)

Lemma drop_app_cons (a : string) (c : ascii) (b : string) :
  Str.drop (S (Str.len a)) (a +:+ String c b) = b.
Proof. induction a as [|x a IH]; [done|]. by rewrite app_cons. Qed.

Lemma split_scheme_good (sch rest : string) :
  good_scheme sch ->
  split_scheme (sch +:+ String ":" rest) = Some (Str.lower sch, rest).
Proof.
  intros (c & tl & -> & Hc & Hall). unfold split_scheme.
  rewrite find_app by (apply (all_mem scheme_char); [done|reflexivity]).
  rewrite take_app, drop_app_cons, app_cons, Hc, Hall. done.
Qed.

Lemma split_scheme_slash (s : string) :
  split_scheme (String "/" s) = None.
Proof.
  unfold split_scheme. destruct (Str.find ":" (String "/" s)) as [i|]; [|done].
  by destruct (0 <? i).
Qed.

Lemma split_scheme_some (url sch rest : string) :
  split_scheme url = Some (sch, rest) ->
  good_scheme sch
  /\ exists i, rest = Str.drop (S i) url.
Proof.
  unfold split_scheme. destruct (Str.find ":" url) as [i|] eqn:Hfind; [|done].
  destruct url as [|c0 url]; [done|].
  destruct (0 <? i) eqn:Hi; [|done].
  destruct (Str.isascii_alpha c0) eqn:Hc0; [|done].
  destruct (Str.all scheme_char (Str.take i (String c0 url))) eqn:Hall;
    [|done].
  simpl. intros [= <- <-]. split; [|by exists i].
  apply good_scheme_lower. apply Nat.ltb_lt in Hi.
  destruct i as [|i]; [lia|]. exists c0, (Str.take i url). done.
Qed.

(** ** What [urlsplit] returns *)

Lemma within_refl (s : string) : within s s.
Proof. by intros c. Qed.

Lemma within_trans (a b s : string) : within a b -> within b s -> within a s.
Proof. intros Hab Hbs c Hc. auto. Qed.

Lemma within_take (n : nat) (s : string) : within (Str.take n s) s.
Proof. intros c. apply mem_take. Qed.

Lemma within_drop (n : nat) (s : string) : within (Str.drop n s) s.
Proof. intros c. apply mem_drop. Qed.

Lemma within_lstrip (P : ascii -> bool) (s : string) :
  within (Str.lstrip P s) s.
Proof. intros c. apply mem_lstrip. Qed.

Lemma within_remove_unsafe (s : string) : within (remove_unsafe s) s.
Proof. intros c. apply remove_unsafe_mem. Qed.

Lemma within_empty (s : string) : within "" s.
Proof. by intros c. Qed.

Lemma within_split1 (d : ascii) (s : string) :
  Str.mem d s = true ->
  within (Str.split1 d s).1 s /\ within (Str.split1 d s).2 s.
Proof.
  intros (Hs & _)%split1_found. split; intros c Hc; rewrite Hs in Hc;
    rewrite mem_app in Hc; apply orb_false_iff in Hc as [Ha Hb]; [done|].
  simpl in Hb. by destruct (Ascii.eqb c d).
Qed.

Lemma within_no_unsafe (a s : string) :
  within a s -> no_unsafe s -> no_unsafe a.
Proof. intros Ha (? & ? & ?). split_and!; by apply Ha. Qed.

Lemma check_netloc_empty : check_netloc_brackets "" = Ok tt.
Proof. reflexivity. Qed.

Lemma split_tail_spec (url : string) :
  let '(p, q, f) := split_tail url in
  within p url /\ within q url /\ within f url
  /\ Str.mem "?" p = false /\ Str.mem "#" p = false
  /\ (Str.mem "#" url = false -> f = "")
  /\ (Str.mem "?" url = false -> q = "").
Proof.
  unfold split_tail.
  destruct (Str.mem "#" url) eqn:Hf.
  - destruct (within_split1 "#" url Hf) as [Hw1 Hw2].
    destruct (split1_found "#" url Hf) as [_ Hno].
    destruct (Str.split1 "#" url) as [u4 f]. simpl in *.
    destruct (Str.mem "?" u4) eqn:Hq.
    + destruct (within_split1 "?" u4 Hq) as [Hw3 Hw4].
      destruct (split1_found "?" u4 Hq) as [_ Hno'].
      destruct (Str.split1 "?" u4) as [u5 q]. simpl in *.
      split_and!; eauto using within_trans; [done|].
      intros Hq'. apply Hw1 in Hq'. congruence.
    + split_and!; eauto using within_empty; done.
  - destruct (Str.mem "?" url) eqn:Hq.
    + destruct (within_split1 "?" url Hq) as [Hw3 Hw4].
      destruct (split1_found "?" url Hq) as [_ Hno'].
      destruct (Str.split1 "?" url) as [u5 q]. simpl in *.
      split_and!; eauto using within_empty; done.
    + split_and!; eauto using within_empty, within_refl.
Qed.

(** [urlsplit], stage by stage *)
Lemma urlsplit_unfold (url dflt : string) :
  urlsplit url dflt
  = let url1 := remove_unsafe (Str.lstrip c0_control_or_space url) in
    let dflt1 := remove_unsafe (Str.strip c0_control_or_space dflt) in
    let su := match split_scheme url1 with
              | Some (sch, rest) => (sch, rest)
              | None => (dflt1, url1)
              end in
    nu ← (if decide (Str.take 2 su.2 = "//") then
            let nu := _splitnetloc su.2 2 in
            _ ← check_netloc_brackets nu.1; Ok nu
          else Ok ("", su.2));
    let '(p, q, f) := split_tail nu.2 in
    Ok (mkSplit su.1 nu.1 p q f).
Proof.
  unfold urlsplit, split_tail. cbv zeta.
  destruct (split_scheme _) as [[sch rest]|]; cbn [fst snd];
    destruct (decide _); try destruct (_splitnetloc _ 2) as [n u];
    cbn [fst snd]; try destruct (check_netloc_brackets _) as [[]|];
    cbn [mbind result_bind Py.bind fst snd]; try done;
    destruct (Str.mem "#" _); try destruct (Str.split1 "#" _);
    destruct (Str.mem "?" _); try destruct (Str.split1 "?" _); done.
Qed.

Lemma take2_len (s : string) : Str.take 2 s = "//" -> 2 <= Str.len s.
Proof.
  destruct s as [|a [|b s]]; [done..|]. unfold Str.len. simpl. lia.
Qed.

Lemma urlsplit_inv (url dflt : string) (r : SplitResult) :
  urlsplit url dflt = Ok r ->
  within (s_netloc r) (remove_unsafe (Str.lstrip c0_control_or_space url))
  /\ within (s_path r) (remove_unsafe (Str.lstrip c0_control_or_space url))
  /\ within (s_query r) (remove_unsafe (Str.lstrip c0_control_or_space url))
  /\ within (s_fragment r)
       (remove_unsafe (Str.lstrip c0_control_or_space url))
  /\ check_netloc_brackets (s_netloc r) = Ok tt
  /\ Str.all (fun c => negb (is_delim c)) (s_netloc r) = true
  /\ Str.mem "?" (s_path r) = false /\ Str.mem "#" (s_path r) = false
  /\ (s_scheme r = remove_unsafe (Str.strip c0_control_or_space dflt)
      \/ good_scheme (s_scheme r))
  /\ (Str.mem "#" url = false -> s_fragment r = "")
  /\ (Str.mem "?" url = false -> s_query r = "").
Proof.
  rewrite urlsplit_unfold. cbv zeta.
  assert (within (remove_unsafe (Str.lstrip c0_control_or_space url)) url)
    as Hurl1 by eauto using within_trans, within_remove_unsafe, within_lstrip.
  revert Hurl1.
  set (url1 := remove_unsafe (Str.lstrip c0_control_or_space url)).
  set (dflt1 := remove_unsafe (Str.strip c0_control_or_space dflt)).
  intros Hurl1.
  assert (exists sch rest,
    match split_scheme url1 with
    | Some (sch, rest) => (sch, rest)
    | None => (dflt1, url1)
    end = (sch, rest)
    /\ within rest url1 /\ (sch = dflt1 \/ good_scheme sch))
    as (sch & rest & -> & Hrest & Hsch).
  { destruct (split_scheme url1) as [[sch rest]|] eqn:Hss.
    - apply split_scheme_some in Hss as (Hgood & i & ->).
      exists sch, (Str.drop (S i) url1). eauto using within_drop.
    - exists dflt1, url1. eauto using within_refl. }
  cbn [fst snd].
  assert (forall n u,
    within n url1 -> within u url1 ->
    check_netloc_brackets n = Ok tt ->
    Str.all (fun c => negb (is_delim c)) n = true ->
    (let '(p, q, f) := split_tail u in Ok (mkSplit sch n p q f)) = Ok r ->
    within (s_netloc r) url1 /\ within (s_path r) url1
    /\ within (s_query r) url1 /\ within (s_fragment r) url1
    /\ check_netloc_brackets (s_netloc r) = Ok tt
    /\ Str.all (fun c => negb (is_delim c)) (s_netloc r) = true
    /\ Str.mem "?" (s_path r) = false /\ Str.mem "#" (s_path r) = false
    /\ (s_scheme r = dflt1 \/ good_scheme (s_scheme r))
    /\ (Str.mem "#" url = false -> s_fragment r = "")
    /\ (Str.mem "?" url = false -> s_query r = "")) as Htail.
  { intros n u Hn Hu Hcheck Hdelim. pose proof (split_tail_spec u) as Hspec.
    destruct (split_tail u) as [[p q] f].
    destruct Hspec as (Hp & Hq & Hf & Hno1 & Hno2 & Hfrag & Hquery).
    intros [= <-]. simpl. split_and!; eauto using within_trans. }
  destruct (decide (Str.take 2 rest = "//")) as [Hslash|Hslash].
  - rewrite splitnetloc_spec by (by apply take2_len). cbn [fst snd].
    intros Hr.
    destruct (check_netloc_brackets
                (Str.take (first_delim (Str.drop 2 rest)) (Str.drop 2 rest)))
      as [[]|] eqn:Hcheck;
      cbn [mbind result_bind Py.bind fst snd] in Hr; [|done].
    revert Hr. apply Htail; [..|done|].
    + eauto using within_trans, within_take, within_drop.
    + eauto using within_trans, within_take, within_drop.
    + apply take_first_delim.
  - cbn [mbind result_bind Py.bind fst snd].
    apply Htail; eauto using within_empty.
Qed.

(** whether [urlsplit] returns does not depend on the default scheme, nor
    does the netloc it finds *)
Lemma urlsplit_default (url d1 d2 : string) (r1 : SplitResult) :
  urlsplit url d1 = Ok r1 ->
  exists r2, urlsplit url d2 = Ok r2 /\ s_netloc r2 = s_netloc r1.
Proof.
  rewrite !urlsplit_unfold. cbv zeta.
  destruct (split_scheme _) as [[sch rest]|]; cbn [fst snd];
    (destruct (decide _);
     [destruct (check_netloc_brackets _) as [[]|]|];
     cbn [mbind result_bind Py.bind fst snd]; try done;
     destruct (split_tail _) as [[p q] f]; intros [= <-]; eauto).
Qed.

(** *** What [urlparse] returns *)

Lemma splitparams_within (url : string) :
  within (_splitparams url).1 url /\ within (_splitparams url).2 url.
Proof.
  unfold _splitparams. destruct (Str.mem "/" url).
  - destruct (Str.find_from _ _ _); cbn [fst snd]; split;
      eauto using within_take, within_drop, within_refl, within_empty.
  - destruct (Str.find _ _); cbn [fst snd]; split;
      eauto using within_take, within_drop, within_refl.
Qed.

Lemma urlparse_with_inv (url dflt : string) (p : ParseResult) :
  urlparse_with url dflt = Ok p ->
  exists r,
    urlsplit url dflt = Ok r
    /\ scheme p = s_scheme r /\ netloc p = s_netloc r
    /\ query p = s_query r /\ fragment p = s_fragment r
    /\ within (path p) (s_path r) /\ within (params p) (s_path r).
Proof.
  unfold urlparse_with. destruct (urlsplit url dflt) as [r|]; [|done].
  cbn [mbind result_bind Py.bind]. exists r.
  destruct (splitparams_within (s_path r)) as [H1 H2].
  destruct (bool_decide _ && Str.mem ";" (s_path r));
    [destruct (_splitparams (s_path r))|]; simplify_eq/=;
    eauto 10 using within_refl, within_empty.
Qed.

(** *** What [urlunsplit] builds *)

Lemma urlunsplit_mem (c : ascii) (sch n url : string) :
  Ascii.eqb c "/" = false -> Ascii.eqb c ":" = false ->
  Str.mem c sch = false -> Str.mem c n = false -> Str.mem c url = false ->
  Str.mem c (urlunsplit sch n url "" "") = false.
Proof.
  intros Hslash Hcolon Hsch Hn Hurl. unfold urlunsplit.
  rewrite (bool_decide_eq_true_2 ("" = "")) by done. cbn [negb].
  repeat match goal with
         | |- context [if ?b then _ else _] => destruct b
         end;
    rewrite ?mem_app; cbn [Str.mem]; rewrite ?Hslash, ?Hcolon, ?Hsch, ?Hn, ?Hurl;
    done.
Qed.

Lemma clean_link_mem (c : ascii) (p : ParseResult) :
  Ascii.eqb c "/" = false -> Ascii.eqb c ":" = false ->
  Ascii.eqb c ";" = false ->
  Str.mem c (scheme p) = false -> Str.mem c (netloc p) = false ->
  Str.mem c (path p) = false -> Str.mem c (params p) = false ->
  Str.mem c (clean_link p) = false.
Proof.
  intros Hslash Hcolon Hsemi Hsch Hn Hpath Hparams.
  unfold clean_link, urlunparse. cbn [scheme netloc path params query fragment].
  apply urlunsplit_mem; [done..|].
  destruct (negb _); [|done].
  rewrite !mem_app. cbn [Str.mem]. by rewrite Hsemi, Hpath, Hparams.
Qed.

Lemma strip_empty (P : ascii -> bool) : Str.strip P "" = "".
Proof. reflexivity. Qed.

(** the scheme [urlparse] finds has none of the characters that are not
    scheme characters *)
Lemma urlparse_scheme_mem (url : string) (p : ParseResult) (c : ascii) :
  urlparse url = Ok p -> scheme_char c = false -> Str.mem c (scheme p) = false.
Proof.
  intros (r & Hr & -> & _)%urlparse_with_inv Hc.
  apply urlsplit_inv in Hr
    as (_ & _ & _ & _ & _ & _ & _ & _ & [->|(c0 & tl & Hs & _ & Hall)] & _).
  - reflexivity.
  - by apply (all_mem scheme_char).
Qed.

Lemma normalize_no_query_fragment (link u : string) :
  normalize link = Ok u -> Str.mem "?" u = false /\ Str.mem "#" u = false.
Proof.
  unfold normalize. destruct (urlparse link) as [p|] eqn:Hp; [|done].
  cbn [mbind result_bind Py.bind]. intros [= <-].
  pose proof (urlparse_scheme_mem link p "?" Hp eq_refl) as Hs1.
  pose proof (urlparse_scheme_mem link p "#" Hp eq_refl) as Hs2.
  apply urlparse_with_inv in Hp
    as (r & Hr & Hsch & Hn & _ & _ & Hpath & Hparams).
  apply urlsplit_inv in Hr
    as (_ & _ & _ & _ & _ & Hdelim & Hq & Hf & _).
  apply no_delims in Hdelim as (_ & Hnq & Hnf).
  split; apply clean_link_mem; rewrite ?Hn; auto.
Qed.

Lemma urlparse_no_query_fragment (u : string) (p : ParseResult) :
  urlparse u = Ok p ->
  Str.mem "?" u = false -> Str.mem "#" u = false ->
  query p = "" /\ fragment p = "".
Proof.
  intros (r & Hr & _ & _ & -> & -> & _)%urlparse_with_inv Hq Hf.
  apply urlsplit_inv in Hr as (_ & _ & _ & _ & _ & _ & _ & _ & _ & Hf' & Hq').
  auto.
Qed.

(** ** Enqueued links carry no query and no fragment *)

Section Enqueued.
Context `{W : World}.

Lemma enqueued_no_query_fragment (base_domain : string) (st : state)
    (u : string) :
  enqueued_by base_domain st u -> no_query_fragment u.
Proof.
  intros (link & Hnorm & Hvalid & _).
  apply normalize_no_query_fragment in Hnorm as [Hq Hf].
  split_and!; [done..|]. unfold is_valid in Hvalid.
  destruct (urlparse u) as [p|] eqn:Hp; [|done]. exists p.
  split; [done|]. eauto using urlparse_no_query_fragment.
Qed.

Lemma pass_enqueues_clean (output_dir base_domain : string)
    (max_depth : option Z) (verbose : bool) (url : string) (depth : Z)
    (st : state) :
  exists new,
    queue (state_of_pass
             (crawl_pass output_dir base_domain max_depth verbose url depth
                st))
    = queue st ++ new
    /\ Forall (fun e => e.2 = (depth + 1)%Z /\ no_query_fragment e.1) new.
Proof.
  destruct (crawl_pass_kind output_dir base_domain max_depth verbose url
              depth st)
    as [_ Hq _ _|_ _ _ Hq _|new _ _ _ _ Hq Hnew].
  - exists []. by rewrite app_nil_r.
  - exists []. by rewrite app_nil_r.
  - exists new. split; [done|]. eapply Forall_impl; [exact Hnew|].
    intros [u k] [Hk Hu]. eauto using enqueued_no_query_fragment.
Qed.

Lemma frontier_clean_loop (output_dir base_domain : string)
    (max_depth : option Z) (verbose : bool) (fuel : nat) (st : state) :
  frontier_clean st ->
  frontier_clean
    (final_state
       (crawl_loop output_dir base_domain max_depth verbose fuel st)).
Proof.
  apply crawl_loop_invariant; [done|].
  intros st' url depth rest Hinv Hqueue. unfold frontier_clean.
  assert ((0 <= depth)%Z /\ ((1 <= depth)%Z -> no_query_fragment url))
    as Hhead.
  { apply Hinv. rewrite Hqueue. left. }
  assert (forall u k, (u, k) ∈ rest ++ log st' ->
            (0 <= k)%Z /\ ((1 <= k)%Z -> no_query_fragment u)) as Hrest.
  { intros u k Hin. apply Hinv. rewrite Hqueue. by right. }
  set (st0 := mkState (visited st') rest (log st') (world st')).
  destruct (pass_enqueues_clean output_dir base_domain max_depth verbose url
              depth st0)
    as (new & Hq & Hnew).
  destruct (crawl_pass_kind output_dir base_domain max_depth verbose url
              depth st0)
    as [_ Hq' Hl _|_ _ _ Hq' Hl|new' _ _ _ Hl _ _].
  - by rewrite Hq', Hl.
  - by rewrite Hq', Hl.
  - intros u k. rewrite Hq, Hl. simpl.
    rewrite <- app_assoc, (app_assoc new), !elem_of_app.
    intros [Hin|[[Hin|Hin]|Hin]].
    + apply Hrest. apply elem_of_app. by left.
    + apply (proj1 (Forall_forall _ _) Hnew) in Hin as [Hk Hclean].
      simpl in *. split; [lia|done].
    + apply Hrest. apply elem_of_app. by right.
    + apply list_elem_of_singleton in Hin as [= -> ->]. done.
Qed.

End Enqueued.

(** C10.  Every URL that the link-processing step enqueues, at a depth of
    1 or more, has no query string and no fragment, in the frontier and
    when it is requested; the first entry of the frontier is the start URL
    after redirects, as the server gave it: a start URL with a query
    string is requested and saved with it. *)
Theorem enqueued_links_clean `{W : World} :
  (forall (output_dir base_domain : string) (max_depth : option Z)
          (verbose : bool) (url : string) (depth : Z) (st : state),
     exists new,
       queue (state_of_pass
                (crawl_pass output_dir base_domain max_depth verbose url
                   depth st))
       = queue st ++ new
       /\ Forall (fun e => e.2 = (depth + 1)%Z /\ no_query_fragment e.1) new)
  /\ (forall (url output_dir : string) (max_depth : option Z)
             (verbose : bool) (fuel : nat) (w : env) (u : string) (k : Z),
        let st :=
          final_state (crawl url output_dir max_depth verbose fuel w).2 in
        (u, k) ∈ queue st ++ log st -> (1 <= k)%Z -> no_query_fragment u)
  /\ (let run :=
        Fixture.crawl_site Fixture.search_page "https://example.com/?q=1"
          "/out" None 10 in
      Str.mem "?" "https://example.com/?q=1" = true
      /\ exists st,
           run.2 = Drained st
           /\ log st = [("https://example.com/?q=1", 0%Z);
                        ("https://example.com/a", 1%Z);
                        ("https://example.com/b", 1%Z)]
           /\ world st = [("/out/example.com/index.html", "home")]).
Proof.
  split_and!.
  - apply pass_enqueues_clean.
  - intros url output_dir max_depth verbose fuel w u k st Hin Hk.
    assert (frontier_clean st) as Hclean.
    { subst st. unfold crawl.
      destruct (os_makedirs output_dir w) as [[[]|e] w1];
        [|by intros ? ? ?%elem_of_nil].
      destruct (announce verbose url output_dir w1) as [[[]|e] w1'];
        [|by intros ? ? ?%elem_of_nil].
      destruct (requests_get url w1') as [[response|e] w2];
        [|by intros ? ? ?%elem_of_nil].
      destruct (negb (status_code response =? 200)%Z).
      { destruct (initial_error _ w2) as [e w3].
        by intros ? ? ?%elem_of_nil. }
      destruct (urlparse (r_url response)) as [parsed|e];
        [|by intros ? ? ?%elem_of_nil].
      apply frontier_clean_loop. intros u' k' Hin'. simpl in Hin'.
      apply list_elem_of_singleton in Hin' as [= -> ->]. split; lia. }
    by apply (Hclean u k).
  - split; [reflexivity|]. eexists. split_and!; [by vm_compute|done..].
Qed.

Lemma enqueued_links_clean_witness :
  no_query_fragment "https://example.com/b".
Proof.
  apply (proj1 (proj2 (enqueued_links_clean
                         (W := Fixture.world_of Fixture.small_site)))
           "https://example.com/" "/out" None false 10
           ([] : list (string * string)) "https://example.com/b" 1%Z).
  - vm_compute. repeat constructor.
  - lia.
Defined.

(** ** Parsing what [urlunsplit] built *)

Lemma lstrip_head (P : ascii -> bool) (c : ascii) (s : string) :
  P c = false -> Str.lstrip P (String c s) = String c s.
Proof. intros Hc. simpl. by rewrite Hc. Qed.

Lemma good_scheme_no_unsafe (sch : string) :
  good_scheme sch -> no_unsafe sch.
Proof. intros (c & tl & _ & _ & Hall). by apply scheme_no_unsafe. Qed.

Lemma split_tail_returns (sch n u : string) :
  exists r,
    (let '(p, q, f) := split_tail u in Ok (mkSplit sch n p q f)) = Ok r
    /\ s_netloc r = n.
Proof. destruct (split_tail u) as [[p q] f]. eauto. Qed.

Lemma splitnetloc_rebuilt (n rest : string) :
  Str.all (fun c => negb (is_delim c)) n = true -> at_delim rest ->
  _splitnetloc ("//" +:+ n +:+ rest) 2 = (n, rest).
Proof.
  intros Hn Hrest. rewrite splitnetloc_spec.
  - change (Str.drop 2 ("//" +:+ n +:+ rest)) with (n +:+ rest).
    by rewrite first_delim_app, take_app, drop_app.
  - change ("//" +:+ n +:+ rest) with (String "/" (String "/" (n +:+ rest))).
    unfold Str.len. simpl. lia.
Qed.

(** a string made of a scheme, [//], a netloc and a tail is split at the
    same netloc; [urlsplit] returns when the netloc passes its test *)
Lemma urlsplit_rebuilt (sch n rest dflt : string) :
  scheme_or_none sch ->
  Str.all (fun c => negb (is_delim c)) n = true -> no_unsafe n ->
  at_delim rest ->
  check_netloc_brackets n = Ok tt ->
  exists r,
    urlsplit (scheme_prefix sch +:+ "//" +:+ n +:+ rest) dflt = Ok r
    /\ s_netloc r = n.
Proof.
  intros Hsch Hn Hsafe Hrest Hcheck. rewrite urlsplit_unfold. cbv zeta.
  apply remove_unsafe_at_delim in Hrest.
  destruct Hsch as [->|Hgood].
  - change (scheme_prefix "" +:+ "//" +:+ n +:+ rest)
      with (String "/" (String "/" (n +:+ rest))).
    rewrite lstrip_head by done.
    change (String "/" (String "/" (n +:+ rest))) with ("//" +:+ n +:+ rest).
    rewrite !remove_unsafe_app, (remove_unsafe_id n) by done.
    change (remove_unsafe "//") with "//".
    rewrite (split_scheme_slash (String "/" (n +:+ remove_unsafe rest))
             : split_scheme ("//" +:+ n +:+ remove_unsafe rest) = None).
    cbn [fst snd].
    rewrite decide_True by done.
    rewrite splitnetloc_rebuilt by done. cbn [fst snd]. rewrite Hcheck.
    cbn [mbind result_bind Py.bind fst snd]. apply split_tail_returns.
  - unfold scheme_prefix.
    assert (sch ≠ "") as Hne by (by destruct Hgood as (c & tl & -> & _)).
    rewrite bool_decide_eq_false_2 by done. cbn [negb].
    pose proof (good_scheme_no_unsafe sch Hgood) as Hsafe'.
    destruct Hgood as (c & tl & -> & Hc & Hall).
    rewrite !app_cons.
    rewrite lstrip_head
      by (by destruct (scheme_char_plain c (alpha_scheme_char c Hc))).
    rewrite <- !app_cons.
    rewrite !remove_unsafe_app, (remove_unsafe_id n),
      (remove_unsafe_id (String c tl)) by done.
    change (remove_unsafe ":") with ":". change (remove_unsafe "//") with "//".
    rewrite app_assoc_str.
    change (":" +:+ "//" +:+ n +:+ remove_unsafe rest)
      with (String ":" ("//" +:+ n +:+ remove_unsafe rest)).
    rewrite split_scheme_good by (by exists c, tl). cbn [fst snd].
    rewrite decide_True by done.
    rewrite splitnetloc_rebuilt by done. cbn [fst snd]. rewrite Hcheck.
    cbn [mbind result_bind Py.bind fst snd]. apply split_tail_returns.
Qed.

Lemma take1_slash (url : string) :
  Str.take 1 url = "/" -> exists tl, url = String "/" tl.
Proof.
  destruct url as [|c tl]; [done|]. simpl. destruct tl; intros [= ->]; eauto.
Qed.

(** with a netloc, [urlunsplit] writes the scheme, [//], the netloc and a
    tail that is empty or opens with a delimiter *)
Lemma urlunsplit_shape (sch n url q f : string) :
  n ≠ "" ->
  exists rest,
    urlunsplit sch n url q f = scheme_prefix sch +:+ "//" +:+ n +:+ rest
    /\ at_delim rest.
Proof.
  intros Hn. unfold urlunsplit.
  rewrite (bool_decide_eq_false_2 (n = "")) by done. cbn [negb orb].
  set (url' := if negb (bool_decide (url = ""))
                  && negb (bool_decide (Str.take 1 url = "/"))
               then "/" +:+ url else url).
  set (qpart := if negb (bool_decide (q = "")) then "?" +:+ q else "").
  set (fpart := if negb (bool_decide (f = "")) then "#" +:+ f else "").
  exists (url' +:+ qpart +:+ fpart). split.
  - unfold scheme_prefix, qpart, fpart.
    destruct (negb (bool_decide (sch = ""))),
      (negb (bool_decide (q = ""))), (negb (bool_decide (f = "")));
      by rewrite ?app_assoc_str, ?app_empty_r, ?app_empty_l.
  - assert (at_delim (qpart +:+ fpart)) as Htail.
    { unfold qpart, fpart.
      destruct (negb (bool_decide (q = "")));
        [right; exists "?"%char; by eexists|].
      destruct (negb (bool_decide (f = ""))); [right; by exists "#"%char, f|].
      by left. }
    unfold url'. case_bool_decide as Hurl; cbn [negb andb].
    + by rewrite Hurl, app_empty_l.
    + case_bool_decide as Htake; cbn [negb].
      * apply take1_slash in Htake as [tl ->]. right.
        exists "/"%char, (tl +:+ qpart +:+ fpart). by rewrite app_cons.
      * right. exists "/"%char, (url +:+ qpart +:+ fpart).
        by rewrite app_assoc_str.
Qed.

Lemma urlparse_with_returns (url d1 d2 : string) (p1 : ParseResult) :
  urlparse_with url d1 = Ok p1 -> exists p2, urlparse_with url d2 = Ok p2.
Proof.
  intros (r & Hr & _)%urlparse_with_inv.
  destruct (urlsplit_default url d1 d2 r Hr) as (r2 & Hr2 & _).
  unfold urlparse_with. rewrite Hr2. cbn [mbind result_bind Py.bind].
  destruct (bool_decide _ && _); [destruct (_splitparams _)|]; eauto.
Qed.

Lemma urlparse_rebuilt (p : ParseResult) :
  scheme_or_none (scheme p) ->
  netloc p ≠ "" ->
  Str.all (fun c => negb (is_delim c)) (netloc p) = true ->
  no_unsafe (netloc p) ->
  check_netloc_brackets (netloc p) = Ok tt ->
  exists p', urlparse (urlunparse p) = Ok p'.
Proof.
  intros Hsch Hne Hdelim Hsafe Hcheck. unfold urlunparse.
  destruct (urlunsplit_shape (scheme p) (netloc p)
              (if negb (bool_decide (params p = ""))
               then path p +:+ ";" +:+ params p else path p)
              (query p) (fragment p) Hne) as (rest & -> & Hrest).
  destruct (urlsplit_rebuilt (scheme p) (netloc p) rest "" Hsch Hdelim Hsafe
              Hrest Hcheck) as (r & Hr & _).
  unfold urlparse, urlparse_with. rewrite Hr.
  cbn [mbind result_bind Py.bind].
  destruct (bool_decide _ && _); [destruct (_splitparams _)|]; eauto.
Qed.

(** what a parse tells of its scheme and its netloc *)
Lemma urlparse_with_parts (url dflt : string) (p : ParseResult) :
  urlparse_with url dflt = Ok p ->
  (scheme p = remove_unsafe (Str.strip c0_control_or_space dflt)
   \/ good_scheme (scheme p))
  /\ Str.all (fun c => negb (is_delim c)) (netloc p) = true
  /\ no_unsafe (netloc p)
  /\ check_netloc_brackets (netloc p) = Ok tt.
Proof.
  intros (r & Hr & -> & -> & _)%urlparse_with_inv.
  apply urlsplit_inv in Hr as (Hw & _ & _ & _ & Hcheck & Hdelim & _ & _ & Hsch & _).
  split_and!; [done..| |done].
  eapply within_no_unsafe; [exact Hw|]. apply remove_unsafe_clean.
Qed.

Lemma uses_relative_netloc (sch : string) :
  sch ∈ uses_relative -> sch ∈ uses_netloc.
Proof.
  assert (Forall (fun s => s ∈ uses_netloc) uses_relative) as Hall.
  { unfold uses_relative, uses_netloc. repeat constructor. }
  intros Hin. by apply (proj1 (Forall_forall _ _) Hall).
Qed.

(** ** Normalization returns on every extracted link *)

Lemma normalize_returns_iff (link : string) :
  (exists p, urlparse link = Ok p) -> exists clean, normalize link = Ok clean.
Proof. intros [p Hp]. unfold normalize. rewrite Hp. simpl. eauto. Qed.

Lemma urlparse_empty_netloc : urlparse "" = Ok (mkParse "" "" "" "" "" "").
Proof. reflexivity. Qed.

Lemma urljoin_parses (base url link : string) (bp : ParseResult) :
  urlparse base = Ok bp -> netloc bp ≠ "" ->
  urljoin base url = Ok link ->
  exists p, urlparse link = Ok p.
Proof.
  intros Hbase Hnetloc. unfold urljoin.
  destruct (decide (base = "")) as [->|_].
  { rewrite urlparse_empty_netloc in Hbase. by simplify_eq. }
  destruct (decide (url = "")) as [->|_].
  { intros [= <-]. eauto. }
  fold (urlparse base). rewrite Hbase. cbn [mbind result_bind Py.bind].
  destruct (urlparse_with url (scheme bp)) as [u|] eqn:Hu; [|done].
  cbn [mbind result_bind Py.bind].
  destruct (urlparse_with_parts base "" bp Hbase)
    as (Hbsch & Hbdelim & Hbsafe & Hbcheck).
  assert (scheme_or_none (scheme bp)) as Hbsch' by done.
  destruct (urlparse_with_parts url (scheme bp) u Hu)
    as (_ & Hudelim & Husafe & Hucheck).
  case_bool_decide as Hsame; cbn [negb orb].
  2: { intros [= <-]. eapply urlparse_with_returns, Hu. }
  case_bool_decide as Hrel; cbn [negb].
  2: { intros [= <-]. eapply urlparse_with_returns, Hu. }
  rewrite (bool_decide_eq_true_2 _ (uses_relative_netloc _ Hrel)).
  cbn [andb].
  case_bool_decide as Hunet; cbn [negb].
  - destruct (bool_decide (path u = "") && bool_decide (params u = ""));
      intros [= <-]; apply urlparse_rebuilt;
      cbn [scheme netloc]; rewrite ?Hsame; done.
  - intros [= <-]. apply urlparse_rebuilt; rewrite ?Hsame; done.
Qed.

Section Normalization.
Context `{W : World}.

Lemma map_urljoin_parses (base : string) (bp : ParseResult)
    (raws links : list string) :
  urlparse base = Ok bp -> netloc bp ≠ "" ->
  map_result (urljoin base) raws = Ok links ->
  Forall (fun link => exists clean, normalize link = Ok clean) links.
Proof.
  intros Hbase Hnetloc Hmap%map_result_Forall2.
  induction Hmap as [|raw link raws links Hjoin _ IH]; constructor; [|done].
  eauto using normalize_returns_iff, urljoin_parses.
Qed.

(** C8.  The normalization of the enqueue step (parse, drop query and
    fragment, serialize) returns on every link the extractors hand to it,
    however malformed the markup was: the links are results of [urljoin]
    on the final URL of the resource, which has a host, and such a result
    always parses.  It raises nothing, so it cannot end the crawl. *)
Theorem normalization_returns (base_domain final_url : string) :
  should_download final_url base_domain = Ok true ->
  base_domain ≠ "" ->
  (forall raw link,
     urljoin final_url raw = Ok link ->
     exists clean, normalize link = Ok clean)
  /\ (forall content links,
        extract_html_links content final_url = Ok links ->
        Forall (fun link => exists clean, normalize link = Ok clean) links)
  /\ (forall content links,
        extract_css_links content final_url = Ok links ->
        Forall (fun link => exists clean, normalize link = Ok clean) links)
  /\ (forall response,
        Forall (fun link => exists clean, normalize link = Ok clean)
          (links_of response final_url)).
Proof.
  intros Hscope Hdomain. unfold should_download in Hscope.
  destruct (urlparse final_url) as [bp|] eqn:Hbase; [|done].
  cbn [mbind result_bind Py.bind] in Hscope.
  assert (netloc bp ≠ "") as Hnetloc.
  { injection Hscope as Heq. apply bool_decide_eq_true in Heq. congruence. }
  assert (forall content links,
            extract_html_links content final_url = Ok links ->
            Forall (fun link => exists clean, normalize link = Ok clean) links)
    as Hhtml.
  { intros content links. unfold extract_html_links.
    destruct (BeautifulSoup content) as [soup|]; [|done].
    cbn [mbind result_bind Py.bind].
    destruct (raw_links soup) as [raws|]; [|done].
    cbn [mbind result_bind Py.bind]. by apply map_urljoin_parses with bp. }
  assert (forall content links,
            extract_css_links content final_url = Ok links ->
            Forall (fun link => exists clean, normalize link = Ok clean) links)
    as Hcss.
  { intros content links. by apply map_urljoin_parses with bp. }
  split_and!; [|done..|].
  - intros raw link Hjoin.
    eauto using normalize_returns_iff, urljoin_parses.
  - intros response. unfold links_of.
    destruct (decide _); [|destruct (decide _); [|constructor]].
    + destruct (extract_html_links _ _) eqn:Hl; simpl; [eauto|constructor].
    + destruct (extract_css_links _ _) eqn:Hl; simpl; [eauto|constructor].
Qed.

End Normalization.

Lemma normalization_returns_witness :
  let W := Fixture.world_of Fixture.small_site in
  Forall (fun link => exists clean, normalize link = Ok clean)
    (links_of (Fixture.html "https://example.com/" "home")
       "https://example.com/").
Proof.
  intros W.
  apply (proj2 (proj2 (proj2 (normalization_returns
                                "example.com" "https://example.com/"
                                eq_refl ltac:(discriminate))))).
Defined.

(** ** The domain scope filter *)

(** C3, as the code has it.  [should_download] returns true if and only
    if the netloc of the URL (host, with the port and the user
    information when present) equals the site domain, whatever the
    scheme; the scheme is tested by [is_valid], apart, and the two
    together, as the enqueue step calls them, hold if and only if the
    scheme is http or https and the netloc equals the site domain. *)
Theorem scope_filter_compares_netloc :
  (forall url base_domain : string,
     should_download url base_domain = Ok true
     <-> exists p, urlparse url = Ok p /\ netloc p = base_domain)
  /\ (forall url base_domain : string,
        (valid ← is_valid url;
         if (valid : bool) then should_download url base_domain
         else Ok false) = Ok true
        <-> exists p, urlparse url = Ok p
                      /\ scheme p ∈ ["http"; "https"]
                      /\ netloc p = base_domain)
  /\ (forall sch host rest : string,
        good_scheme sch ->
        Str.all (fun c => negb (is_delim c)) host = true ->
        no_unsafe host -> check_netloc_brackets host = Ok tt ->
        at_delim rest ->
        should_download (sch +:+ "://" +:+ host +:+ rest) host = Ok true).
Proof.
  split_and!.
  - intros url base_domain. unfold should_download.
    destruct (urlparse url) as [p|]; cbn [mbind result_bind Py.bind].
    + split.
      * intros [= Heq%bool_decide_eq_true]. eauto.
      * intros (p' & [= <-] & Hn). by rewrite bool_decide_eq_true_2.
    + split; [done|]. by intros (p' & ? & _).
  - intros url base_domain. unfold is_valid, should_download.
    destruct (urlparse url) as [p|]; cbn [mbind result_bind Py.bind].
    + split.
      * case_bool_decide as Hs; [|done].
        intros [= Heq%bool_decide_eq_true]. eauto.
      * intros (p' & [= <-] & Hs & Hn).
        by rewrite !bool_decide_eq_true_2.
    + split; [done|]. by intros (p' & ? & _).
  - intros sch host rest Hsch Hdelim Hsafe Hcheck Hrest.
    destruct (urlsplit_rebuilt sch host rest "" (or_intror Hsch) Hdelim Hsafe
                Hrest Hcheck) as (r & Hr & Hnet).
    assert (scheme_prefix sch +:+ "//" +:+ host +:+ rest
            = sch +:+ "://" +:+ host +:+ rest) as Heq.
    { unfold scheme_prefix. destruct Hsch as (c & tl & -> & _).
      rewrite bool_decide_eq_false_2 by done. cbn [negb].
      by rewrite app_assoc_str. }
    rewrite Heq in Hr. unfold should_download, urlparse, urlparse_with.
    rewrite Hr. cbn [mbind result_bind Py.bind].
    destruct (bool_decide _ && _); [destruct (_splitparams _)|];
      cbn [mbind result_bind Py.bind netloc];
      by rewrite bool_decide_eq_true_2.
Qed.

Lemma scope_filter_compares_netloc_witness :
  should_download "ftp://example.com:8080/x" "example.com:8080" = Ok true.
Proof.
  apply (proj2 (proj2 scope_filter_compares_netloc)
           "ftp" "example.com:8080" "/x").
  - exists "f"%char, "tp". by vm_compute.
  - reflexivity.
  - by vm_compute.
  - reflexivity.
  - right. exists "/"%char, "x". by vm_compute.
Defined.

(** C3, as the specification has it, fails: a URL of the site with the
    scheme [ftp] passes the filter. *)
Lemma scope_filter_counterexample :
  should_download "ftp://example.com/x" "example.com" = Ok true
  /\ urlparse "ftp://example.com/x"
     = Ok (mkParse "ftp" "example.com" "/x" "" "" "")
  /\ "ftp" ∉ ["http"; "https"].
Proof.
  split_and!; [reflexivity..|].
  intros Hin. repeat (apply elem_of_cons in Hin as [Hin|Hin]; [done|]).
  by apply elem_of_nil in Hin.
Qed.

(** * Further properties of the code *)

(** ** The frontier *)

Section Frontier.
Context `{W : World}.

(** [crawl] either ends at once with exit code 1, before any request of
    the loop, or enters the loop on the final URL of the first response *)
Lemma crawl_start (url output_dir : string) (max_depth : option Z)
    (verbose : bool) (fuel : nat) (w : env) :
  (exists w', (crawl url output_dir max_depth verbose fuel w).2
              = Exit 1 (mkState ∅ [] [] w'))
  \/ exists response parsed md w1 w1' w2,
       os_makedirs output_dir w = (Ok tt, w1)
       /\ announce verbose url output_dir w1 = (Ok tt, w1')
       /\ requests_get url w1' = (Ok response, w2)
       /\ status_code response = 200%Z
       /\ urlparse (r_url response) = Ok parsed
       /\ md = effective_depth max_depth
       /\ (crawl url output_dir max_depth verbose fuel w).2
          = crawl_loop output_dir (netloc parsed) md verbose fuel
              (initial_state (r_url response) w2).
Proof.
  unfold crawl, critical, with_world.
  destruct (os_makedirs output_dir w) as [[[]|e] w1] eqn:Hmk;
    [|left; eauto].
  destruct (announce verbose url output_dir w1) as [[[]|e] w1'] eqn:Hsay;
    [|left; eauto].
  destruct (requests_get url w1') as [[response|e] w2] eqn:Hget;
    [|left; eauto].
  destruct (status_code response =? 200)%Z eqn:Hstatus.
  2: { cbn [negb]. destruct (initial_error _ w2) as [e w3]. left; eauto. }
  cbn [negb].
  destruct (urlparse (r_url response)) as [parsed|e] eqn:Hp; [|left; eauto].
  right. apply Z.eqb_eq in Hstatus.
  exists response, parsed, (effective_depth max_depth), w1, w1', w2.
  by split_and!.
Qed.

(** a property of the links a pass enqueues is a property of every entry
    deeper than 0 *)
Lemma frontier_all_loop (Q : string -> Prop)
    (output_dir base_domain : string) (max_depth : option Z)
    (verbose : bool) (fuel : nat) (st : state) :
  (forall st' u, enqueued_by base_domain st' u -> Q u) ->
  frontier_all Q st ->
  frontier_all Q
    (final_state
       (crawl_loop output_dir base_domain max_depth verbose fuel st)).
Proof.
  intros HQ. apply crawl_loop_invariant; [done|].
  intros st' url depth rest Hinv Hqueue. unfold frontier_all.
  assert ((0 <= depth)%Z) as Hdepth.
  { apply (Hinv url depth). rewrite Hqueue. left. }
  assert ((1 <= depth)%Z -> Q url) as Hurl.
  { apply (Hinv url depth). rewrite Hqueue. left. }
  assert (forall u k, (u, k) ∈ rest ++ log st' ->
            (0 <= k)%Z /\ ((1 <= k)%Z -> Q u)) as Hrest.
  { intros u k Hin. apply Hinv. rewrite Hqueue. by right. }
  destruct (crawl_pass_kind output_dir base_domain max_depth verbose url
              depth (mkState (visited st') rest (log st') (world st')))
    as [_ Hq Hl _|_ _ _ Hq Hl|new _ _ _ Hl Hq Hnew].
  - by rewrite Hq, Hl.
  - by rewrite Hq, Hl.
  - intros u k. rewrite Hq, Hl. simpl.
    rewrite <- app_assoc, (app_assoc new), !elem_of_app.
    intros [Hin|[[Hin|Hin]|Hin]].
    + apply Hrest. apply elem_of_app. by left.
    + apply (proj1 (Forall_forall _ _) Hnew) in Hin as [Hk Hclean].
      simpl in *. split; [lia|]. intros _. eauto.
    + apply Hrest. apply elem_of_app. by right.
    + by apply list_elem_of_singleton in Hin as [= -> ->].
Qed.

Lemma frontier_all_initial (Q : string -> Prop) (base_url : string)
    (w : env) :
  frontier_all Q (initial_state base_url w).
Proof.
  intros u k Hin. simpl in Hin.
  apply list_elem_of_singleton in Hin as [= -> ->]. split; lia.
Qed.

Lemma frontier_all_empty (Q : string -> Prop) (w : env) :
  frontier_all Q (mkState ∅ [] [] w).
Proof. by intros u k ?%elem_of_nil. Qed.

Lemma enqueued_in_site (base_domain : string) (st : state) (u : string) :
  enqueued_by base_domain st u -> in_site base_domain u.
Proof.
  intros (link & _ & Hvalid & Hscope & _).
  unfold is_valid, should_download in *.
  destruct (urlparse u) as [p|] eqn:Hp; [|done]. exists p.
  cbn [mbind result_bind Py.bind] in *.
  injection Hvalid as Hvalid. injection Hscope as Hscope.
  apply bool_decide_eq_true in Hvalid, Hscope. done.
Qed.

(** X1.  In every run, a URL that waits in the frontier or was requested
    at a depth of 1 or more is an http or https URL whose netloc is the
    site domain, the netloc of the final URL of the first response: a link
    to another host, or with another scheme, is never enqueued and never
    requested. *)
Theorem enqueued_stay_on_site (url output_dir : string)
    (max_depth : option Z) (verbose : bool) (fuel : nat) (w : env)
    (u : string) (k : Z) :
  let st := final_state (crawl url output_dir max_depth verbose fuel w).2 in
  (u, k) ∈ queue st ++ log st -> (1 <= k)%Z ->
  exists response parsed w1 w1' w2,
    os_makedirs output_dir w = (Ok tt, w1)
    /\ announce verbose url output_dir w1 = (Ok tt, w1')
    /\ requests_get url w1' = (Ok response, w2)
    /\ urlparse (r_url response) = Ok parsed
    /\ in_site (netloc parsed) u.
Proof.
  intros st Hin Hk. subst st.
  destruct (crawl_start url output_dir max_depth verbose fuel w)
    as [[w' Hexit]|(response & parsed & md & w1 & w1' & w2 & Hmk & Hsay & Hget
                    & _ & Hp & _ & Hloop)].
  - rewrite Hexit in Hin. by apply elem_of_nil in Hin.
  - rewrite Hloop in Hin. exists response, parsed, w1, w1', w2.
    split_and!; [done..|].
    assert (frontier_all (in_site (netloc parsed))
              (final_state
                 (crawl_loop output_dir (netloc parsed) md verbose fuel
                    (initial_state (r_url response) w2)))) as Hall.
    { apply frontier_all_loop; [apply enqueued_in_site|].
      apply frontier_all_initial. }
    by apply (Hall u k).
Qed.

End Frontier.

Lemma enqueued_stay_on_site_witness :
  exists response parsed w1 w1' w2,
    os_makedirs (World := Fixture.world_of Fixture.small_site) "/out"
      ([] : list (string * string)) = (Ok tt, w1)
    /\ announce false "https://example.com/" "/out" w1 = (Ok tt, w1')
    /\ requests_get "https://example.com/" w1' = (Ok response, w2)
    /\ urlparse (r_url response) = Ok parsed
    /\ in_site (netloc parsed) "https://example.com/b".
Proof.
  apply (enqueued_stay_on_site (W := Fixture.world_of Fixture.small_site)
           "https://example.com/" "/out" None false 10
           ([] : list (string * string)) "https://example.com/b" 1%Z).
  - vm_compute. repeat constructor.
  - lia.
Defined.

(** ** Visited and requested *)

Section Visited.
Context `{W : World}.

(** after a pass the marked URLs are those requested, unless the pass
    ended in the print that comes between the mark and the request *)
Lemma visited_pass (output_dir base_domain : string)
    (max_depth : option Z) (verbose : bool) (url : string) (depth : Z)
    (st : state) :
  visited st = list_to_set (log st).*1 ->
  match crawl_pass output_dir base_domain max_depth verbose url depth st with
  | Next st' => visited st' = list_to_set (log st').*1
  | Critical _ st' =>
      visited st' = list_to_set (log st').*1
      \/ (verbose = true /\ (url ∉ (log st').*1)
          /\ visited st' = list_to_set (log st').*1 ∪ {[url]})
  end.
Proof.
  intros Hinv. unfold crawl_pass.
  destruct (match max_depth with Some d => (d <? depth)%Z | None => false end).
  { destruct (print_if_verbose verbose (SkippingMaxDepth url) (world st))
      as [[[]|e] w0]; cbn; auto. }
  destruct (decide (url ∈ visited st)) as [Hin|Hin]; [done|].
  cbn [visited queue log world].
  destruct (print_if_verbose verbose (Downloading url) (world st))
    as [[[]|e] w0] eqn:Hprint.
  2: { right. cbn. split_and!.
       - destruct verbose; [done|]. by injection Hprint.
       - rewrite Hinv in Hin. intros Hu. apply Hin.
         by apply elem_of_list_to_set.
       - by rewrite Hinv. }
  assert (visited st ∪ {[url]}
          = list_to_set (log st ++ [(url, depth)]).*1) as Hnext.
  { rewrite fmap_app. change ([(url, depth)].*1) with [url].
    rewrite list_to_set_snoc_L. by rewrite Hinv. }
  destruct (fetch url w0) as [[response|e] w1].
  2: { destruct (console_print (ErrorDownloading url e) w1) as [[[]|e'] w2];
         cbn; auto. }
  destruct (should_download (r_url response) base_domain) as [[]|e];
    [| |cbn; auto].
  2: { destruct (print_if_verbose verbose SkippingUnsupported w1)
         as [[[]|e'] w2]; cbn; auto. }
  destruct (save_resource _ _ _ _ _) as [[saved_path|e] w2]; [|cbn; auto].
  destruct (print_if_verbose verbose (Saved saved_path) w2) as [[[]|e] w3];
    [|cbn; auto].
  destruct (report _ w3) as [[[]|e] w4]; [|cbn; auto].
  match goal with
  | |- context [enqueue_links ?b ?d ?l ?s] =>
      pose proof (enqueue_links_spec b d l s) as (Hv & Hl & _);
      destruct (enqueue_links b d l s) as [st'|e st']
  end; cbn in Hv, Hl; [|left]; by rewrite Hv, Hl.
Qed.

Lemma visited_loop (output_dir base_domain : string)
    (max_depth : option Z) (verbose : bool) (fuel : nat) (st : state) :
  visited st = list_to_set (log st).*1 ->
  match crawl_loop output_dir base_domain max_depth verbose fuel st with
  | Drained st' | Unfinished st' => visited st' = list_to_set (log st').*1
  | Exit _ st' =>
      visited st' = list_to_set (log st').*1
      \/ (verbose = true
          /\ exists u, (u ∉ (log st').*1)
                       /\ visited st' = list_to_set (log st').*1 ∪ {[u]})
  end.
Proof.
  revert st. induction fuel as [|fuel IH]; intros st Hinv;
    cbn [crawl_loop].
  - by destruct (queue st) as [|[url depth] rest].
  - destruct (queue st) as [|[url depth] rest]; [done|].
    pose proof (visited_pass output_dir base_domain max_depth verbose url
                  depth (mkState (visited st) rest (log st) (world st)) Hinv)
      as Hpass.
    destruct (crawl_pass _ _ _ _ _ _ _) as [st'|e st']; [by apply IH|].
    cbn. destruct Hpass as [Hpass|(Hverbose & Hu & Hpass)]; [by left|].
    right. eauto.
Qed.

(** X2.  In every run the URLs the loop has requested are marked in
    [visited], and a URL is marked only when it is about to be requested:
    entries dropped for their depth are not marked.  Between the mark and
    the request stands one print, made under [--verbose]: the marked URLs
    are exactly the requested ones when the run is not verbose and when it
    did not end with exit code 1, and at most one URL is marked without a
    request otherwise. *)
Theorem visited_is_requested (url output_dir : string)
    (max_depth : option Z) (verbose : bool) (fuel : nat) (w : env) :
  let run := (crawl url output_dir max_depth verbose fuel w).2 in
  let st := final_state run in
  (forall u, u ∈ (log st).*1 -> u ∈ visited st)
  /\ (verbose = false -> visited st = list_to_set (log st).*1)
  /\ ((forall code st', run ≠ Exit code st') ->
      visited st = list_to_set (log st).*1)
  /\ (visited st = list_to_set (log st).*1
      \/ exists u, (u ∉ (log st).*1)
                   /\ visited st = list_to_set (log st).*1 ∪ {[u]}).
Proof.
  intros run st.
  assert (match run with
          | Drained st' | Unfinished st' =>
              visited st' = list_to_set (log st').*1
          | Exit _ st' =>
              visited st' = list_to_set (log st').*1
              \/ (verbose = true
                  /\ exists u, (u ∉ (log st').*1)
                               /\ visited st'
                                  = list_to_set (log st').*1 ∪ {[u]})
          end) as Hrun.
  { subst run.
    destruct (crawl_start url output_dir max_depth verbose fuel w)
      as [[w' ->]|(response & parsed & md & w1 & w1' & w2 & _ & _ & _ & _ & _
                   & _ & ->)].
    - by left.
    - by apply visited_loop. }
  assert (visited st = list_to_set (log st).*1
          \/ (verbose = true
              /\ exists u, (u ∉ (log st).*1)
                           /\ visited st = list_to_set (log st).*1 ∪ {[u]}))
    as Hst.
  { subst st. destruct run; cbn; auto. }
  split_and!.
  - intros u Hu.
    destruct Hst as [->|(_ & u' & _ & ->)];
      [|apply elem_of_union_l]; by apply elem_of_list_to_set.
  - intros ->. by destruct Hst as [?|[? _]].
  - intros Hnot. subst st. destruct run as [st'|code st'|st']; cbn; [done| |done].
    by destruct (Hnot code st').
  - destruct Hst as [?|(_ & u & ? & ?)]; eauto.
Qed.

(** a run in which a URL is marked and not requested: the print before
    the request of [https://example.com/a[/b]] raises *)
Example marked_without_request :
  let st :=
    final_state
      (crawl (W := Fixture.markup_world) "https://example.com/" "/out"
         None true 10 ([] : list (string * string))).2 in
  (log st).*1 = ["https://example.com/"]
  /\ "https://example.com/a[/b]" ∈ visited st.
Proof. split; [by vm_compute|]. by vm_compute. Qed.

End Visited.

(** ** Breadth first *)

Section BreadthFirst.
Context `{W : World}.

Lemma breadth_first_pass (output_dir base_domain : string)
    (max_depth : option Z) (verbose : bool) (st : state) (url : string)
    (depth : Z) (rest : list (string * Z)) :
  breadth_first st -> queue st = (url, depth) :: rest ->
  breadth_first
    (state_of_pass
       (crawl_pass output_dir base_domain max_depth verbose url depth
          (mkState (visited st) rest (log st) (world st)))).
Proof.
  intros [Hsorted Hspread] Hqueue. unfold depths in Hsorted.
  rewrite Hqueue in Hsorted, Hspread. simpl in Hsorted, Hspread.
  apply StronglySorted_app in Hsorted as (Hlq & Hlog & Hq).
  apply StronglySorted_cons in Hq as [Hhead Hrest].
  assert (forall st' : state,
            queue st' = rest -> log st' = log st -> breadth_first st')
    as Hsame.
  { intros st' Hq Hl. unfold breadth_first, depths. rewrite Hq, Hl. split.
    - apply StronglySorted_app_2; [|done..].
      intros k k' Hk Hk'. apply Hlq; [done|]. by right.
    - intros k k' Hk Hk'. apply Hspread; by right. }
  destruct (crawl_pass_kind output_dir base_domain max_depth verbose url
              depth (mkState (visited st) rest (log st) (world st)))
    as [_ Hq Hl _|_ _ _ Hq Hl|new _ _ _ Hl Hqn Hnew].
  - by apply Hsame.
  - by apply Hsame.
  - simpl in Hl, Hqn.
    assert (Forall (fun k => k = (depth + 1)%Z) new.*2) as Hnew2.
    { apply Forall_fmap. eapply Forall_impl; [exact Hnew|]. by intros e [? _]. }
    assert (forall k, k ∈ new.*2 -> k = (depth + 1)%Z) as Hnew3
      by (by apply Forall_forall).
    assert (forall k, k ∈ rest.*2 -> (depth <= k)%Z) as Hge
      by (by apply Forall_forall).
    assert (forall k, k ∈ rest.*2 -> (k <= depth + 1)%Z) as Hle.
    { intros k Hk. apply Hspread; [left|by right]. }
    split.
    + unfold depths. rewrite Hl, Hqn, !fmap_app. simpl.
      rewrite <- app_assoc. apply StronglySorted_app_2; [|done|].
      * intros k k' Hk [->%list_elem_of_singleton|Hk']%elem_of_app;
          [apply Hlq; [done|left]|].
        apply elem_of_app in Hk' as [Hk'|Hk'].
        -- apply Hlq; [done|by right].
        -- apply Hnew3 in Hk' as ->.
           assert (k <= depth)%Z by (apply Hlq; [done|left]). lia.
      * simpl. apply StronglySorted_cons. split.
        -- apply Forall_app. split; [done|].
           eapply Forall_impl; [exact Hnew2|]. intros k ->. lia.
        -- apply StronglySorted_app_2; [|done|].
           ++ intros k k' Hk Hk'. apply Hnew3 in Hk' as ->. by apply Hle.
           ++ clear -Hnew2.
              induction Hnew2 as [|k l -> Htail IH]; constructor; [done|].
              eapply Forall_impl; [exact Htail|]. intros ? ->. lia.
    + rewrite Hqn, fmap_app. intros k k' Hk Hk'.
      apply elem_of_app in Hk as [Hk|Hk], Hk' as [Hk'|Hk'].
      * apply Hspread; by right.
      * apply Hnew3 in Hk' as ->. apply Hge in Hk. lia.
      * apply Hnew3 in Hk as ->. apply Hle in Hk'. lia.
      * apply Hnew3 in Hk as ->. apply Hnew3 in Hk' as ->. lia.
Qed.

Lemma breadth_first_loop (output_dir base_domain : string)
    (max_depth : option Z) (verbose : bool) (fuel : nat) (st : state) :
  breadth_first st ->
  breadth_first
    (final_state
       (crawl_loop output_dir base_domain max_depth verbose fuel st)).
Proof.
  apply crawl_loop_invariant; [done|]. intros st' url depth rest.
  apply breadth_first_pass.
Qed.

(** X3.  The crawl is breadth first: in every run the requests are issued
    in an order of depth that never decreases, the entries that wait are
    no shallower than any request issued, and two waiting entries are at
    most one level apart. *)
Theorem crawl_breadth_first (url output_dir : string)
    (max_depth : option Z) (verbose : bool) (fuel : nat) (w : env) :
  let st := final_state (crawl url output_dir max_depth verbose fuel w).2 in
  StronglySorted Z.le ((log st).*2 ++ (queue st).*2)
  /\ forall k k', k ∈ (queue st).*2 -> k' ∈ (queue st).*2 -> (k' <= k + 1)%Z.
Proof.
  intros st. subst st.
  destruct (crawl_start url output_dir max_depth verbose fuel w)
    as [[w' ->]|(response & parsed & md & w1 & w1' & w2 & _ & _ & _ & _ & _
                 & _ & ->)].
  - split; [constructor|]. by intros k k' ?%elem_of_nil.
  - apply breadth_first_loop. split.
    + unfold depths. simpl. repeat constructor.
    + simpl. intros k k' ->%list_elem_of_singleton ->%list_elem_of_singleton.
      lia.
Qed.

End BreadthFirst.

(** ** When the HTML extractor returns *)

Lemma fold_result_returns {A B : Type} (f : B -> A -> result B)
    (l : list A) (acc : B) :
  (forall acc x, x ∈ l -> exists acc', f acc x = Ok acc') ->
  exists r, fold_result f l acc = Ok r.
Proof.
  revert acc. induction l as [|x l IH]; intros acc Hf; simpl; [eauto|].
  destruct (Hf acc x) as [acc' ->]; [left|]. simpl.
  apply IH. intros. apply Hf. by right.
Qed.

Lemma map_result_some_raise {A B : Type} (f : A -> result B) (l : list A)
    (x : A) (e : exn) :
  x ∈ l -> f x = Raise e -> exists e', map_result f l = Raise e'.
Proof.
  intros Hin Hx. induction l as [|y l IH]; [by apply elem_of_nil in Hin|].
  simpl. destruct (f y) as [b|e'] eqn:Hy; simpl; [|eauto].
  apply elem_of_cons in Hin as [->|Hin]; [congruence|].
  destruct (IH Hin) as [e'' ->]. simpl. eauto.
Qed.

Lemma element_links_returns (tag : string) (attrs : attr_spec)
    (soup : list node) (element : node) (links : list string) :
  no_blank_candidate soup ->
  (tag, attrs) ∈ tags -> element ∈ find_all soup tag ->
  exists links', element_links attrs links element = Ok links'.
Proof.
  intros Hsoup Htag Hel. destruct attrs as [attr|attrs].
  { apply element_links_one_returns. }
  assert (tag ∈ ["img"; "source"] /\ attrs = ["src"; "srcset"])
    as [Htag' ->].
  { unfold tags in Htag. rewrite !elem_of_cons in Htag.
    destruct Htag as [[=]|[[=]|[[= -> ->]|[[=]|[[= -> ->]|Htag]]]]];
      [| |by apply elem_of_nil in Htag]; split; try done;
      repeat constructor. }
  cbn [element_links]. apply fold_result_returns. intros acc attr Hattr.
  destruct (get element attr) as [value|] eqn:Hget; [|eauto].
  case_bool_decide as Hvalue; [eauto|].
  rewrite candidates_url_tokens; [simpl; eauto|].
  intros v Hv. eapply Hsoup; eauto.
Qed.

(** X4.  The raw links of a parsed document are extracted without an
    exception if and only if no [img] or [source] element has an empty or
    blank candidate in a [src] or [srcset] value: anchors, [link] and
    [script] elements never make the extraction fail. *)
Theorem raw_links_return_iff (soup : list node) :
  (exists links, raw_links soup = Ok links) <-> no_blank_candidate soup.
Proof.
  split.
  - intros [links Hlinks] tag attr element value v Htag Hattr Hel Hget Hne Hv.
    destruct (Str.all Str.isspace v) eqn:Hblank; [|done].
    rewrite (raw_links_blank soup element tag attr value v) in Hlinks; done.
  - intros Hsoup. unfold raw_links. apply fold_result_returns.
    intros acc [tag attrs] Htag. apply fold_result_returns.
    intros links element Hel. by eapply element_links_returns.
Qed.

(** *** Which values are split *)

Lemma elem_of_flat_map {A B : Type} (f : A -> list B) (l : list A) (y : B) :
  y ∈ flat_map f l <-> exists x, x ∈ l /\ y ∈ f x.
Proof.
  rewrite list_elem_of_In, in_flat_map. split.
  - intros (x & Hx & Hy). exists x. by rewrite !list_elem_of_In.
  - intros (x & Hx & Hy). exists x. by rewrite <- !list_elem_of_In.
Qed.

Lemma elem_of_links_of_element_one (attr : string) (element : node)
    (l : string) :
  l ∈ links_of_element (One attr) element
  <-> get element attr = Some l /\ l ≠ "".
Proof.
  cbn [links_of_element]. destruct (get element attr) as [value|].
  - case_bool_decide as Hvalue.
    + split; [by intros ?%elem_of_nil|]. intros [[= ->] Hne]. done.
    + rewrite list_elem_of_singleton. split; [by intros ->|].
      by intros [[= ->] _].
  - split; [by intros ?%elem_of_nil|]. by intros [? _].
Qed.

Lemma elem_of_links_of_element_many (attrs : list string) (element : node)
    (l : string) :
  l ∈ links_of_element (Many attrs) element
  <-> exists attr value v,
        attr ∈ attrs /\ get element attr = Some value /\ value ≠ ""
        /\ v ∈ Str.split "," value /\ l = url_token v.
Proof.
  cbn [links_of_element]. rewrite elem_of_flat_map. split.
  - intros (attr & Hattr & Hl).
    destruct (get element attr) as [value|] eqn:Hget;
      [|by apply elem_of_nil in Hl].
    case_bool_decide as Hvalue; [by apply elem_of_nil in Hl|].
    unfold url_tokens in Hl.
    apply list_elem_of_fmap in Hl as (v & -> & Hv).
    exists attr, value, v. done.
  - intros (attr & value & v & Hattr & Hget & Hne & Hv & ->).
    exists attr. split; [done|]. rewrite Hget.
    rewrite bool_decide_eq_false_2 by done. unfold url_tokens.
    apply list_elem_of_fmap. eauto.
Qed.

(** X5.  Which values are split, in every document: a raw link of the
    extractor is the whole [href] of an [a] or [link] element or the whole
    [src] of a [script] element, commas and white space included, when it
    is not empty; or it is the URL token, the text before the first white
    space, of one of the comma-separated pieces of a [src] or a [srcset]
    of an [img] or [source] element.  The element may be nested and may
    carry other attributes. *)
Theorem which_values_are_split (soup : list node) (links : list string)
    (l : string) :
  raw_links soup = Ok links ->
  l ∈ links
  <-> (exists tag attr element,
         (tag, One attr) ∈ tags /\ element ∈ find_all soup tag
         /\ get element attr = Some l /\ l ≠ "")
      \/ (exists tag attr element value v,
            tag ∈ ["img"; "source"] /\ attr ∈ ["src"; "srcset"]
            /\ element ∈ find_all soup tag
            /\ get element attr = Some value /\ value ≠ ""
            /\ v ∈ Str.split "," value /\ l = url_token v).
Proof.
  intros Hlinks.
  apply (proj2 (raw_links_document soup)) in Hlinks as [_ ->].
  unfold document_links. rewrite elem_of_flat_map. split.
  - intros ([tag attrs] & Htag & Hl).
    apply elem_of_flat_map in Hl as (element & Hel & Hl).
    destruct attrs as [attr|attrs].
    + left. apply elem_of_links_of_element_one in Hl. by exists tag, attr, element.
    + right. apply many_in_tags in Htag as [Htag ->].
      apply elem_of_links_of_element_many in Hl
        as (attr & value & v & Hattr & Hget & Hne & Hv & ->).
      by exists tag, attr, element, value, v.
  - intros [(tag & attr & element & Htag & Hel & Hget & Hne)
           |(tag & attr & element & value & v & Htag & Hattr & Hel & Hget
             & Hne & Hv & ->)].
    + exists (tag, One attr). split; [done|].
      apply elem_of_flat_map. exists element. split; [done|].
      by apply elem_of_links_of_element_one.
    + exists (tag, Many ["src"; "srcset"]). split; [by apply tags_many|].
      apply elem_of_flat_map. exists element. split; [done|].
      apply elem_of_links_of_element_many. by exists attr, value, v.
Qed.

(** in the document of [Fixture.picture] the [href] of the anchor, which
    has a [title] too, is a link as it stands, and the [src] of the nested
    [img] is a link through its URL token *)
Lemma which_values_are_split_witness :
  let links :=
    ["a b,c.html"; "c.png"; "d.png"; "e.png"; "f.png"; "a.png"; "b.png"] in
  raw_links Fixture.picture = Ok links
  /\ "a b,c.html" ∈ links
  /\ "c.png" ∈ links.
Proof.
  intros links. split; [reflexivity|]. split.
  - apply (proj2 (which_values_are_split Fixture.picture links "a b,c.html"
                    eq_refl)).
    left.
    exists "a", "href",
      (Tag "a" {[ "title" := "more"; "href" := "a b,c.html" ]}
         [NavigableString "more"]).
    split_and!; [repeat constructor|vm_compute; repeat constructor
                |reflexivity|discriminate].
  - apply (proj2 (which_values_are_split Fixture.picture links "c.png"
                    eq_refl)).
    right.
    exists "img", "src",
      (Tag "img"
         {[ "alt" := ""; "src" := "c.png";
            "srcset" := "d.png 1x, e.png 2x, f.png 3x" ]} []),
      "c.png", "c.png".
    split_and!; [repeat constructor|repeat constructor
                |vm_compute; repeat constructor
                |reflexivity|discriminate|repeat constructor|reflexivity].
Defined.

(** *** One link that does not resolve *)

Section AllOrNothing.
Context `{W : World}.

(** X6.  The links of a page are resolved all or none: when one raw link
    of an HTML page, or one [url(...)] reference of a style sheet, makes
    [urljoin] raise, the extractor raises and the engine takes the
    resource to have no link at all, the good ones included. *)
Theorem one_bad_link_discards_all (response : Response)
    (final_url raw : string) (e : exn) :
  urljoin final_url raw = Raise e ->
  (forall soup raws,
     content_type_of response = "text/html" ->
     BeautifulSoup (content response) = Ok soup ->
     raw_links soup = Ok raws -> raw ∈ raws ->
     links_of response final_url = [])
  /\ (content_type_of response = "text/css" ->
      raw ∈ re_findall_url (text response) ->
      links_of response final_url = []).
Proof.
  intros Hraise. split.
  - intros soup raws Hct Hsoup Hraws Hin. unfold links_of.
    rewrite Hct. rewrite decide_True by done.
    unfold extract_html_links. rewrite Hsoup.
    cbn [mbind result_bind Py.bind]. rewrite Hraws.
    cbn [mbind result_bind Py.bind].
    by destruct (map_result_some_raise (urljoin final_url) raws raw e Hin
                   Hraise) as [e' ->].
  - intros Hct Hin. unfold links_of. rewrite Hct.
    rewrite decide_False by discriminate. rewrite decide_True by done.
    unfold extract_css_links.
    by destruct (map_result_some_raise (urljoin final_url) _ raw e Hin
                   Hraise) as [e' ->].
Qed.

End AllOrNothing.

Lemma one_bad_link_discards_all_witness :
  let W := Fixture.world_of Sites.bad_href_page in
  links_of (Fixture.html "https://example.com/" "page")
    "https://example.com/" = [].
Proof.
  intros W.
  apply (proj1 (one_bad_link_discards_all
                  (Fixture.html "https://example.com/" "page")
                  "https://example.com/" "http://[bad" ValueError eq_refl)
           Sites.bad_href ["ok.html"; "http://[bad"]).
  - reflexivity.
  - reflexivity.
  - reflexivity.
  - repeat constructor.
Defined.

(** ** A link whose normal form does not parse *)

Lemma check_netloc_only (netloc : string) (e : exn) :
  check_netloc_brackets netloc = Raise e -> e = ValueError.
Proof.
  unfold check_netloc_brackets, _check_bracketed_netloc,
    _check_bracketed_host, Ipaddress.ip_address.
  repeat case_match; cbn [mbind result_bind Py.bind]; congruence.
Qed.

Lemma urlparse_with_only (url dflt : string) (e : exn) :
  urlparse_with url dflt = Raise e -> e = ValueError.
Proof.
  unfold urlparse_with. rewrite urlsplit_unfold. cbv zeta.
  destruct (decide _) as [Hslash|Hslash].
  - destruct (check_netloc_brackets _) as [[]|e'] eqn:Hcheck;
      cbn [mbind result_bind Py.bind].
    + destruct (split_tail _) as [[p q] f]. cbn [mbind result_bind Py.bind].
      by repeat case_match.
    + intros [= <-]. eauto using check_netloc_only.
  - cbn [mbind result_bind Py.bind].
    destruct (split_tail _) as [[p q] f]. cbn [mbind result_bind Py.bind].
    by repeat case_match.
Qed.

Section OddLink.
Context `{W : World}.

Lemma enqueue_link_only (base_domain : string) (depth : Z) (st : state)
    (link : string) (e : exn) :
  enqueue_link base_domain depth st link = Raise e -> e = ValueError.
Proof.
  unfold enqueue_link, normalize, is_valid, should_download, urlparse.
  destruct (urlparse_with link "") as [p|e1] eqn:H1;
    cbn [mbind result_bind Py.bind];
    [|intros [= <-]; eauto using urlparse_with_only].
  destruct (urlparse_with (clean_link p) "") as [p'|e2] eqn:H2;
    cbn [mbind result_bind Py.bind];
    [|intros [= <-]; eauto using urlparse_with_only].
  by repeat case_match.
Qed.

Lemma enqueue_link_odd (base_domain : string) (depth : Z) (st : state)
    (link u : string) (e : exn) :
  normalize link = Ok u -> urlparse u = Raise e ->
  enqueue_link base_domain depth st link = Raise e.
Proof.
  intros Hn Hu. unfold enqueue_link, is_valid. rewrite Hn.
  cbn [mbind result_bind Py.bind]. by rewrite Hu.
Qed.

Lemma enqueue_links_app (base_domain : string) (depth : Z)
    (l1 l2 : list string) (st : state) :
  enqueue_links base_domain depth (l1 ++ l2) st
  = match enqueue_links base_domain depth l1 st with
    | Next st1 => enqueue_links base_domain depth l2 st1
    | Critical e st1 => Critical e st1
    end.
Proof.
  revert st. induction l1 as [|link l1 IH]; intros st; [done|].
  cbn [app enqueue_links].
  by destruct (enqueue_link base_domain depth st link).
Qed.

(** X7.  A link that parses, but whose normal form (query and fragment
    dropped, serialized again) does not, ends the crawl: the validity test
    on the normal form raises [ValueError] outside the inner [try] blocks,
    after the resource was saved.  What the links before it put on the
    queue stays there, the links after it are not looked at; the run ends
    with exit code 1 and the entries in the queue are not processed. *)
Theorem odd_link_ends_crawl (output_dir base_domain : string)
    (max_depth : option Z) (verbose : bool) (url : string) (depth : Z)
    (st : state) (response : Response) (w0 w1 w2 w3 w4 : env)
    (saved_path : string) (before after : list string) (link u : string)
    (e : exn) (st1 : state) (fuel : nat) :
  (forall d, max_depth = Some d -> (depth <= d)%Z) ->
  url ∉ visited st ->
  print_if_verbose verbose (Downloading url) (world st) = (Ok tt, w0) ->
  requests_get url w0 = (Ok response, w1) ->
  is_error_status (status_code response) = false ->
  should_download (r_url response) base_domain = Ok true ->
  save_resource response output_dir base_domain (r_url response) w1
  = (Ok saved_path, w2) ->
  print_if_verbose verbose (Saved saved_path) w2 = (Ok tt, w3) ->
  report (parse_failure response (r_url response)) w3 = (Ok tt, w4) ->
  links_of response (r_url response) = before ++ link :: after ->
  enqueue_links base_domain depth before
    (mkState (visited st ∪ {[url]}) (queue st) (log st ++ [(url, depth)]) w4)
  = Next st1 ->
  normalize link = Ok u -> urlparse u = Raise e ->
  e = ValueError
  /\ crawl_pass output_dir base_domain max_depth verbose url depth st
     = Critical ValueError st1
  /\ crawl_loop output_dir base_domain max_depth verbose (S fuel)
       (mkState (visited st) ((url, depth) :: queue st) (log st) (world st))
     = Exit 1
         (with_world st1 (console_print (CriticalError ValueError) w4).2)
  /\ visited st1 = visited st ∪ {[url]}
  /\ log st1 = log st ++ [(url, depth)]
  /\ exists new,
       queue st1 = queue st ++ new
       /\ Forall (fun entry => entry.2 = (depth + 1)%Z) new.
Proof.
  intros Hd Hvis Hprint Hget Hstatus Hscope Hsave Hsaved Hreport Hlinks
    Hbefore Hnorm Hu.
  assert (e = ValueError) as -> by (by apply (urlparse_with_only u "")).
  assert (world st1 = w4) as Hw4.
  { pose proof (enqueue_links_spec base_domain depth before
                  (mkState (visited st ∪ {[url]}) (queue st)
                     (log st ++ [(url, depth)]) w4)) as (_ & _ & Hw & _).
    by rewrite Hbefore in Hw. }
  assert (crawl_pass output_dir base_domain max_depth verbose url depth st
          = Critical ValueError st1) as Hpass.
  { unfold crawl_pass.
    assert (match max_depth with
            | Some d => (d <? depth)%Z
            | None => false
            end = false) as ->.
    { destruct max_depth as [d|]; [|done]. apply Z.ltb_ge. auto. }
    rewrite decide_False by done. cbn [visited queue log world].
    rewrite Hprint. cbn [visited queue log world]. unfold fetch.
    rewrite Hget, Hstatus, Hscope, Hsave, Hsaved, Hreport, Hlinks.
    rewrite enqueue_links_app. unfold with_world at 1.
    cbn [visited queue log world]. rewrite Hbefore.
    cbn [enqueue_links].
    by rewrite (enqueue_link_odd base_domain depth st1 link u ValueError). }
  split_and!; [done|done| | | |].
  - cbn [crawl_loop queue visited log world].
    replace (mkState (visited st) (queue st) (log st) (world st)) with st
      by by destruct st.
    rewrite Hpass. unfold critical. by rewrite Hw4.
  - pose proof (enqueue_links_spec base_domain depth before
                  (mkState (visited st ∪ {[url]}) (queue st)
                     (log st ++ [(url, depth)]) w4)) as (Hv & _).
    by rewrite Hbefore in Hv.
  - pose proof (enqueue_links_spec base_domain depth before
                  (mkState (visited st ∪ {[url]}) (queue st)
                     (log st ++ [(url, depth)]) w4)) as (_ & Hl & _).
    by rewrite Hbefore in Hl.
  - pose proof (enqueue_links_spec base_domain depth before
                  (mkState (visited st ∪ {[url]}) (queue st)
                     (log st ++ [(url, depth)]) w4))
      as (_ & _ & _ & new & Hq & Hnew).
    rewrite Hbefore in Hq. exists new. split; [done|].
    eapply Forall_impl; [exact Hnew|]. by intros entry [? _].
Qed.

End OddLink.

Lemma odd_link_ends_crawl_witness :
  let W := Fixture.world_of Sites.odd_link_site in
  let st :=
    mkState ∅ [] [] ([] : list (string * string)) in
  let st1 :=
    mkState (∅ ∪ {[ "https://example.com/" ]})
      [("https://example.com/a", 1%Z)]
      [("https://example.com/", 0%Z)]
      ([("/out/example.com/index.html", "home")] : list (string * string)) in
  crawl_pass "/out" "example.com" None false "https://example.com/" 0%Z st
  = Critical ValueError st1
  /\ crawl_loop "/out" "example.com" None false 1
       (mkState (visited st) (("https://example.com/", 0%Z) :: queue st)
          (log st) (world st))
     = Exit 1 st1.
Proof.
  intros W st st1.
  destruct (odd_link_ends_crawl "/out" "example.com" None false
              "https://example.com/" 0%Z st
              (Fixture.html "https://example.com/" "home")
              ([] : list (string * string))
              ([] : list (string * string))
              ([("/out/example.com/index.html", "home")]
               : list (string * string))
              ([("/out/example.com/index.html", "home")]
               : list (string * string))
              ([("/out/example.com/index.html", "home")]
               : list (string * string))
              "/out/example.com/index.html"
              ["https://example.com/a"] [] "ftp:////[x/y" "ftp://[x/y"
              ValueError st1 0)
    as (_ & Hpass & Hloop & _).
  - discriminate.
  - vm_compute. discriminate.
  - reflexivity.
  - reflexivity.
  - reflexivity.
  - reflexivity.
  - reflexivity.
  - reflexivity.
  - reflexivity.
  - reflexivity.
  - reflexivity.
  - reflexivity.
  - reflexivity.
  - split; [exact Hpass|exact Hloop].
Defined.

(** ** Failures of one resource *)

Section Contained.
Context `{W : World}.

(** X8.  A resource whose request raises, whose answer has a status of
    400 to 599, or whose final URL is off the site is given up: its URL
    is marked visited, nothing is written and nothing is enqueued, and the
    pass ends with a print, made for a failed request in every run and for
    a URL off the site under [--verbose].  When the print returns, the
    loop goes on with the rest of the frontier; when it raises, as the
    console does on a URL that reads as a closing tag of its markup, the
    run ends with exit code 1. *)
Theorem failed_resource_skipped (output_dir base_domain : string)
    (max_depth : option Z) (verbose : bool) (url : string) (depth : Z)
    (st : state) (r : result Response) (w0 w1 : env) (fuel : nat) :
  (forall d, max_depth = Some d -> (depth <= d)%Z) ->
  url ∉ visited st ->
  print_if_verbose verbose (Downloading url) (world st) = (Ok tt, w0) ->
  requests_get url w0 = (r, w1) ->
  match r with
  | Raise _ => True
  | Ok response =>
      is_error_status (status_code response) = true
      \/ should_download (r_url response) base_domain = Ok false
  end ->
  let st' :=
    mkState (visited st ∪ {[url]}) (queue st) (log st ++ [(url, depth)]) w1 in
  let printed :=
    match r with
    | Raise e => console_print (ErrorDownloading url e) w1
    | Ok response =>
        if is_error_status (status_code response)
        then console_print (ErrorDownloading url HTTPError) w1
        else print_if_verbose verbose SkippingUnsupported w1
    end in
  let entry :=
    mkState (visited st) ((url, depth) :: queue st) (log st) (world st) in
  crawl_pass output_dir base_domain max_depth verbose url depth st
  = after_print printed st'
  /\ (forall w2,
        printed = (Ok tt, w2) ->
        crawl_pass output_dir base_domain max_depth verbose url depth st
        = Next (with_world st' w2)
        /\ crawl_loop output_dir base_domain max_depth verbose (S fuel) entry
           = crawl_loop output_dir base_domain max_depth verbose fuel
               (with_world st' w2))
  /\ (forall e w2,
        printed = (Raise e, w2) ->
        crawl_pass output_dir base_domain max_depth verbose url depth st
        = Critical e (with_world st' w2)
        /\ crawl_loop output_dir base_domain max_depth verbose (S fuel) entry
           = Exit 1
               (with_world st' (console_print (CriticalError e) w2).2)).
Proof.
  intros Hd Hvis Hprint Hget Hr st' printed entry.
  assert (crawl_pass output_dir base_domain max_depth verbose url depth st
          = after_print printed st') as Hpass.
  { unfold crawl_pass.
    assert (match max_depth with
            | Some d => (d <? depth)%Z
            | None => false
            end = false) as ->.
    { destruct max_depth as [d|]; [|done]. apply Z.ltb_ge. auto. }
    rewrite decide_False by done. cbn [visited queue log world].
    rewrite Hprint. cbn [visited queue log world]. unfold fetch.
    rewrite Hget. subst printed.
    destruct r as [response|e]; [|done].
    destruct (is_error_status (status_code response)); [done|].
    destruct Hr as [Herr | ->]; done. }
  assert (crawl_loop output_dir base_domain max_depth verbose (S fuel) entry
          = match after_print printed st' with
            | Next st2 =>
                crawl_loop output_dir base_domain max_depth verbose fuel st2
            | Critical e st2 => critical e st2
            end) as Hloop.
  { subst entry. cbn [crawl_loop queue visited log world].
    replace (mkState (visited st) (queue st) (log st) (world st)) with st
      by by destruct st.
    by rewrite Hpass. }
  split_and!; [done| |].
  - intros w2 Hprinted. rewrite Hloop, Hpass, Hprinted. done.
  - intros e w2 Hprinted. rewrite Hloop, Hpass, Hprinted. done.
Qed.

End Contained.

(** the request for [https://example.com/a[/b]] fails, and the print of
    the failure raises: the run ends while [https://example.com/b] waits *)
Lemma failed_resource_skipped_witness :
  let W := Fixture.markup_world in
  let st :=
    mkState {[ "https://example.com/" ]} [("https://example.com/b", 1%Z)]
      [("https://example.com/", 0%Z)]
      ([("/out/example.com/index.html", "home")] : list (string * string)) in
  let st' :=
    mkState
      ({[ "https://example.com/" ]} ∪ {[ "https://example.com/a[/b]" ]})
      [("https://example.com/b", 1%Z)]
      [("https://example.com/", 0%Z); ("https://example.com/a[/b]", 1%Z)]
      ([("/out/example.com/index.html", "home")] : list (string * string)) in
  crawl_pass "/out" "example.com" None false "https://example.com/a[/b]"
    1%Z st
  = Critical MarkupError st'
  /\ crawl_loop "/out" "example.com" None false 2
       (mkState (visited st)
          (("https://example.com/a[/b]", 1%Z) :: queue st)
          (log st) (world st))
     = Exit 1 st'.
Proof.
  intros W st st'.
  apply (proj2 (proj2
           (failed_resource_skipped "/out" "example.com" None false
              "https://example.com/a[/b]" 1%Z st (Raise RequestException)
              ([("/out/example.com/index.html", "home")]
               : list (string * string))
              ([("/out/example.com/index.html", "home")]
               : list (string * string)) 1
              ltac:(discriminate) ltac:(vm_compute; discriminate)
              eq_refl eq_refl I))
           MarkupError
           ([("/out/example.com/index.html", "home")]
            : list (string * string))).
  reflexivity.
Defined.

(** on a console that prints every text the same request is given up and
    the loop goes on *)
Example failed_resource_loop_goes_on :
  let run :=
    crawl (W := Fixture.world_of Fixture.markup_site)
      "https://example.com/" "/out" None false 10
      ([] : list (string * string)) in
  exists st,
    run.2 = Drained st
    /\ (log st).*1 = ["https://example.com/"; "https://example.com/a[/b]";
                      "https://example.com/b"].
Proof. eexists. split; [by vm_compute|done]. Qed.

(** ** The start entry *)

Section Rooted.
Context `{W : World}.

Lemma rooted_loop (output_dir base_domain base_url : string)
    (max_depth : option Z) (verbose : bool) (fuel : nat) (st : state) :
  rooted base_url st ->
  rooted base_url
    (final_state
       (crawl_loop output_dir base_domain max_depth verbose fuel st)).
Proof.
  apply crawl_loop_invariant; [done|].
  intros st' url depth rest Hinv Hqueue. unfold rooted.
  assert ((0 <= depth)%Z /\ (depth = 0%Z -> url = base_url)) as [Hdepth Hurl].
  { apply Hinv. rewrite Hqueue. left. }
  assert (forall u k, (u, k) ∈ rest ++ log st' ->
            (0 <= k)%Z /\ (k = 0%Z -> u = base_url)) as Hrest.
  { intros u k Hin. apply Hinv. rewrite Hqueue. by right. }
  destruct (crawl_pass_kind output_dir base_domain max_depth verbose url
              depth (mkState (visited st') rest (log st') (world st')))
    as [_ Hq Hl _|_ _ _ Hq Hl|new _ _ _ Hl Hq Hnew].
  - by rewrite Hq, Hl.
  - by rewrite Hq, Hl.
  - intros u k. rewrite Hq, Hl. simpl.
    rewrite <- app_assoc, (app_assoc new), !elem_of_app.
    intros [Hin|[[Hin|Hin]|Hin]].
    + apply Hrest. apply elem_of_app. by left.
    + apply (proj1 (Forall_forall _ _) Hnew) in Hin as [Hk _].
      simpl in *. split; lia.
    + apply Hrest. apply elem_of_app. by right.
    + by apply list_elem_of_singleton in Hin as [= -> ->].
Qed.

Lemma nodup_constant (l : list string) (x : string) :
  NoDup l -> (forall y, y ∈ l -> y = x) -> l = [] \/ l = [x].
Proof.
  intros Hnodup Hall. destruct l as [|a [|b l]]; [by left| |].
  - right. f_equal. apply Hall. left.
  - apply NoDup_cons in Hnodup as [Hnotin _]. exfalso. apply Hnotin.
    rewrite (Hall a) by left. rewrite (Hall b) by (right; left). left.
Qed.

(** X9.  No entry of the frontier and no request has a negative depth,
    and the only URL at depth 0 is the final URL of the first response,
    the one that answered the request for the start URL; so with
    [max_depth = 0] the loop issues one request at most, for that URL. *)
Theorem depth_zero_is_start_page (url output_dir : string)
    (max_depth : option Z) (verbose : bool) (fuel : nat) (w : env) :
  let st := final_state (crawl url output_dir max_depth verbose fuel w).2 in
  (forall u k,
     (u, k) ∈ queue st ++ log st ->
     (0 <= k)%Z
     /\ (k = 0%Z ->
         exists response w1 w1' w2,
           os_makedirs output_dir w = (Ok tt, w1)
           /\ announce verbose url output_dir w1 = (Ok tt, w1')
           /\ requests_get url w1' = (Ok response, w2)
           /\ u = r_url response))
  /\ (max_depth = Some 0%Z ->
      log st = []
      \/ exists response w1 w1' w2,
           os_makedirs output_dir w = (Ok tt, w1)
           /\ announce verbose url output_dir w1 = (Ok tt, w1')
           /\ requests_get url w1' = (Ok response, w2)
           /\ log st = [(r_url response, 0%Z)]).
Proof.
  intros st.
  destruct (crawl_start url output_dir max_depth verbose fuel w)
    as [[w' Hexit]|(response & parsed & md & w1 & w1' & w2 & Hmk & Hsay & Hget
                    & _ & _ & Hmd & Hloop)].
  { subst st. rewrite Hexit. simpl.
    split; [by intros u k Hin%elem_of_nil|auto]. }
  assert (rooted (r_url response) st) as Hroot.
  { subst st. rewrite Hloop. apply rooted_loop. intros u k Hin.
    simpl in Hin. apply list_elem_of_singleton in Hin as [= -> ->].
    split; [lia|done]. }
  split.
  - intros u k Hin. destruct (Hroot u k Hin) as [Hk Hu].
    split; [done|]. intros Hzero. exists response, w1, w1', w2.
    split_and!; [done..|]. by apply Hu.
  - intros ->. change (effective_depth (Some 0%Z)) with (Some 0%Z) in Hmd.
    subst md.
    assert (log_distinct st) as [Hnodup _].
    { subst st. rewrite Hloop. apply log_distinct_loop.
      split; [constructor|by intros u Hin%elem_of_nil]. }
    assert (log_within 0 st) as Hwithin.
    { subst st. rewrite Hloop. apply log_within_loop.
      by intros u k Hin%elem_of_nil. }
    assert (forall e, e ∈ log st -> e = (r_url response, 0%Z)) as Hall.
    { intros [u k] Hin.
      assert (k <= 0)%Z by by apply (Hwithin u).
      destruct (Hroot u k ltac:(apply elem_of_app; by right)) as [Hk Hu].
      assert (k = 0%Z) as -> by lia. by rewrite Hu. }
    destruct (nodup_constant (log st).*1 (r_url response) Hnodup) as [Hl|Hl].
    + intros y (e & -> & He)%list_elem_of_fmap. by rewrite (Hall e He).
    + left. by apply fmap_nil_inv in Hl.
    + right. exists response, w1, w1', w2. split_and!; [done..|].
      destruct (log st) as [|e [|e' l]]; [done| |done].
      by rewrite (Hall e) by left.
Qed.

End Rooted.

Lemma depth_zero_is_start_page_witness :
  let W := Fixture.world_of Fixture.small_site in
  let st :=
    final_state
      (Fixture.crawl_site Fixture.small_site "https://example.com/" "/out"
         (Some 0%Z) 10).2 in
  log st = []
  \/ exists response w1 w1' w2,
       os_makedirs "/out" ([] : list (string * string)) = (Ok tt, w1)
       /\ announce false "https://example.com/" "/out" w1 = (Ok tt, w1')
       /\ requests_get "https://example.com/" w1' = (Ok response, w2)
       /\ log st = [(r_url response, 0%Z)].
Proof.
  intros W st.
  apply (proj2 (depth_zero_is_start_page (W := W)
                  "https://example.com/" "/out" (Some 0%Z) false 10
                  ([] : list (string * string)))).
  reflexivity.
Defined.

(** ** Where a resource is saved *)

Lemma lstrip_last (P : ascii -> bool) (s : string) (c : ascii) :
  Str.last s = Some c -> P c = false -> Str.last (Str.lstrip P s) = Some c.
Proof.
  intros Hlast Hc. induction s as [|d s IH]; [done|].
  cbn [Str.lstrip]. destruct (P d) eqn:Hd; [|done].
  apply IH. destruct s; [|done]. simpl in Hlast. congruence.
Qed.

Lemma rstrip_id (P : ascii -> bool) (s : string) (c : ascii) :
  Str.last s = Some c -> P c = false -> Str.rstrip P s = s.
Proof.
  intros Hlast Hc. induction s as [|d s IH]; [done|].
  cbn [Str.rstrip]. destruct s as [|e s].
  - simpl in *. injection Hlast as ->. by rewrite Hc.
  - rewrite IH by done. done.
Qed.

Lemma strip_last (P : ascii -> bool) (s : string) (c : ascii) :
  Str.last s = Some c -> P c = false -> Str.last (Str.strip P s) = Some c.
Proof.
  intros Hlast Hc. unfold Str.strip.
  pose proof (lstrip_last P s c Hlast Hc) as Hl.
  by rewrite (rstrip_id P _ c Hl Hc).
Qed.

Lemma split_last_named (c : ascii) (s : string) (e : ascii) :
  Str.last s = Some e -> Ascii.eqb c e = false ->
  List.last (Str.split c s) "" ≠ "".
Proof.
  intros Hlast Hce. induction s as [|d s IH]; [done|].
  cbn [Str.split]. destruct s as [|d' s].
  - simpl in Hlast. injection Hlast as ->. rewrite Hce. simpl. done.
  - specialize (IH Hlast).
    destruct (split_head_in c (String d' s)) as (w & ws & Hs).
    rewrite Hs in *. destruct (Ascii.eqb c d); [done|].
    destruct ws; [done|]. done.
Qed.

(** the path that is split ends with a character that is not [/] *)
Lemma indexed_path_last (parsed : ParseResult) :
  exists c, Str.last (indexed_path parsed) = Some c
            /\ Ascii.eqb "/" c = false.
Proof.
  unfold indexed_path, Str.endswith.
  destruct (bool_decide (path parsed = "")) eqn:Hempty; cbn [orb].
  - exists "l"%char. split; [|done]. by rewrite last_app.
  - apply bool_decide_eq_false in Hempty.
    destruct (Str.last (path parsed)) as [c|] eqn:Hlast.
    + destruct (Ascii.eqb "/" c) eqn:Hc.
      * exists "l"%char. split; [|done]. by rewrite last_app.
      * eauto.
    + destruct (path parsed) as [|d s]; [done|]. exfalso.
      clear Hempty. revert d Hlast. induction s as [|d' s IH]; intros d Hlast.
      * done.
      * by apply (IH d').
Qed.

(** [os.path.join] on segments without [/]: an empty segment adds the
    separator that the next segment would add *)
Lemma join_skips_empty (parts : list string) (a : string) :
  a ≠ "" -> Str.endswith "/" a = false ->
  Forall (fun w => Str.mem "/" w = false) parts ->
  (parts ≠ [] -> List.last parts "" ≠ "") ->
  Posixpath.join a parts
  = a +:+ String.concat ""
            ((fun s => "/" +:+ s) <$> filter (fun s => s ≠ "") parts)
  /\ (parts ≠ [] ->
      Posixpath.join (a +:+ "/") parts
      = a +:+ String.concat ""
                ((fun s => "/" +:+ s) <$> filter (fun s => s ≠ "") parts)).
Proof.
  revert a. induction parts as [|b parts IH]; intros a Ha Hend Hparts Hlast.
  - split; [|done]. unfold Posixpath.join. simpl. by rewrite app_empty_r.
  - apply Forall_cons in Hparts as [Hb Hparts].
    assert (Str.endswith "/" (a +:+ "/") = true) as Hslash.
    { unfold Str.endswith. by rewrite last_app. }
    assert (a +:+ "/" ≠ "") as Hne by (by apply app_nonempty_r).
    unfold Posixpath.join in *. cbn [fold_left].
    rewrite (startswith_mem "/" b Hb), Hend, Hslash.
    rewrite !bool_decide_eq_false_2 by done. cbn [orb].
    destruct (decide (b = "")) as [->|Hbne].
    + rewrite filter_cons_False by (by intros ?).
      rewrite !app_empty_r.
      assert (parts ≠ []) as Hrest by (intros ->; by apply Hlast).
      assert (parts ≠ [] -> List.last parts "" ≠ "") as Hlast'.
      { intros _. destruct parts; [done|]. by apply Hlast. }
      destruct (IH a Ha Hend Hparts Hlast') as [_ IH2].
      split; intros; by apply IH2.
    + rewrite filter_cons_True by done.
      rewrite fmap_cons, concat_empty_cons.
      assert (parts ≠ [] -> List.last parts "" ≠ "") as Hlast'.
      { intros Hrest. destruct parts; [done|]. by apply Hlast. }
      assert (a +:+ "/" +:+ b ≠ "") as Hne'
        by (by apply app_nonempty_r, app_nonempty_r).
      assert (Str.endswith "/" (a +:+ "/" +:+ b) = false) as Hend'.
      { unfold Str.endswith. rewrite last_app by (by apply app_nonempty_r).
        rewrite (last_app "/" b) by done. by apply last_mem. }
      destruct (IH (a +:+ "/" +:+ b) Hne' Hend' Hparts Hlast') as [IH1 _].
      rewrite (app_assoc_str a "/" b).
      split; intros; by rewrite IH1, !app_assoc_str.
Qed.

Lemma join_cons_concat (a : string) (l : list string) :
  Str.join "/" (a :: l)
  = a +:+ String.concat "" ((fun s => "/" +:+ s) <$> l).
Proof.
  destruct l as [|w ws].
  - simpl. by rewrite app_empty_r.
  - by rewrite concat_slash_join.
Qed.

Lemma named_segments_last (parsed : ParseResult) :
  List.last (path_segments parsed) "" ≠ "".
Proof.
  destruct (indexed_path_last parsed) as (c & Hlast & Hc).
  unfold path_segments. apply (split_last_named "/" _ c); [|done].
  by apply strip_last.
Qed.

(** X10.  A resource is saved below [output_dir/domain], whatever its URL:
    when the output root is not empty and does not end with [/], and the
    domain is not empty and has no [/], the file path is the root, the
    domain and the non-empty segments of the path (with [index.html] for
    a directory) joined by [/].  There is at least one such segment, the
    file name; empty segments leave no trace, so that [/a//b] and [/a/b]
    are saved at the same place. *)
Theorem saved_below_site_directory `{W : World}
    (output_dir domain url : string) (parsed : ParseResult) :
  urlparse url = Ok parsed ->
  output_dir ≠ "" -> Str.endswith "/" output_dir = false ->
  domain ≠ "" -> Str.mem "/" domain = false ->
  named_segments parsed ≠ []
  /\ (exists dir_structure,
        save_paths output_dir domain url
        = Ok (dir_structure,
              Str.join "/" (output_dir :: domain :: named_segments parsed)))
  /\ (forall response w saved_path,
        (save_resource response output_dir domain url w).1 = Ok saved_path ->
        saved_path
        = Str.join "/" (output_dir :: domain :: named_segments parsed)).
Proof.
  intros Hp Hout Hend Hdom Hslash.
  pose proof (named_segments_last parsed) as Hlast.
  pose proof (split_nonempty "/"
                (Str.strip (Ascii.eqb "/") (indexed_path parsed))) as Hne.
  pose proof (split_segments "/"
                (Str.strip (Ascii.eqb "/") (indexed_path parsed))) as Hall.
  fold (path_segments parsed) in Hne, Hall.
  assert (named_segments parsed ≠ []) as Hnamed.
  { unfold named_segments. intros Hnil.
    assert (List.last (path_segments parsed) "" ∈
              filter (fun s => s ≠ "") (path_segments parsed)) as Hin.
    { apply list_elem_of_filter. split; [done|].
      destruct (path_segments parsed) as [|w ws]; [done|].
      rewrite (app_removelast_last "" (l := w :: ws)) at 2 by done.
      apply elem_of_app. right. by apply list_elem_of_singleton. }
    rewrite Hnil in Hin. by apply elem_of_nil in Hin. }
  assert (save_paths output_dir domain url
          = Ok (Posixpath.join output_dir
                  (domain :: removelast (path_segments parsed)),
                Str.join "/"
                  (output_dir :: domain :: named_segments parsed)))
    as Hpaths.
  { rewrite (save_paths_segments _ _ _ _ Hp). do 2 f_equal.
    destruct (join_skips_empty (domain :: path_segments parsed) output_dir)
      as [-> _]; [done|done| |
                  |].
    - by constructor.
    - intros _. by destruct (path_segments parsed).
    - rewrite filter_cons_True by done. fold (named_segments parsed).
      by rewrite join_cons_concat. }
  split_and!; [done|eauto|].
  intros response w saved_path. unfold save_resource. rewrite Hpaths.
  destruct (os_makedirs _ w) as [[[]|] w1]; [|done].
  destruct (open_write _ _ w1) as [[[]|] w2]; [|done].
  simpl. congruence.
Qed.

Lemma saved_below_site_directory_witness :
  named_segments (mkParse "https" "example.com" "/a//b/" "" "" "") ≠ []
  /\ (exists dir_structure,
        save_paths "/out" "example.com" "https://example.com/a//b/"
        = Ok (dir_structure, "/out/example.com/a/b/index.html"))
  /\ save_paths "/out" "example.com" "https://example.com/a/b/"
     = Ok ("/out/example.com/a/b", "/out/example.com/a/b/index.html").
Proof.
  destruct (saved_below_site_directory
              (W := Fixture.world_of Fixture.small_site)
              "/out" "example.com" "https://example.com/a//b/"
              (mkParse "https" "example.com" "/a//b/" "" "" ""))
    as (Hnamed & Hpath & _); [reflexivity|discriminate|reflexivity
                              |discriminate|reflexivity|].
  split_and!; [exact Hnamed|exact Hpath|reflexivity].
Defined.

(** ** The content type that selects the extractor *)

Lemma split_hd_plain (c : ascii) (a : string) :
  Str.mem c a = false -> List.hd "" (Str.split c a) = a.
Proof.
  induction a as [|d a IH]; [done|]. cbn [Str.mem Str.split].
  destruct (Ascii.eqb c d); [done|]. intros Ha.
  destruct (split_head_in c a) as (w & ws & Hs). rewrite Hs in *.
  simpl in *. by rewrite IH.
Qed.

Lemma split_hd_app (c : ascii) (a b : string) :
  Str.mem c a = false -> List.hd "" (Str.split c (a +:+ String c b)) = a.
Proof.
  induction a as [|d a IH].
  - intros _. rewrite app_empty_l. cbn [Str.split].
    by rewrite Ascii.eqb_refl.
  - rewrite app_cons. cbn [Str.mem Str.split].
    destruct (Ascii.eqb c d); [done|]. intros Ha.
    destruct (split_head_in c (a +:+ String c b)) as (w & ws & Hs).
    rewrite Hs in *. simpl in *. by rewrite IH.
Qed.

Lemma lstrip_all_app (P : ascii -> bool) (a s : string) :
  Str.all P a = true -> Str.lstrip P (a +:+ s) = Str.lstrip P s.
Proof.
  induction a as [|c a IH]; [done|]. rewrite app_cons. cbn [Str.all].
  intros [Hc Ha]%andb_true_iff. cbn [Str.lstrip]. rewrite Hc. auto.
Qed.

Lemma rstrip_all (P : ascii -> bool) (a : string) :
  Str.all P a = true -> Str.rstrip P a = "".
Proof.
  induction a as [|c a IH]; [done|]. cbn [Str.all].
  intros [Hc Ha]%andb_true_iff. cbn [Str.rstrip]. by rewrite IH, Hc.
Qed.

Lemma rstrip_app_all (P : ascii -> bool) (s a : string) :
  Str.all P a = true -> Str.rstrip P (s +:+ a) = Str.rstrip P s.
Proof.
  intros Ha. induction s as [|c s IH].
  - rewrite app_empty_l. by apply rstrip_all.
  - rewrite app_cons. cbn [Str.rstrip]. by rewrite IH.
Qed.

(** white space around a trimmed string is what [strip] removes *)
Lemma strip_ws_padded (ws1 s ws2 : string) :
  Str.all Str.isspace ws1 = true -> Str.all Str.isspace ws2 = true ->
  trimmed s = true ->
  Str.strip_ws (ws1 +:+ s +:+ ws2) = s.
Proof.
  intros H1 H2 [Hfirst Hlast]%andb_true_iff.
  unfold Str.strip_ws, Str.strip. rewrite lstrip_all_app by done.
  destruct s as [|c s].
  - rewrite app_empty_l.
    rewrite <- (app_empty_r ws2), lstrip_all_app by done. done.
  - apply negb_true_iff in Hfirst. rewrite app_cons.
    rewrite lstrip_head by done. rewrite <- app_cons.
    rewrite rstrip_app_all by done.
    destruct (Str.last (String c s)) as [e|] eqn:He.
    + apply negb_true_iff in Hlast. by apply (rstrip_id _ _ e).
    + exfalso. clear -He. revert c He.
      induction s as [|d s IH]; intros c He; [done|]. by apply (IH d).
Qed.

(** X11.  The content type the engine compares is the header value up to
    its first [;], without the white space around it: parameters such as
    [charset] do not count.  The comparison that follows is exact: a
    resource whose media type is then neither [text/html] nor [text/css],
    in these very letters, contributes no links. *)
Theorem content_type_without_parameters `{W : World} (response : Response)
    (ws1 media ws2 : string) (parameters : option string) :
  Str.all Str.isspace ws1 = true -> Str.all Str.isspace ws2 = true ->
  trimmed media = true -> Str.mem ";" media = false ->
  content_type_header response
  = Some (ws1 +:+ media +:+ ws2
          +:+ match parameters with
              | Some p => String ";" p
              | None => ""
              end) ->
  content_type_of response = media
  /\ (forall final_url,
        media ≠ "text/html" -> media ≠ "text/css" ->
        links_of response final_url = []).
Proof.
  intros H1 H2 Htrim Hmedia Hheader.
  assert (content_type_of response = media) as Htype.
  { unfold content_type_of. rewrite Hheader.
    cbn [default from_option id].
    assert (Str.mem ";" (ws1 +:+ media +:+ ws2) = false) as Hmem.
    { rewrite !mem_app, Hmedia.
      by rewrite !(all_mem Str.isspace ";") by done. }
    destruct parameters as [p|].
    - rewrite <- (app_assoc_str media ws2), <- (app_assoc_str ws1).
      rewrite split_hd_app by done. by apply strip_ws_padded.
    - rewrite app_empty_r, split_hd_plain by done.
      by apply strip_ws_padded. }
  split; [done|]. intros final_url Hhtml Hcss. unfold links_of.
  rewrite Htype. by rewrite !decide_False by done.
Qed.

Lemma content_type_without_parameters_witness :
  let response :=
    mkResponse "https://example.com/" 200
      (Some " Text/HTML ; charset=utf-8") "" "" in
  content_type_of response = "Text/HTML"
  /\ links_of (W := Fixture.world_of Fixture.small_site) response
       "https://example.com/" = [].
Proof.
  intros response.
  destruct (content_type_without_parameters
              (W := Fixture.world_of Fixture.small_site) response
              " " "Text/HTML" " " (Some " charset=utf-8"))
    as [Htype Hlinks]; [reflexivity..|].
  split; [exact Htype|]. by apply Hlinks.
Defined.

(** ** A depth limit ends the crawl *)

Section Termination.
Context `{W : World}.
Variable output_dir : string.
Variable base_domain : string.
Variable verbose : bool.

Lemma halts_empty (max_depth : option Z) (vis : gset string)
    (lg : list (string * Z)) (w : env) :
  halts output_dir base_domain max_depth verbose (mkState vis [] lg w).
Proof. by exists 0%nat. Qed.

Lemma halts_step (max_depth : option Z) (url : string) (depth : Z)
    (rest : list (string * Z)) (vis : gset string) (lg : list (string * Z))
    (w : env) :
  (forall st',
     crawl_pass output_dir base_domain max_depth verbose url depth
       (mkState vis rest lg w) = Next st' ->
     halts output_dir base_domain max_depth verbose st') ->
  halts output_dir base_domain max_depth verbose
    (mkState vis ((url, depth) :: rest) lg w).
Proof.
  intros Hnext.
  destruct (crawl_pass output_dir base_domain max_depth verbose url depth
              (mkState vis rest lg w)) as [st'|e st'] eqn:Hpass.
  - destruct (Hnext st' eq_refl) as [fuel Hfuel]. exists (S fuel).
    cbn [crawl_loop queue visited log world]. by rewrite Hpass.
  - exists 1%nat. cbn [crawl_loop queue visited log world].
    by rewrite Hpass.
Qed.

(** entries below the limit are dropped, one pass each *)
Lemma halts_above (d : Z) (q : list (string * Z)) (vis : gset string)
    (lg : list (string * Z)) (w : env) :
  Forall (fun e => (d < e.2)%Z) q ->
  halts output_dir base_domain (Some d) verbose (mkState vis q lg w).
Proof.
  revert w. induction q as [|[url depth] rest IH]; intros w Hq.
  - apply halts_empty.
  - apply Forall_cons in Hq as [Hdepth Hrest]. simpl in Hdepth.
    apply halts_step. unfold crawl_pass.
    rewrite (proj2 (Z.ltb_lt d depth) Hdepth).
    destruct (print_if_verbose verbose (SkippingMaxDepth url) _)
      as [[[]|e] w']; [|done].
    intros st' [= <-]. by apply IH.
Qed.

(** one level of the frontier: if the loop ends whenever every entry is
    deeper than [lo], it ends when the entries at the front are at [lo]
    or deeper *)
Lemma halts_layer (max_depth : option Z) (lo : Z) :
  (forall q vis lg w,
     Forall (fun e => (lo + 1 <= e.2)%Z) q ->
     halts output_dir base_domain max_depth verbose (mkState vis q lg w)) ->
  forall front back vis lg w,
    Forall (fun e => (lo <= e.2)%Z) front ->
    Forall (fun e => (lo + 1 <= e.2)%Z) back ->
    halts output_dir base_domain max_depth verbose
      (mkState vis (front ++ back) lg w).
Proof.
  intros Hdeeper.
  induction front as [|[url depth] front IH]; intros back vis lg w Hf Hb.
  - by apply Hdeeper.
  - apply Forall_cons in Hf as [Hdepth Hfront]. simpl in Hdepth.
    change (((url, depth) :: front) ++ back)
      with ((url, depth) :: (front ++ back)).
    apply halts_step. intros st' Hpass.
    pose proof (crawl_pass_kind output_dir base_domain max_depth verbose url
                  depth (mkState vis (front ++ back) lg w)) as Hkind.
    rewrite Hpass in Hkind. cbn [state_of_pass] in Hkind.
    destruct st' as [vis' q' lg' w']. cbn [queue] in Hkind.
    destruct Hkind as [_ Hq _ _|_ _ _ Hq _|new _ _ _ _ Hq Hnew];
      cbn [queue] in Hq; subst q'.
    + by apply IH.
    + by apply IH.
    + rewrite <- app_assoc. apply IH; [done|].
      apply Forall_app. split; [done|].
      eapply Forall_impl; [exact Hnew|]. intros e [He _]. lia.
Qed.

(** the loop ends when every entry is at most [n] levels above the
    limit *)
Lemma halts_within (d : Z) (n : nat) :
  forall q vis lg w,
    Forall (fun e => (d + 1 - Z.of_nat n <= e.2)%Z) q ->
    halts output_dir base_domain (Some d) verbose (mkState vis q lg w).
Proof.
  induction n as [|n IH]; intros q vis lg w Hq.
  - apply halts_above. eapply Forall_impl; [exact Hq|].
    intros e He. simpl in He. lia.
  - rewrite <- (app_nil_r q).
    apply (halts_layer (Some d) (d + 1 - Z.of_nat (S n))); [|done|done].
    intros q' vis' lg' w' Hq'. apply IH.
    eapply Forall_impl; [exact Hq'|]. intros e He. simpl in He. lia.
Qed.

(** once the loop has ended, more passes change nothing *)
Lemma finished_more_fuel (max_depth : option Z) (fuel : nat) :
  forall st fuel',
    finished (crawl_loop output_dir base_domain max_depth verbose fuel st)
    = true ->
    (fuel <= fuel')%nat ->
    crawl_loop output_dir base_domain max_depth verbose fuel' st
    = crawl_loop output_dir base_domain max_depth verbose fuel st.
Proof.
  induction fuel as [|fuel IH]; intros st fuel' Hfin Hle.
  - cbn [crawl_loop] in *.
    destruct fuel'; cbn [crawl_loop];
      by destruct (queue st) as [|[url depth] rest].
  - destruct fuel' as [|fuel']; [lia|]. cbn [crawl_loop] in *.
    destruct (queue st) as [|[url depth] rest]; [done|].
    destruct (crawl_pass _ _ _ _ _ _ _) as [st'|e st']; [|done].
    apply IH; [done|lia].
Qed.

End Termination.

(** X12.  With a depth limit the crawl always ends, whatever the site
    serves: for [--max-depth d] with [d] at least 0 there is a number of
    passes after which the loop has drained its queue or the run was
    aborted, and more passes give the very same run. *)
Theorem depth_limit_ends_crawl `{W : World} (url output_dir : string)
    (d : Z) (verbose : bool) (w : env) :
  (0 <= d)%Z ->
  exists fuel,
    forall fuel', (fuel <= fuel')%nat ->
      finished (crawl url output_dir (Some d) verbose fuel' w).2 = true
      /\ crawl url output_dir (Some d) verbose fuel' w
         = crawl url output_dir (Some d) verbose fuel w.
Proof.
  intros Hd. unfold crawl.
  destruct (os_makedirs output_dir w) as [[[]|e] w1];
    [|by exists 0%nat].
  destruct (announce verbose url output_dir w1) as [[[]|e] w1'];
    [|by exists 0%nat].
  destruct (requests_get url w1') as [[response|e] w2];
    [|by exists 0%nat].
  destruct (negb (status_code response =? 200)%Z).
  { destruct (initial_error _ w2) as [e w3]. by exists 0%nat. }
  destruct (urlparse (r_url response)) as [parsed|e]; [|by exists 0%nat].
  rewrite (proj2 (Z.ltb_ge d 0) Hd).
  destruct (halts_within output_dir (netloc parsed) verbose d
              (Z.to_nat (d + 1))
              [(r_url response, 0%Z)] ∅ [] w2) as [fuel Hfuel].
  { repeat constructor. simpl. lia. }
  exists fuel. intros fuel' Hle. cbn [snd].
  rewrite (finished_more_fuel output_dir (netloc parsed) verbose (Some d)
             fuel _ fuel' Hfuel Hle).
  by split.
Qed.

Lemma depth_limit_ends_crawl_witness :
  (0 <= 1)%Z
  /\ exists fuel,
       finished
         (crawl (W := Fixture.world_of Fixture.small_site)
            "https://example.com/" "/out" (Some 1%Z) false fuel
            ([] : list (string * string))).2 = true.
Proof.
  split; [lia|].
  destruct (depth_limit_ends_crawl
              (W := Fixture.world_of Fixture.small_site)
              "https://example.com/" "/out" 1 false
              ([] : list (string * string))) as [fuel Hfuel]; [lia|].
  exists fuel. by apply (Hfuel fuel).
Defined.
